(** * OpenLiveCaption: audio capture engine and overlap window buffer

    A shallow embedding of [src/audio/audio_capture.py] (class
    [AudioCaptureEngine]) and of the overlap buffering of
    [src/transcription/transcription_engine.py] (class
    [TranscriptionEngine]), with the properties of the capture session,
    the reconnection supervisor, the two-source mixer and the window
    buffer.

    Conventions of the embedding:
    - audio samples, levels and clock readings are Python floats; they are
      idealised as rationals ([Q]), compared with [Qlt]/[Qle] and equated
      with [==];
    - Python objects are records; a method is a function that takes the
      object and returns the updated object, its result and the effects it
      performed, in program order;
    - [raise] is an explicit outcome, so that the attribute writes done
      before a [raise] stay visible afterwards, as they do in Python;
    - each thread is followed on its own: what the device, the enumerator
      and the other threads do to it is a list of events that the thread
      meets in order, and a thread that has used up the list is
      [Pending]. *)

From Stdlib Require Import String DecimalString.
From Stdlib Require Import ZArith QArith Qminmax Bool Lia List Sorted.
Import ListNotations.

Open Scope string_scope.
Open Scope list_scope.
Open Scope Z_scope.

(** ** Common data *)

(** A mono buffer of samples ([np.ndarray], dtype float32). *)
Definition Chunk := list Q.

(** Python exceptions: the class decides which [except] clause catches,
    the message is what [str(e)] prints. *)
Inductive ExnClass := RuntimeError | OSError | OtherException.

Record Exn := mkExn { exn_class : ExnClass; exn_msg : string }.

(** What a call produces: a value, a raised exception, or [Pending] when a
    thread is still inside a loop and the recorded environment has nothing
    more to deliver. *)
Inductive Outcome (A : Type) :=
| Returned (a : A)
| Raised (e : Exn)
| Pending.
Arguments Returned {A} a.
Arguments Raised {A} e.
Arguments Pending {A}.

(** [l[-n:]] on a Python list. *)
Definition last_n {A} (n : nat) (l : list A) : list A :=
  skipn (length l - n)%nat l.

(** ** The window buffer of [TranscriptionEngine] *)

Module Transcription.

Record TranscriptionResult := mkResult {
  text : string;
  language : string;
  confidence : Q;
  start_time : Q;
  end_time : Q
}.

(** The fields of [TranscriptionEngine] that [transcribe],
    [process_with_overlap] and [reset_buffer] read or write.
    [model_loaded] stands for [self.model is not None]. *)
Record Engine := mkEngine {
  model_loaded : bool;
  language_setting : option string;
  audio_buffer : list Chunk;
  chunk_index : Z;
  sample_rate : Z
}.

(** The state [__init__] leaves behind once [_load_model] succeeded. *)
Definition init : Engine :=
  {| model_loaded := true; language_setting := None;
     audio_buffer := []; chunk_index := 0; sample_rate := 16000 |}.

(** One run of the recognition block of [transcribe] (lines 118-179): the
    audio written to the temporary file and the value of [lang] (line
    112). How the block uses the model with them, a language that is the
    empty string and the second use with ["en"] included, is
    [recognition_block] below. *)
Record Recognition := mkRecognition {
  rec_audio : Chunk;
  rec_language : option string
}.

Definition Call (A : Type) : Type := Outcome A * Engine * list Recognition.

Section Recogniser.

(** The speech recogniser is external. [whisper audio lang] is what the
    body of the outer [try] of [transcribe] extracts from it for the audio
    and the value of [lang]: the stripped text, the detected language and
    the averaged confidence, or [None] when anything in that block
    raises. *)
Variable whisper : Chunk -> option string -> option (string * string * Q).

Definition set_chunk_index (i : Z) (e : Engine) : Engine :=
  {| model_loaded := model_loaded e; language_setting := language_setting e;
     audio_buffer := audio_buffer e; chunk_index := i;
     sample_rate := sample_rate e |}.

Definition set_audio_buffer (b : list Chunk) (e : Engine) : Engine :=
  {| model_loaded := model_loaded e; language_setting := language_setting e;
     audio_buffer := b; chunk_index := chunk_index e;
     sample_rate := sample_rate e |}.

(** [len(audio)] *)
Definition len (audio : Chunk) : Z := Z.of_nat (length audio).

(** [transcribe(audio, language)] *)
Definition transcribe (audio : Chunk) (lang_arg : option string) (e : Engine)
  : Call TranscriptionResult :=
  if negb (model_loaded e) then
    (Raised (mkExn RuntimeError "Model not loaded"), e, [])
  else
    let lang := match lang_arg with
                | Some l => Some l
                | None => language_setting e
                end in
    let start := (inject_Z (chunk_index e * len audio)
                  / inject_Z (sample_rate e))%Q in
    let stop := (start + inject_Z (len audio) / inject_Z (sample_rate e))%Q in
    let e' := set_chunk_index (chunk_index e + 1) e in
    let res :=
      match whisper audio lang with
      | Some (t, l, c) => mkResult t l c start stop
      | None => mkResult "" "unknown" 0 start stop
      end in
    (Returned res, e', [mkRecognition audio lang]).

(** [process_with_overlap(audio_chunk)] *)
Definition process_with_overlap (audio_chunk : Chunk) (e : Engine)
  : Call (option TranscriptionResult) :=
  let e1 := set_audio_buffer (audio_buffer e ++ [audio_chunk]) e in
  if (length (audio_buffer e1) <? 2)%nat then (Returned None, e1, [])
  else
    let combined := concat (last_n 2 (audio_buffer e1)) in
    match transcribe combined None e1 with
    | (Returned r, e2, tr) =>
        (Returned (Some r), set_audio_buffer (last_n 1 (audio_buffer e2)) e2, tr)
    | (Raised x, e2, tr) => (Raised x, e2, tr)
    | (Pending, e2, tr) => (Pending, e2, tr)
    end.

(** [reset_buffer()] *)
Definition reset_buffer (e : Engine) : Engine :=
  set_chunk_index 0 (set_audio_buffer [] e).

End Recogniser.

(** The duration of a chunk in seconds at the engine's sample rate. *)
Definition chunk_seconds (e : Engine) (c : Chunk) : Q :=
  (inject_Z (len c) / inject_Z (sample_rate e))%Q.

(** The three parts of a call. *)
Definition outcome {A} (c : Call A) : Outcome A := fst (fst c).
Definition after {A} (c : Call A) : Engine := snd (fst c).
Definition recognised {A} (c : Call A) : list Recognition := snd c.

(** *** The model and the stream of chunks *)

(** [SUPPORTED_MODELS] *)
Definition SUPPORTED_MODELS : list string :=
  ["tiny"; "base"; "small"; "medium"; "large"].

(** [model_name in self.SUPPORTED_MODELS] *)
Definition supported (model_name : string) : bool :=
  existsb (String.eqb model_name) SUPPORTED_MODELS.

(** [', '.join(self.SUPPORTED_MODELS)] *)
Definition supported_list : string := String.concat ", " SUPPORTED_MODELS.

(** The [ValueError] of [__init__] and [change_model]; its class is one
    of the other exception classes. *)
Definition unsupported_model (model_name : string) : Exn :=
  mkExn OtherException
    (String.append "Unsupported model '"
       (String.append model_name
          (String.append "'. Supported models: " supported_list))).

(** The [RuntimeError] of [_load_model]; [e] is what the exception of
    [whisper.load_model] prints. *)
Definition load_failed (model_name e : string) : Exn :=
  mkExn RuntimeError
    (String.append "Failed to load Whisper model '"
       (String.append model_name (String.append "': " e))).

(** The engine object with the two attributes that [__init__] and
    [change_model] use besides those of [Engine]. *)
Record Object := mkObject {
  model_name : string;
  device : string;
  core : Engine
}.

Definition set_model_loaded (b : bool) (e : Engine) : Engine :=
  {| model_loaded := b; language_setting := language_setting e;
     audio_buffer := audio_buffer e; chunk_index := chunk_index e;
     sample_rate := sample_rate e |}.

Definition set_language_setting (l : option string) (e : Engine) : Engine :=
  {| model_loaded := model_loaded e; language_setting := l;
     audio_buffer := audio_buffer e; chunk_index := chunk_index e;
     sample_rate := sample_rate e |}.

(** [_load_model()]; [load] is what [whisper.load_model] does this time:
    [None] when it returns a model, [Some e] when it raises. *)
Definition _load_model (load : option string) (o : Object)
  : Outcome unit * Object :=
  match load with
  | None =>
      (Returned tt,
       mkObject (model_name o) (device o) (set_model_loaded true (core o)))
  | Some e => (Raised (load_failed (model_name o) e), o)
  end.

(** [TranscriptionEngine(model_name, device)] *)
Definition create (name dev : string) (load : option string)
  : Outcome Object :=
  if negb (supported name) then Raised (unsupported_model name)
  else
    let o := mkObject name dev
               {| model_loaded := false; language_setting := None;
                  audio_buffer := []; chunk_index := 0;
                  sample_rate := 16000 |} in
    match _load_model load o with
    | (Returned _, o') => Returned o'
    | (Raised e, _) => Raised e
    | (Pending, _) => Pending
    end.

(** [change_model(model_name)] *)
Definition change_model (name : string) (load : option string) (o : Object)
  : Outcome unit * Object :=
  if negb (supported name) then (Raised (unsupported_model name), o)
  else if String.eqb name (model_name o) then (Returned tt, o)
  else
    _load_model load
      (mkObject name (device o) (set_model_loaded false (core o))).

(** [set_language(language)] *)
Definition set_language (l : option string) (e : Engine) : Engine :=
  set_language_setting l e.

Section Streams.

Variable whisper : Chunk -> option string -> option (string * string * Q).

(** The chunks of a capture session passed one after the other to
    [process_with_overlap], as [_on_audio_chunk] of the application does;
    an exception of one call is caught there and the next chunk is
    processed all the same. *)
Fixpoint pushes (chunks : list Chunk) (e : Engine)
  : list (Outcome (option TranscriptionResult)) * Engine * list Recognition :=
  match chunks with
  | [] => ([], e, [])
  | c :: rest =>
      let '(o, e1, t1) := process_with_overlap whisper c e in
      let '(os, e2, t2) := pushes rest e1 in
      (o :: os, e2, t1 ++ t2)
  end.

(** The same chunks passed one after the other to [transcribe]. *)
Fixpoint transcribes (chunks : list Chunk) (e : Engine)
  : list (Outcome TranscriptionResult) * Engine * list Recognition :=
  match chunks with
  | [] => ([], e, [])
  | c :: rest =>
      let '(o, e1, t1) := transcribe whisper c None e in
      let '(os, e2, t2) := transcribes rest e1 in
      (o :: os, e2, t1 ++ t2)
  end.

End Streams.

(** The windows of a stream of chunks: each chunk but the first, behind
    the chunk before it. *)
Definition windows_of (chunks : list Chunk) : list Chunk :=
  map (fun ab => fst ab ++ snd ab) (combine chunks (tl chunks)).

(** A recogniser whose outer [try] block always raises: every result is
    the empty one. *)
Definition hears_nothing (_ : Chunk) (_ : option string)
  : option (string * string * Q) := None.

(** *** Inside the recognition block *)

(** One use of [self.model.transcribe]: what lines 166-179 extract from
    the dict it returns (the stripped text, the language and the
    confidence), or the exception it raises; [caught_by_fallback] tells
    whether the class of the exception is [RuntimeError], [ValueError] or
    [KeyError], the classes that the clause of line 144 catches. *)
Inductive ModelAnswer :=
| Transcribed (t l : string) (c : Q)
| ModelRaises (caught_by_fallback : bool).

(** The audio and the [language] argument of one use of the model. *)
Record ModelUse := mkUse {
  use_audio : Chunk;
  use_language : option string
}.

(** [if lang:] for an [Optional[str]]: set and not the empty string. *)
Definition truthy (lang : option string) : bool :=
  match lang with
  | Some l => negb (String.eqb l "")
  | None => false
  end.

Section Model.

Variable model : Chunk -> option string -> ModelAnswer.

(** Lines 119-179 of [transcribe], with the temporary file created and
    written: what the block extracts, [None] when it raises, and the uses
    it makes of the model. With a language the
    model is used once, with that language. Without one (or with the
    empty string) it is used with [language=None] and, when that raises
    an exception of the three classes, once more with ["en"]. *)
Definition recognition_block (audio : Chunk) (lang : option string)
  : option (string * string * Q) * list ModelUse :=
  if truthy lang then
    match model audio lang with
    | Transcribed t l c => (Some (t, l, c), [mkUse audio lang])
    | ModelRaises _ => (None, [mkUse audio lang])
    end
  else
    match model audio None with
    | Transcribed t l c => (Some (t, l, c), [mkUse audio None])
    | ModelRaises true =>
        match model audio (Some "en") with
        | Transcribed t l c =>
            (Some (t, l, c), [mkUse audio None; mkUse audio (Some "en")])
        | ModelRaises _ =>
            (None, [mkUse audio None; mkUse audio (Some "en")])
        end
    | ModelRaises false => (None, [mkUse audio None])
    end.

(** The recogniser of [transcribe] that this model gives. *)
Definition whisper_of (audio : Chunk) (lang : option string)
  : option (string * string * Q) :=
  fst (recognition_block audio lang).

(** The uses of the model in the runs of the block. *)
Definition model_uses (runs : list Recognition) : list ModelUse :=
  flat_map (fun r => snd (recognition_block (rec_audio r) (rec_language r)))
           runs.

End Model.

(** A model that cannot detect the language but recognises English. *)
Definition english_only (_ : Chunk) (lang : option string) : ModelAnswer :=
  match lang with
  | Some _ => Transcribed "hello" "en" (9 # 10)
  | None => ModelRaises true
  end.
End Transcription.

(** ** The audio capture engine *)

Module Audio.

Record AudioDevice := mkDevice {
  id : Z;
  name : string;
  channels : Z;
  device_sample_rate : Z;
  is_loopback : bool;
  is_default : bool
}.

(** [AudioConfig] of [src/config/config_manager.py]. *)
Record AudioConfig := mkConfig {
  device_id : Z;
  sample_rate : Z;
  chunk_duration : Q;
  vad_threshold : Q
}.

Definition default_config : AudioConfig :=
  {| device_id := -1; sample_rate := 16000; chunk_duration := 1;
     vad_threshold := 1 # 100 |}.

(** Thread objects are told apart by the order of their creation. *)
Definition ThreadId := nat.

(** An [error_callback] supplied by the client. *)
Definition ErrorCallback := nat.

(** What [self.callback] can hold: a callable supplied by the client, or
    the closure [primary_callback] that [start_multi_source_capture]
    builds around its [callback] argument. *)
Inductive ChunkCallback :=
| ClientCallback (k : nat)
| PrimaryCallback (mixed_to : ChunkCallback).

(** What a [Thread] runs. *)
Inductive Target :=
| CaptureLoop
| SecondaryCaptureLoop (device : Z).

(** What a method does to the world outside the engine object, in order.
    [StreamClosed] is the release of a stream by a [finally] clause: its
    stop and its close are attempted. *)
Inductive Effect :=
| Printed (msg : string)
| ErrorReported (k : ErrorCallback) (msg : string)
| ChunkDelivered (k : nat) (audio : Chunk)
| ThreadStarted (t : ThreadId) (target : Target)
| ThreadJoined (t : ThreadId) (timeout : Q)
| Slept (seconds : Q)
| StreamOpened (device : option Z)
| StreamClosed.

(** The attributes of [AudioCaptureEngine]. [stream] stands for
    [self.stream is not None]; the two locks only provide mutual exclusion
    and have no field; [threads_created] is the number of [Thread] objects
    the process has created so far, which names the next one. *)
Record Engine := mkEngine {
  config : AudioConfig;
  is_capturing : bool;
  capture_thread : option ThreadId;
  stop_event : bool;
  callback : option ChunkCallback;
  stream : bool;
  current_device_id : option Z;
  current_audio_level : Q;
  silence_start_time : option Q;
  is_paused : bool;
  reconnect_attempts : Z;
  max_reconnect_attempts : Z;
  reconnect_delay : Q;
  last_error : option string;
  error_callback : option ErrorCallback;
  secondary_device_id : option Z;
  secondary_thread : option ThreadId;
  secondary_stop_event : bool;
  primary_buffer : list Chunk;
  secondary_buffer : list Chunk;
  threads_created : nat
}.

Definition set_is_capturing (v : bool) (s : Engine) : Engine :=
  mkEngine (config s) v (capture_thread s) (stop_event s) (callback s)
    (stream s) (current_device_id s) (current_audio_level s)
    (silence_start_time s) (is_paused s) (reconnect_attempts s)
    (max_reconnect_attempts s) (reconnect_delay s) (last_error s)
    (error_callback s) (secondary_device_id s) (secondary_thread s)
    (secondary_stop_event s) (primary_buffer s) (secondary_buffer s)
    (threads_created s).

Definition set_capture_thread (v : option ThreadId) (s : Engine) : Engine :=
  mkEngine (config s) (is_capturing s) v (stop_event s) (callback s) (stream
    s) (current_device_id s) (current_audio_level s) (silence_start_time s)
    (is_paused s) (reconnect_attempts s) (max_reconnect_attempts s)
    (reconnect_delay s) (last_error s) (error_callback s)
    (secondary_device_id s) (secondary_thread s) (secondary_stop_event s)
    (primary_buffer s) (secondary_buffer s) (threads_created s).

Definition set_stop_event (v : bool) (s : Engine) : Engine :=
  mkEngine (config s) (is_capturing s) (capture_thread s) v (callback s)
    (stream s) (current_device_id s) (current_audio_level s)
    (silence_start_time s) (is_paused s) (reconnect_attempts s)
    (max_reconnect_attempts s) (reconnect_delay s) (last_error s)
    (error_callback s) (secondary_device_id s) (secondary_thread s)
    (secondary_stop_event s) (primary_buffer s) (secondary_buffer s)
    (threads_created s).

Definition set_callback (v : option ChunkCallback) (s : Engine) : Engine :=
  mkEngine (config s) (is_capturing s) (capture_thread s) (stop_event s) v
    (stream s) (current_device_id s) (current_audio_level s)
    (silence_start_time s) (is_paused s) (reconnect_attempts s)
    (max_reconnect_attempts s) (reconnect_delay s) (last_error s)
    (error_callback s) (secondary_device_id s) (secondary_thread s)
    (secondary_stop_event s) (primary_buffer s) (secondary_buffer s)
    (threads_created s).

Definition set_stream (v : bool) (s : Engine) : Engine :=
  mkEngine (config s) (is_capturing s) (capture_thread s) (stop_event s)
    (callback s) v (current_device_id s) (current_audio_level s)
    (silence_start_time s) (is_paused s) (reconnect_attempts s)
    (max_reconnect_attempts s) (reconnect_delay s) (last_error s)
    (error_callback s) (secondary_device_id s) (secondary_thread s)
    (secondary_stop_event s) (primary_buffer s) (secondary_buffer s)
    (threads_created s).

Definition set_current_device_id (v : option Z) (s : Engine) : Engine :=
  mkEngine (config s) (is_capturing s) (capture_thread s) (stop_event s)
    (callback s) (stream s) v (current_audio_level s) (silence_start_time s)
    (is_paused s) (reconnect_attempts s) (max_reconnect_attempts s)
    (reconnect_delay s) (last_error s) (error_callback s)
    (secondary_device_id s) (secondary_thread s) (secondary_stop_event s)
    (primary_buffer s) (secondary_buffer s) (threads_created s).

Definition set_current_audio_level (v : Q) (s : Engine) : Engine :=
  mkEngine (config s) (is_capturing s) (capture_thread s) (stop_event s)
    (callback s) (stream s) (current_device_id s) v (silence_start_time s)
    (is_paused s) (reconnect_attempts s) (max_reconnect_attempts s)
    (reconnect_delay s) (last_error s) (error_callback s)
    (secondary_device_id s) (secondary_thread s) (secondary_stop_event s)
    (primary_buffer s) (secondary_buffer s) (threads_created s).

Definition set_silence_start_time (v : option Q) (s : Engine) : Engine :=
  mkEngine (config s) (is_capturing s) (capture_thread s) (stop_event s)
    (callback s) (stream s) (current_device_id s) (current_audio_level s) v
    (is_paused s) (reconnect_attempts s) (max_reconnect_attempts s)
    (reconnect_delay s) (last_error s) (error_callback s)
    (secondary_device_id s) (secondary_thread s) (secondary_stop_event s)
    (primary_buffer s) (secondary_buffer s) (threads_created s).

Definition set_is_paused (v : bool) (s : Engine) : Engine :=
  mkEngine (config s) (is_capturing s) (capture_thread s) (stop_event s)
    (callback s) (stream s) (current_device_id s) (current_audio_level s)
    (silence_start_time s) v (reconnect_attempts s) (max_reconnect_attempts
    s) (reconnect_delay s) (last_error s) (error_callback s)
    (secondary_device_id s) (secondary_thread s) (secondary_stop_event s)
    (primary_buffer s) (secondary_buffer s) (threads_created s).

Definition set_reconnect_attempts (v : Z) (s : Engine) : Engine :=
  mkEngine (config s) (is_capturing s) (capture_thread s) (stop_event s)
    (callback s) (stream s) (current_device_id s) (current_audio_level s)
    (silence_start_time s) (is_paused s) v (max_reconnect_attempts s)
    (reconnect_delay s) (last_error s) (error_callback s)
    (secondary_device_id s) (secondary_thread s) (secondary_stop_event s)
    (primary_buffer s) (secondary_buffer s) (threads_created s).

Definition set_last_error (v : option string) (s : Engine) : Engine :=
  mkEngine (config s) (is_capturing s) (capture_thread s) (stop_event s)
    (callback s) (stream s) (current_device_id s) (current_audio_level s)
    (silence_start_time s) (is_paused s) (reconnect_attempts s)
    (max_reconnect_attempts s) (reconnect_delay s) v (error_callback s)
    (secondary_device_id s) (secondary_thread s) (secondary_stop_event s)
    (primary_buffer s) (secondary_buffer s) (threads_created s).

Definition set_error_callback (v : option ErrorCallback) (s : Engine) : Engine :=
  mkEngine (config s) (is_capturing s) (capture_thread s) (stop_event s)
    (callback s) (stream s) (current_device_id s) (current_audio_level s)
    (silence_start_time s) (is_paused s) (reconnect_attempts s)
    (max_reconnect_attempts s) (reconnect_delay s) (last_error s) v
    (secondary_device_id s) (secondary_thread s) (secondary_stop_event s)
    (primary_buffer s) (secondary_buffer s) (threads_created s).

Definition set_secondary_device_id (v : option Z) (s : Engine) : Engine :=
  mkEngine (config s) (is_capturing s) (capture_thread s) (stop_event s)
    (callback s) (stream s) (current_device_id s) (current_audio_level s)
    (silence_start_time s) (is_paused s) (reconnect_attempts s)
    (max_reconnect_attempts s) (reconnect_delay s) (last_error s)
    (error_callback s) v (secondary_thread s) (secondary_stop_event s)
    (primary_buffer s) (secondary_buffer s) (threads_created s).

Definition set_secondary_thread (v : option ThreadId) (s : Engine) : Engine :=
  mkEngine (config s) (is_capturing s) (capture_thread s) (stop_event s)
    (callback s) (stream s) (current_device_id s) (current_audio_level s)
    (silence_start_time s) (is_paused s) (reconnect_attempts s)
    (max_reconnect_attempts s) (reconnect_delay s) (last_error s)
    (error_callback s) (secondary_device_id s) v (secondary_stop_event s)
    (primary_buffer s) (secondary_buffer s) (threads_created s).

Definition set_secondary_stop_event (v : bool) (s : Engine) : Engine :=
  mkEngine (config s) (is_capturing s) (capture_thread s) (stop_event s)
    (callback s) (stream s) (current_device_id s) (current_audio_level s)
    (silence_start_time s) (is_paused s) (reconnect_attempts s)
    (max_reconnect_attempts s) (reconnect_delay s) (last_error s)
    (error_callback s) (secondary_device_id s) (secondary_thread s) v
    (primary_buffer s) (secondary_buffer s) (threads_created s).

Definition set_primary_buffer (v : list Chunk) (s : Engine) : Engine :=
  mkEngine (config s) (is_capturing s) (capture_thread s) (stop_event s)
    (callback s) (stream s) (current_device_id s) (current_audio_level s)
    (silence_start_time s) (is_paused s) (reconnect_attempts s)
    (max_reconnect_attempts s) (reconnect_delay s) (last_error s)
    (error_callback s) (secondary_device_id s) (secondary_thread s)
    (secondary_stop_event s) v (secondary_buffer s) (threads_created s).

Definition set_secondary_buffer (v : list Chunk) (s : Engine) : Engine :=
  mkEngine (config s) (is_capturing s) (capture_thread s) (stop_event s)
    (callback s) (stream s) (current_device_id s) (current_audio_level s)
    (silence_start_time s) (is_paused s) (reconnect_attempts s)
    (max_reconnect_attempts s) (reconnect_delay s) (last_error s)
    (error_callback s) (secondary_device_id s) (secondary_thread s)
    (secondary_stop_event s) (primary_buffer s) v (threads_created s).

Definition set_threads_created (v : nat) (s : Engine) : Engine :=
  mkEngine (config s) (is_capturing s) (capture_thread s) (stop_event s)
    (callback s) (stream s) (current_device_id s) (current_audio_level s)
    (silence_start_time s) (is_paused s) (reconnect_attempts s)
    (max_reconnect_attempts s) (reconnect_delay s) (last_error s)
    (error_callback s) (secondary_device_id s) (secondary_thread s)
    (secondary_stop_event s) (primary_buffer s) (secondary_buffer s) v.

(** The object [__init__] builds; the main thread is thread [0]. *)
Definition init (cfg : AudioConfig) : Engine :=
  {| config := cfg; is_capturing := false; capture_thread := None;
     stop_event := false; callback := None; stream := false;
     current_device_id := None; current_audio_level := 0;
     silence_start_time := None; is_paused := false;
     reconnect_attempts := 0; max_reconnect_attempts := 5;
     reconnect_delay := 5; last_error := None; error_callback := None;
     secondary_device_id := None; secondary_thread := None;
     secondary_stop_event := false; primary_buffer := [];
     secondary_buffer := []; threads_created := 1 |}.

(** *** Methods as state transformers with effects and exceptions *)

Definition M (A : Type) : Type := Engine -> Outcome A * Engine * list Effect.

Definition ret {A} (a : A) : M A := fun s => (Returned a, s, []).

Definition bind {A B} (m : M A) (f : A -> M B) : M B :=
  fun s =>
    match m s with
    | (Returned a, s1, t1) =>
        let '(o, s2, t2) := f a s1 in (o, s2, t1 ++ t2)
    | (Raised e, s1, t1) => (Raised e, s1, t1)
    | (Pending, s1, t1) => (Pending, s1, t1)
    end.

Notation "x <- m ;; k" := (bind m (fun x => k))
  (at level 61, m at next level, right associativity).
Notation "m ;; k" := (bind m (fun _ => k))
  (at level 61, right associativity).

Definition get : M Engine := fun s => (Returned s, s, []).
Definition modify (f : Engine -> Engine) : M unit :=
  fun s => (Returned tt, f s, []).
Definition emit (ev : Effect) : M unit := fun s => (Returned tt, s, [ev]).
Definition raise {A} (e : Exn) : M A := fun s => (Raised e, s, []).
Definition pending {A} : M A := fun s => (Pending, s, []).
Definition skip : M unit := ret tt.

(** [try: m  except Exception as e: h e] *)
Definition try_except {A} (m : M A) (h : Exn -> M A) : M A :=
  fun s =>
    match m s with
    | (Raised e, s1, t1) =>
        let '(o, s2, t2) := h e s1 in (o, s2, t1 ++ t2)
    | r => r
    end.

(** [try: m  finally: c]; a thread that is still inside [m] has not
    reached [c]. *)
Definition try_finally {A} (m : M A) (c : M unit) : M A :=
  fun s =>
    match m s with
    | (Pending, s1, t1) => (Pending, s1, t1)
    | (o, s1, t1) =>
        match c s1 with
        | (Returned _, s2, t2) => (o, s2, t1 ++ t2)
        | (Raised e, s2, t2) => (Raised e, s2, t1 ++ t2)
        | (Pending, s2, t2) => (Pending, s2, t1 ++ t2)
        end
    end.

Definition print (msg : string) : M unit := emit (Printed msg).

(** [str(n)] for an [int], and for an [Optional[int]]. *)
Definition str (n : Z) : string := NilZero.string_of_int (Z.to_int n).

Definition str_opt (n : option Z) : string :=
  match n with
  | Some z => str z
  | None => "None"
  end.

(** [if self.error_callback: self.error_callback(msg)] *)
Definition report (msg : string) : M unit :=
  s <- get ;;
  match error_callback s with
  | Some k => emit (ErrorReported k msg)
  | None => skip
  end.

(** [Thread(target=...)]: a new thread object. *)
Definition new_thread : M ThreadId :=
  s <- get ;;
  modify (set_threads_created (S (threads_created s))) ;;
  ret (threads_created s).

(** [t.join(timeout=...)] called on thread [me]. Python refuses to join
    the running thread itself: [Thread.join] raises
    [RuntimeError("cannot join current thread")]. *)
Definition join (me t : ThreadId) (timeout : Q) : M unit :=
  if Nat.eqb t me then raise (mkExn RuntimeError "cannot join current thread")
  else emit (ThreadJoined t timeout).

(** *** Starting and stopping a session *)

(** [start_capture(device_id, callback, error_callback=None)] *)
Definition start_capture (device : Z) (cb : ChunkCallback)
    (error_cb : option ErrorCallback) : M bool :=
  s <- get ;;
  if is_capturing s then
    print "Warning: Already capturing audio" ;;
    ret false
  else
    modify (set_callback (Some cb)) ;;
    modify (set_error_callback error_cb) ;;
    modify (set_current_device_id (Some device)) ;;
    modify (set_stop_event false) ;;
    modify (set_reconnect_attempts 0) ;;
    t <- new_thread ;;
    modify (set_capture_thread (Some t)) ;;
    modify (set_is_capturing true) ;;
    emit (ThreadStarted t CaptureLoop) ;;
    ret true.

(** [if thread: thread.join(timeout=2.0)] *)
Definition join_if_any (me : ThreadId) (thread : option ThreadId) : M unit :=
  match thread with
  | Some t => join me t 2
  | None => skip
  end.

(** [stop_capture()], called on thread [me]. *)
Definition stop_capture (me : ThreadId) : M unit :=
  s <- get ;;
  if negb (is_capturing s) then skip
  else
    print "Stopping audio capture" ;;
    modify (set_stop_event true) ;;
    match secondary_device_id s with
    | Some _ =>
        modify (set_secondary_stop_event true) ;;
        join_if_any me (secondary_thread s) ;;
        modify (set_secondary_device_id None) ;;
        modify (set_secondary_thread None)
    | None => skip
    end ;;
    join_if_any me (capture_thread s) ;;
    modify (set_is_capturing false) ;;
    modify (set_callback None) ;;
    modify (set_current_device_id None) ;;
    modify (set_is_paused false) ;;
    modify (set_silence_start_time None) ;;
    modify (set_primary_buffer []) ;;
    modify (set_secondary_buffer []).

(** [set_device(device_id)], called on thread [me]. *)
Definition set_device (me : ThreadId) (device : Z) : M unit :=
  s <- get ;;
  if negb (is_capturing s) then
    modify (set_current_device_id (Some device))
  else
    let saved_callback := callback s in
    stop_capture me ;;
    match saved_callback with
    | Some cb => _ <- start_capture device cb None ;; skip
    | None => skip
    end.

(** *** Mixing two sources *)

(** [(primary_chunk + secondary_chunk) / 2.0], sample by sample. *)
Definition average (primary_chunk secondary_chunk : Chunk) : Chunk :=
  map (fun xy => ((fst xy + snd xy) / 2)%Q)
      (combine primary_chunk secondary_chunk).

(** [_mix_and_callback(callback)]; [call] is the call of [callback]. *)
Definition _mix_and_callback (call : Chunk -> M unit) : M unit :=
  s <- get ;;
  match primary_buffer s, secondary_buffer s with
  | primary_chunk :: primary_rest, secondary_chunk :: secondary_rest =>
      modify (set_primary_buffer primary_rest) ;;
      modify (set_secondary_buffer secondary_rest) ;;
      let min_len := Nat.min (length primary_chunk) (length secondary_chunk) in
      call (average (firstn min_len primary_chunk)
                    (firstn min_len secondary_chunk))
  | _, _ => skip
  end.

(** [self.primary_buffer.append(audio_data)] *)
Definition primary_append (audio : Chunk) : M unit :=
  s <- get ;; modify (set_primary_buffer (primary_buffer s ++ [audio])).

(** [self.secondary_buffer.append(audio_array)], the one write of the
    secondary capture thread to the engine. *)
Definition secondary_append (audio : Chunk) : M unit :=
  s <- get ;; modify (set_secondary_buffer (secondary_buffer s ++ [audio])).

(** Calling what [self.callback] holds. A client callable is an effect;
    [primary_callback(audio_data)] appends and mixes. *)
Fixpoint invoke (cb : ChunkCallback) (audio : Chunk) : M unit :=
  match cb with
  | ClientCallback k => emit (ChunkDelivered k audio)
  | PrimaryCallback mixed_to =>
      primary_append audio ;;
      _mix_and_callback (invoke mixed_to)
  end.

(** [start_multi_source_capture(device_ids, callback)] *)
Definition start_multi_source_capture (device_ids : list Z)
    (cb : ChunkCallback) : M bool :=
  match device_ids with
  | [] =>
      print "Error: No devices specified" ;;
      ret false
  | [device] => start_capture device cb None
  | primary_device :: secondary_device :: _ =>
      s <- get ;;
      if is_capturing s then
        print "Warning: Already capturing audio" ;;
        ret false
      else
        modify (set_primary_buffer []) ;;
        modify (set_secondary_buffer []) ;;
        modify (set_callback (Some (PrimaryCallback cb))) ;;
        modify (set_current_device_id (Some primary_device)) ;;
        modify (set_stop_event false) ;;
        t <- new_thread ;;
        modify (set_capture_thread (Some t)) ;;
        modify (set_is_capturing true) ;;
        emit (ThreadStarted t CaptureLoop) ;;
        modify (set_secondary_device_id (Some secondary_device)) ;;
        modify (set_secondary_stop_event false) ;;
        t2 <- new_thread ;;
        modify (set_secondary_thread (Some t2)) ;;
        emit (ThreadStarted t2 (SecondaryCaptureLoop secondary_device)) ;;
        ret true
  end.

(** *** Device availability *)

(** [check_device_available(device_id)], on the list that [list_devices()]
    returns at that moment. *)
Definition check_device_available (devices : list AudioDevice)
    (device : option Z) : bool :=
  match device with
  | Some d => existsb (fun dev => id dev =? d) devices
  | None => false
  end.

(** [detect_device_changes()] *)
Definition detect_device_changes (devices : list AudioDevice) (s : Engine)
  : bool :=
  match current_device_id s with
  | None => false
  | Some d => negb (check_device_available devices (Some d))
  end.

(** [f"Audio device {self.current_device_id} disconnected"] *)
Definition disconnected_msg (device : option Z) : string :=
  String.append "Audio device "
    (String.append (str_opt device) " disconnected").

(** [handle_device_disconnection()], called on thread [me]. *)
Definition handle_device_disconnection (me : ThreadId) : M unit :=
  s <- get ;;
  if negb (is_capturing s) then skip
  else
    let error_msg := disconnected_msg (current_device_id s) in
    print error_msg ;;
    modify (set_last_error (Some error_msg)) ;;
    report error_msg ;;
    stop_capture me ;;
    report "Please select a different audio device in settings".

(** *** Level and voice-activity gating *)

Definition Qlt_bool (x y : Q) : bool := negb (Qle_bool y x).

(** [get_audio_level()] *)
Definition get_audio_level (s : Engine) : Q := current_audio_level s.

(** [_update_audio_level(audio_array)]; [rms] is the value of
    [np.sqrt(np.mean(audio_array ** 2))] for this array. *)
Definition _update_audio_level (audio : Chunk) (rms : Q) : M unit :=
  if (0 <? length audio)%nat then
    modify (set_current_audio_level (Qmin rms 1))
  else skip.

(** [_should_pause_on_silence()]; [now] is what [time.time()] returns. *)
Definition _should_pause_on_silence (now : Q) : M bool :=
  s <- get ;;
  if Qlt_bool (current_audio_level s) (vad_threshold (config s)) then
    match silence_start_time s with
    | None =>
        modify (set_silence_start_time (Some now)) ;;
        ret false
    | Some since =>
        let silence_duration := (now - since)%Q in
        if Qlt_bool 3 silence_duration then ret true else ret false
    end
  else
    modify (set_silence_start_time None) ;;
    ret false.

(** *** The capture thread and its environment *)

(** [sys.platform == 'win32'] or not. *)
Inductive Platform := Win32 | Unix.

(** The machine the engine runs on. [backend_available] is
    [self.pyaudio_instance] being set on Windows and
    [SOUNDDEVICE_AVAILABLE] elsewhere. *)
Record Host := mkHost {
  platform : Platform;
  backend_available : bool
}.

(** What a loop of the capture thread meets at one of its turns: something
    of its own, or [StopRequested] when another thread has set
    [self.stop_event] before the loop tests it. *)
Inductive Event (A : Type) :=
| Step (a : A)
| StopRequested.
Arguments Step {A} a.
Arguments StopRequested {A}.

(** One [self.stream.read(...)] on Windows: the mono array of lines
    330-334 with its RMS and the clock at the silence test, or the
    exception of that turn. *)
Inductive Read :=
| Audio (audio : Chunk) (rms now : Q)
| ReadRaises (e : Exn).

(** One turn of the polling loop elsewhere: what [stream_error[0]] holds
    and, when [audio_buffer] is not empty, its concatenation with its RMS
    and the clock at the silence test. *)
Record Poll := mkPoll {
  status : option string;
  buffered : option (Chunk * Q * Q)
}.

(** One run of the platform capture function: the devices that
    [list_devices()] enumerates at its availability check, the exception
    of opening the stream if it fails ([get_device_info_by_index] or
    [open] on Windows, [sd.InputStream] elsewhere), the exception of
    [self.stream.start()] if that fails (not on Windows), and what the
    opened stream then delivers. *)
Record Attempt := mkAttempt {
  devices : list AudioDevice;
  open_error : option Exn;
  start_error : option Exn;
  reads : list (Event Read);
  polls : list (Event Poll)
}.

Infix "+++" := String.append (at level 60, right associativity).

(** Lines 336-352 of [_capture_loop_windows], repeated as lines 460-476 of
    [_capture_loop_unix]: level, silence gate, callback. *)
Definition gate_and_forward (audio : Chunk) (rms now : Q) : M unit :=
  _update_audio_level audio rms ;;
  pause <- _should_pause_on_silence now ;;
  s <- get ;;
  if pause then
    if negb (is_paused s) then
      print "Pausing on silence" ;;
      modify (set_is_paused true)
    else skip
  else
    (if is_paused s then
       print "Resuming from silence" ;;
       modify (set_is_paused false)
     else skip) ;;
    s' <- get ;;
    match callback s' with
    | Some cb => if negb (is_paused s') then invoke cb audio else skip
    | None => skip
    end.

(** The body of the Windows read loop; returns [consecutive_errors]. *)
Definition windows_turn (me : ThreadId) (r : Read) (consecutive_errors : Z)
  : M Z :=
  try_except
    match r with
    | ReadRaises e => raise e
    | Audio audio rms now => gate_and_forward audio rms now ;; ret 0
    end
    (fun e =>
       let consecutive_errors := consecutive_errors + 1 in
       match exn_class e with
       | OSError =>
           print ("Audio stream error: " +++ exn_msg e) ;;
           if 10 <=? consecutive_errors then
             handle_device_disconnection me ;;
             raise (mkExn RuntimeError "Device disconnected")
           else
             emit (Slept (1 # 10)) ;;
             ret consecutive_errors
       | _ =>
           print ("Error reading audio: " +++ exn_msg e) ;;
           if 10 <=? consecutive_errors then raise e
           else
             emit (Slept (1 # 10)) ;;
             ret consecutive_errors
       end).

(** [while not self.stop_event.is_set(): ...] of [_capture_loop_windows] *)
Fixpoint windows_read_loop (me : ThreadId) (reads : list (Event Read))
    (consecutive_errors : Z) : M unit :=
  s <- get ;;
  if stop_event s then skip
  else
    match reads with
    | [] => pending
    | StopRequested :: rest =>
        modify (set_stop_event true) ;;
        windows_read_loop me rest consecutive_errors
    | Step r :: rest =>
        c <- windows_turn me r consecutive_errors ;;
        windows_read_loop me rest c
    end.

(** The [finally] clause of both platform functions: when [self.stream]
    is set, the stream is stopped and closed with every exception of that
    ignored (lines 378-382 and 480-484), and [self.stream] is unset.
    [StreamClosed] records that release, whether or not the stop and the
    close of the backend went through. *)
Definition release_stream : M unit :=
  s <- get ;;
  if stream s then
    emit StreamClosed ;;
    modify (set_stream false)
  else skip.

(** The availability check that opens both platform functions. *)
Definition require_device (me : ThreadId) (a : Attempt) : M unit :=
  s <- get ;;
  if negb (check_device_available (devices a) (current_device_id s)) then
    handle_device_disconnection me ;;
    s' <- get ;;
    raise (mkExn RuntimeError
             ("Device " +++ str_opt (current_device_id s') +++ " not available"))
  else skip.

(** [_capture_loop_windows()] *)
Definition _capture_loop_windows (me : ThreadId) (host : Host) (a : Attempt)
  : M unit :=
  if negb (backend_available host) then
    let error_msg := "Error: PyAudio not available" in
    print error_msg ;;
    report error_msg ;;
    raise (mkExn RuntimeError error_msg)
  else
    try_finally
      (require_device me a ;;
       match open_error a with
       | Some e => raise e
       | None =>
           s <- get ;;
           modify (set_stream true) ;;
           emit (StreamOpened (current_device_id s)) ;;
           print ("Started capturing from device "
                  +++ str_opt (current_device_id s)) ;;
           modify (set_reconnect_attempts 0) ;;
           windows_read_loop me (reads a) 0
       end)
      release_stream.

(** The body of the polling loop elsewhere; returns [consecutive_errors]. *)
Definition unix_turn (me : ThreadId) (p : Poll) (consecutive_errors : Z)
  : M Z :=
  emit (Slept (1 # 10)) ;;
  c <- match status p with
       | Some _ =>
           let consecutive_errors := consecutive_errors + 1 in
           if 10 <=? consecutive_errors then
             handle_device_disconnection me ;;
             raise (mkExn RuntimeError "Stream error detected")
           else ret consecutive_errors
       | None => ret 0
       end ;;
  match buffered p with
  | Some (audio, rms, now) => gate_and_forward audio rms now
  | None => skip
  end ;;
  ret c.

(** [while not self.stop_event.is_set(): ...] of [_capture_loop_unix] *)
Fixpoint unix_poll_loop (me : ThreadId) (polls : list (Event Poll))
    (consecutive_errors : Z) : M unit :=
  s <- get ;;
  if stop_event s then skip
  else
    match polls with
    | [] => pending
    | StopRequested :: rest =>
        modify (set_stop_event true) ;;
        unix_poll_loop me rest consecutive_errors
    | Step p :: rest =>
        c <- unix_turn me p consecutive_errors ;;
        unix_poll_loop me rest c
    end.

(** [_capture_loop_unix()] *)
Definition _capture_loop_unix (me : ThreadId) (host : Host) (a : Attempt)
  : M unit :=
  if negb (backend_available host) then
    let error_msg := "Error: sounddevice not available" in
    print error_msg ;;
    report error_msg ;;
    raise (mkExn RuntimeError error_msg)
  else
    try_finally
      (require_device me a ;;
       match open_error a with
       | Some e => raise e
       | None =>
           s <- get ;;
           modify (set_stream true) ;;
           emit (StreamOpened (current_device_id s)) ;;
           match start_error a with
           | Some e => raise e
           | None =>
               print ("Started capturing from device "
                      +++ str_opt (current_device_id s)) ;;
               modify (set_reconnect_attempts 0) ;;
               unix_poll_loop me (polls a) 0
           end
       end)
      release_stream.

Definition failure_msg : string :=
  "Maximum reconnection attempts reached. Please check your audio device.".

(** [f"Error in capture loop: {e}"] *)
Definition capture_error_msg (e : Exn) : string :=
  "Error in capture loop: " +++ exn_msg e.

(** [f"Attempting to reconnect ({n}/{max})..."] *)
Definition reconnect_msg (n max : Z) : string :=
  "Attempting to reconnect (" +++ str n +++ "/" +++ str max +++ ")...".

(** The [except Exception as e] clause of [_capture_loop]; returns whether
    the loop goes on ([continue]) or ends ([break]). *)
Definition on_capture_error (e : Exn) : M bool :=
  let error_msg := capture_error_msg e in
  print error_msg ;;
  modify (set_last_error (Some error_msg)) ;;
  report error_msg ;;
  s <- get ;;
  if reconnect_attempts s <? max_reconnect_attempts s then
    modify (set_reconnect_attempts (reconnect_attempts s + 1)) ;;
    print (reconnect_msg (reconnect_attempts s + 1) (max_reconnect_attempts s)) ;;
    report (reconnect_msg (reconnect_attempts s + 1) (max_reconnect_attempts s)) ;;
    emit (Slept (reconnect_delay s)) ;;
    ret true
  else
    print failure_msg ;;
    report failure_msg ;;
    modify (set_is_capturing false) ;;
    ret false.

(** The [try] statement of [_capture_loop]: one run of the platform
    function, [break] ([false]) when it returns. *)
Definition supervised (me : ThreadId) (host : Host) (a : Attempt) : M bool :=
  try_except
    (match platform host with
     | Win32 => _capture_loop_windows me host a
     | Unix => _capture_loop_unix me host a
     end ;;
     ret false)
    on_capture_error.

(** [_capture_loop()], the body of the capture thread [me]. *)
Fixpoint _capture_loop (me : ThreadId) (host : Host)
    (script : list (Event Attempt)) : M unit :=
  s <- get ;;
  if stop_event s then skip
  else
    match script with
    | [] => pending
    | StopRequested :: rest =>
        modify (set_stop_event true) ;;
        _capture_loop me host rest
    | Step a :: rest =>
        again <- supervised me host a ;;
        if again then _capture_loop me host rest else skip
    end.

(** *** Reading the result of a call *)

Definition outcome {A} (r : Outcome A * Engine * list Effect) : Outcome A :=
  fst (fst r).
Definition after {A} (r : Outcome A * Engine * list Effect) : Engine :=
  snd (fst r).
Definition effects {A} (r : Outcome A * Engine * list Effect) : list Effect :=
  snd r.

(** The messages passed to the error callback. *)
Definition reports (tr : list Effect) : list string :=
  flat_map (fun ev => match ev with
                      | ErrorReported _ msg => [msg]
                      | _ => []
                      end) tr.

(** The durations of the [time.sleep] calls. *)
Definition sleeps (tr : list Effect) : list Q :=
  flat_map (fun ev => match ev with
                      | Slept seconds => [seconds]
                      | _ => []
                      end) tr.

(** The threads started. *)
Definition threads_started (tr : list Effect) : list (ThreadId * Target) :=
  flat_map (fun ev => match ev with
                      | ThreadStarted t target => [(t, target)]
                      | _ => []
                      end) tr.

(** The streams opened. *)
Definition streams_opened (tr : list Effect) : list (option Z) :=
  flat_map (fun ev => match ev with
                      | StreamOpened device => [device]
                      | _ => []
                      end) tr.

(** *** Vocabulary of the statements *)

(** A message printed and, when an error callback is registered, passed
    to it. *)
Definition said (k : option ErrorCallback) (msg : string) : list Effect :=
  Printed msg :: match k with
                 | Some k => [ErrorReported k msg]
                 | None => []
                 end.

(** The attempt finds the configured device enumerated and fails to open
    its stream with exception [e]. *)
Definition fails_to_open (s : Engine) (a : Attempt) (e : Exn) : Prop :=
  check_device_available (devices a) (current_device_id s) = true /\
  open_error a = Some e.

(** The attempt finds the configured device enumerated and opens and
    starts its stream. *)
Definition opens (s : Engine) (a : Attempt) : Prop :=
  check_device_available (devices a) (current_device_id s) = true /\
  open_error a = None /\ start_error a = None.

(** The exception of [Thread.join] on the running thread. *)
Definition cannot_join : Exn :=
  mkExn RuntimeError "cannot join current thread".

(** The engine after the error handler chose to reconnect. *)
Definition retrying (e : Exn) (s : Engine) : Engine :=
  set_reconnect_attempts (reconnect_attempts s + 1)
    (set_last_error (Some (capture_error_msg e)) s).

(** What the handling of a disconnection leaves untouched. *)
Definition supervision_kept (s s1 : Engine) : Prop :=
  error_callback s1 = error_callback s /\
  reconnect_attempts s1 = reconnect_attempts s /\
  max_reconnect_attempts s1 = max_reconnect_attempts s /\
  reconnect_delay s1 = reconnect_delay s /\
  stream s1 = stream s.

(** [f"Device {self.current_device_id} not available"] *)
Definition not_available (device : option Z) : Exn :=
  mkExn RuntimeError ("Device " +++ str_opt device +++ " not available").

Definition select_other_msg : string :=
  "Please select a different audio device in settings".

(** A computation that, started without an error callback, ends without
    one and reports nothing. *)
Definition silent {A} (m : M A) : Prop :=
  forall s, error_callback s = None ->
    error_callback (after (m s)) = None /\ reports (effects (m s)) = [].

(** *** Example sessions *)

Module Examples.

(** A new engine with the default configuration. *)
Definition idle : Engine := init default_config.

(** The engine after [start_capture(3, callback, error_callback)]: its
    capture thread is thread [1]. *)
Definition capturing : Engine :=
  after (start_capture 3 (ClientCallback 0) (Some 7%nat) idle).

(** A silent session whose silence began at time [0]. *)
Definition silent_for_four_seconds : Engine :=
  set_silence_start_time (Some 0%Q) idle.

(** One chunk waiting in each queue of the mixer. *)
Definition two_waiting : Engine :=
  set_secondary_buffer [[3 # 10; 3 # 10]%Q]
    (set_primary_buffer [[1 # 2; 1 # 2]%Q] idle).

Definition windows : Host := mkHost Win32 true.

Definition speakers : AudioDevice :=
  mkDevice 3 "Speakers (loopback)" 2 48000 true true.


(** The device is listed but its stream cannot be opened. *)
Definition open_fails : Attempt :=
  mkAttempt [speakers] (Some (mkExn OSError "Unanticipated host error"))
    None [] [].

(** The device is listed and its stream opens; nothing is read yet. *)
Definition opens_fine : Attempt := mkAttempt [speakers] None None [] [].

End Examples.


(** *** Device enumeration *)

(** The enumeration is followed for the list it returns; the warnings it
    prints about a device or a backend that cannot be queried are left
    out. *)

(** [int(x)] for a float: the integer part. *)
Definition int_of (x : Q) : Z := Z.quot (Qnum x) (Zpos (Qden x)).

(** [f"Device {i}"] *)
Definition device_label (i : Z) : string := "Device " +++ str i.

(** [sub in s] for strings. *)
Definition contains (sub s : string) : bool :=
  match String.index 0 sub s with
  | Some _ => true
  | None => false
  end.

(** The shape of both enumeration loops: the devices that [f] makes of
    the entries, numbered from [i]. *)
Fixpoint collect {X} (f : Z -> X -> option AudioDevice) (i : Z)
    (entries : list X) : list AudioDevice :=
  match entries with
  | [] => []
  | x :: rest =>
      match f i x with
      | Some d => d :: collect f (i + 1) rest
      | None => collect f (i + 1) rest
      end
  end.

(** One entry of [sd.query_devices()]: a dict that may lack any key. *)
Record UnixInfo := mkUnixInfo {
  u_name : option string;
  max_input_channels : option Z;
  default_samplerate : option Q
}.

(** What sounddevice answers: whether the module was imported, the device
    list ([None] when the query raises), and the index that
    [default_input] holds ([None] when it equals no index). *)
Record UnixBackend := mkUnixBackend {
  SOUNDDEVICE_AVAILABLE : bool;
  query_devices : option (list UnixInfo);
  default_input : option Z
}.

(** The value of a [dict.get(key, default)]. *)
Definition get_or {A} (v : option A) (default : A) : A :=
  match v with
  | Some a => a
  | None => default
  end.

Section Enumeration.

(** [str.lower] of Python. *)
Variable lower : string -> string.

(** The body of the loop of [_list_devices_unix] for entry [i]; [darwin]
    is [sys.platform == 'darwin']. *)
Definition unix_device (darwin : bool) (default : option Z) (i : Z)
    (info : UnixInfo) : option AudioDevice :=
  if get_or (max_input_channels info) 0 <=? 0 then None
  else
    let device_name := get_or (u_name info) (device_label i) in
    let is_loopback :=
      contains ".monitor" (lower device_name)
      || contains "loopback" (lower device_name) in
    let is_loopback :=
      if darwin then is_loopback || contains "blackhole" (lower device_name)
      else is_loopback in
    let is_default := match default with
                      | Some d => i =? d
                      | None => false
                      end in
    Some (mkDevice i device_name
            (get_or (max_input_channels info) 2)
            (int_of (get_or (default_samplerate info) 44100%Q))
            is_loopback is_default).

(** [for i, device_info in enumerate(device_list)], from index [i]. *)
Fixpoint unix_devices (darwin : bool) (default : option Z) (i : Z)
    (infos : list UnixInfo) : list AudioDevice :=
  match infos with
  | [] => []
  | info :: rest =>
      match unix_device darwin default i info with
      | Some d => d :: unix_devices darwin default (i + 1) rest
      | None => unix_devices darwin default (i + 1) rest
      end
  end.

(** [_list_devices_unix()] *)
Definition _list_devices_unix (darwin : bool) (b : UnixBackend)
  : list AudioDevice :=
  if negb (SOUNDDEVICE_AVAILABLE b) then []
  else
    match query_devices b with
    | None => []
    | Some infos => unix_devices darwin (default_input b) 0 infos
    end.

End Enumeration.

(** What [get_device_info_by_index] returns on Windows. *)
Record WinInfo := mkWinInfo {
  w_name : option string;
  maxInputChannels : option Z;
  defaultSampleRate : option Q;
  isLoopbackDevice : option bool
}.

(** What PyAudio answers: whether [self.pyaudio_instance] is set, the
    ["defaultOutputDevice"] of the WASAPI host API ([None] when the query
    of the host API or of the device count raises, [Some None] when the
    key is missing), and for each index the device info or [None] when
    its query raises. *)
Record WinBackend := mkWinBackend {
  pyaudio_instance : bool;
  wasapi_info : option (option Z);
  device_infos : list (option WinInfo)
}.

(** The body of the loop of [_list_devices_windows] for index [i]. *)
Definition windows_device (default_output_idx : Z) (i : Z)
    (info : option WinInfo) : option AudioDevice :=
  match info with
  | None => None
  | Some device_info =>
      if get_or (maxInputChannels device_info) 0 <=? 0 then None
      else
        let is_loopback := get_or (isLoopbackDevice device_info) false in
        let is_default := (i =? default_output_idx) && is_loopback in
        Some (mkDevice i
                (get_or (w_name device_info) (device_label i))
                (get_or (maxInputChannels device_info) 2)
                (int_of (get_or (defaultSampleRate device_info) 44100%Q))
                is_loopback is_default)
  end.

(** [for i in range(device_count)], from index [i]. *)
Fixpoint windows_devices (default_output_idx : Z) (i : Z)
    (infos : list (option WinInfo)) : list AudioDevice :=
  match infos with
  | [] => []
  | info :: rest =>
      match windows_device default_output_idx i info with
      | Some d => d :: windows_devices default_output_idx (i + 1) rest
      | None => windows_devices default_output_idx (i + 1) rest
      end
  end.

(** [_list_devices_windows()] *)
Definition _list_devices_windows (b : WinBackend) : list AudioDevice :=
  if negb (pyaudio_instance b) then []
  else
    match wasapi_info b with
    | None => []
    | Some default_output =>
        windows_devices (get_or default_output (-1)) 0 (device_infos b)
    end.

(** The audio backend of the machine. *)
Inductive Backend :=
| OnWindows (b : WinBackend)
| Elsewhere (darwin : bool) (b : UnixBackend).

(** [list_devices()] *)
Definition list_devices (lower : string -> string) (backend : Backend)
  : list AudioDevice :=
  match backend with
  | OnWindows b => _list_devices_windows b
  | Elsewhere darwin b => _list_devices_unix lower darwin b
  end.

(** The number of input channels that the backend gives for index [i], if
    it answers for that index. *)
Definition input_channels (backend : Backend) (i : Z) : option Z :=
  if i <? 0 then None
  else
    match backend with
    | OnWindows b =>
        match nth_error (device_infos b) (Z.to_nat i) with
        | Some (Some info) => Some (get_or (maxInputChannels info) 0)
        | _ => None
        end
    | Elsewhere _ b =>
        match nth_error (get_or (query_devices b) []) (Z.to_nat i) with
        | Some info => Some (get_or (max_input_channels info) 0)
        | None => None
        end
    end.

(** The backend is there and answers the queries made before the loop. *)
Definition answers (backend : Backend) : bool :=
  match backend with
  | OnWindows b =>
      pyaudio_instance b && match wasapi_info b with
                            | Some _ => true
                            | None => false
                            end
  | Elsewhere _ b =>
      SOUNDDEVICE_AVAILABLE b && match query_devices b with
                                 | Some _ => true
                                 | None => false
                                 end
  end.


(** *** Invariants of computations *)

(** A computation that keeps [I] true of the engine and performs only
    effects that are [ok]. *)
Definition keeps {A} (I : Engine -> Prop) (ok : Effect -> Prop) (m : M A)
  : Prop :=
  forall s, I s -> I (after (m s)) /\ Forall ok (effects (m s)).

(** The chunks passed to client callbacks. *)
Definition delivered (tr : list Effect) : list (nat * Chunk) :=
  flat_map (fun ev => match ev with
                      | ChunkDelivered k audio => [(k, audio)]
                      | _ => []
                      end) tr.



(** The level is a level: between 0 and 1. *)
Definition level_in_range (s : Engine) : Prop :=
  (0 <= current_audio_level s)%Q /\ (current_audio_level s <= 1)%Q.

(** The reconnection counter is within the budget [m]. *)
Definition within_budget (m : Z) (s : Engine) : Prop :=
  max_reconnect_attempts s = m /\
  0 <= reconnect_attempts s <= max_reconnect_attempts s.

(** Every RMS that the environment measures is non-negative. *)
Definition rms_of_read (r : Event Read) : Q :=
  match r with
  | Step (Audio _ rms _) => rms
  | _ => 0
  end.

Definition rms_of_poll (p : Event Poll) : Q :=
  match p with
  | Step (mkPoll _ (Some (_, rms, _))) => rms
  | _ => 0
  end.

Definition measured (a : Event Attempt) : list Q :=
  match a with
  | Step a => map rms_of_read (reads a) ++ map rms_of_poll (polls a)
  | StopRequested => []
  end.

Definition rms_never_negative (script : list (Event Attempt)) : Prop :=
  Forall (fun rms => 0 <= rms)%Q (flat_map measured script).


(** The end of [gate_and_forward]: lines 350-352. *)
Definition forward (audio : Chunk) : M unit :=
  s' <- get ;;
  match callback s' with
  | Some cb => if negb (is_paused s') then invoke cb audio else skip
  | None => skip
  end.

(** The writes of the capture thread when it stops the session, handles
    a disconnection, follows the silence and handles an error of the
    capture function. *)
Inductive thread_write : (Engine -> Engine) -> Prop :=
| write_stop_event : thread_write (set_stop_event true)
| write_secondary_stop_event : thread_write (set_secondary_stop_event true)
| write_secondary_device_id : thread_write (set_secondary_device_id None)
| write_secondary_thread : thread_write (set_secondary_thread None)
| write_is_capturing : thread_write (set_is_capturing false)
| write_callback : thread_write (set_callback None)
| write_current_device_id : thread_write (set_current_device_id None)
| write_is_paused b : thread_write (set_is_paused b)
| write_silence_start_time v : thread_write (set_silence_start_time v)
| write_primary_buffer : thread_write (set_primary_buffer [])
| write_secondary_buffer : thread_write (set_secondary_buffer [])
| write_last_error v : thread_write (set_last_error v).

(** The effects of the same code. *)
Definition thread_effect (ev : Effect) : Prop :=
  match ev with
  | Printed _ | ErrorReported _ _ | ThreadJoined _ _ | Slept _ => True
  | _ => False
  end.

(** An effect that is not a chunk passed to a client callback. *)
Definition not_a_delivery (ev : Effect) : Prop :=
  match ev with
  | ChunkDelivered _ _ => False
  | _ => True
  end.

(** The session holds no client callback directly and no chunk of a
    secondary source. *)
Definition nothing_to_mix (s : Engine) : Prop :=
  secondary_buffer s = [] /\
  forall cb, callback s = Some cb -> exists mixed_to, cb = PrimaryCallback mixed_to.

(** [f"Audio stream error: {e}"] and [f"Error reading audio: {e}"] *)
Definition read_error_msg (e : Exn) : string :=
  match exn_class e with
  | OSError => "Audio stream error: " +++ exn_msg e
  | _ => "Error reading audio: " +++ exn_msg e
  end.


(** A computation that lets no exception out. *)
Definition calm {A} (m : M A) : Prop :=
  forall s e, outcome (m s) <> Raised e.

(** A computation that always returns. *)
Definition returns {A} (m : M A) : Prop :=
  forall s, exists a s' tr, m s = (Returned a, s', tr).

(** What the read loop does about a read error below the limit. *)
Definition tolerated (e : Exn) : list Effect :=
  [Printed (read_error_msg e); Slept (1 # 10)].

(** A run of consecutive failed reads. *)
Definition failed_reads (errors : list Exn) : list (Event Read) :=
  map (fun e => Step (ReadRaises e)) errors.

(** A read that delivers a chunk with its RMS and the clock. *)
Definition heard (x : Chunk * Q * Q) : Event Read :=
  let '(audio, rms, now) := x in Step (Audio audio rms now).

(** A chunk that is not empty and whose level is at or above the
    threshold [th]. *)
Definition loud (th : Q) (x : Chunk * Q * Q) : Prop :=
  let '(audio, rms, _) := x in
  audio <> [] /\ (th <= Qmin rms 1)%Q.

(** The audio of the chunks read. *)
Definition audio_of (x : Chunk * Q * Q) : Chunk := fst (fst x).

(** *** Two sources interleaved *)

(** What reaches the mixer during a two-source session: a chunk of the
    primary device, which the capture thread passes to [primary_callback],
    or a chunk of the secondary device, which the secondary thread appends
    to [secondary_buffer]. Both happen under [buffer_lock], one after the
    other. *)
Inductive Arrival :=
| FromPrimary (audio : Chunk)
| FromSecondary (audio : Chunk).

Definition arrive (cb : ChunkCallback) (a : Arrival) : M unit :=
  match a with
  | FromPrimary audio => invoke (PrimaryCallback cb) audio
  | FromSecondary audio => secondary_append audio
  end.

Fixpoint arrivals (cb : ChunkCallback) (l : list Arrival) : M unit :=
  match l with
  | [] => skip
  | a :: rest => arrive cb a ;; arrivals cb rest
  end.

(** The chunks of each source, in the order of their arrival. *)
Definition primaries (l : list Arrival) : list Chunk :=
  flat_map (fun a => match a with
                     | FromPrimary audio => [audio]
                     | FromSecondary _ => []
                     end) l.

Definition secondaries (l : list Arrival) : list Chunk :=
  flat_map (fun a => match a with
                     | FromPrimary _ => []
                     | FromSecondary audio => [audio]
                     end) l.

(** Lines 703-708: two chunks cut to the shorter length and averaged. *)
Definition mixed (primary_chunk secondary_chunk : Chunk) : Chunk :=
  let min_len := Nat.min (length primary_chunk) (length secondary_chunk) in
  average (firstn min_len primary_chunk) (firstn min_len secondary_chunk).

(** *** The thread of the secondary source *)

(** The secondary thread meets an [Attempt] as well; it makes no
    availability check and only reads the audio of what it is delivered.
    [self.secondary_stream] is only used by this thread: it is unset when
    the thread starts, and the [finally] clauses close the stream exactly
    when this run has opened it. *)

(** The body of the read loop of [_secondary_capture_windows]. *)
Definition secondary_turn (r : Read) : M unit :=
  try_except
    match r with
    | ReadRaises e => raise e
    | Audio audio _ _ => secondary_append audio
    end
    (fun e =>
       print ("Error reading secondary audio: " +++ exn_msg e) ;;
       emit (Slept (1 # 10))).

(** [while not self.secondary_stop_event.is_set(): ...] on Windows *)
Fixpoint secondary_read_loop (reads : list (Event Read)) : M unit :=
  s <- get ;;
  if secondary_stop_event s then skip
  else
    match reads with
    | [] => pending
    | StopRequested :: rest =>
        modify (set_secondary_stop_event true) ;;
        secondary_read_loop rest
    | Step r :: rest =>
        secondary_turn r ;;
        secondary_read_loop rest
    end.

(** [_secondary_capture_windows(device_id)] *)
Definition _secondary_capture_windows (host : Host) (device : Z)
    (a : Attempt) : M unit :=
  if negb (backend_available host) then skip
  else
    match open_error a with
    | Some e => raise e
    | None =>
        try_finally
          (emit (StreamOpened (Some device)) ;;
           print ("Started secondary capture from device " +++ str device) ;;
           secondary_read_loop (reads a))
          (emit StreamClosed)
    end.

(** One turn of the loop that keeps the thread alive elsewhere, with what
    [audio_callback] did meanwhile: the status it printed and the chunk it
    appended. *)
Definition secondary_poll (p : Poll) : M unit :=
  emit (Slept (1 # 10)) ;;
  match status p with
  | Some st => print ("Secondary audio callback status: " +++ st)
  | None => skip
  end ;;
  match buffered p with
  | Some (audio, _, _) => secondary_append audio
  | None => skip
  end.

(** [while not self.secondary_stop_event.is_set(): time.sleep(0.1)] *)
Fixpoint secondary_poll_loop (polls : list (Event Poll)) : M unit :=
  s <- get ;;
  if secondary_stop_event s then skip
  else
    match polls with
    | [] => pending
    | StopRequested :: rest =>
        modify (set_secondary_stop_event true) ;;
        secondary_poll_loop rest
    | Step p :: rest =>
        secondary_poll p ;;
        secondary_poll_loop rest
    end.

(** [_secondary_capture_unix(device_id)] *)
Definition _secondary_capture_unix (host : Host) (device : Z)
    (a : Attempt) : M unit :=
  if negb (backend_available host) then skip
  else
    match open_error a with
    | Some e => raise e
    | None =>
        try_finally
          (emit (StreamOpened (Some device)) ;;
           match start_error a with
           | Some e => raise e
           | None =>
               print ("Started secondary capture from device "
                      +++ str device) ;;
               secondary_poll_loop (polls a)
           end)
          (emit StreamClosed)
    end.

(** [_secondary_capture_loop(device_id)] *)
Definition _secondary_capture_loop (host : Host) (device : Z) (a : Attempt)
  : M unit :=
  try_except
    match platform host with
    | Win32 => _secondary_capture_windows host device a
    | Unix => _secondary_capture_unix host device a
    end
    (fun e => print ("Error in secondary capture loop: " +++ exn_msg e)).

(** What the secondary thread leaves alone: everything the session and
    its supervisor go by. *)
Definition same_session (s s' : Engine) : Prop :=
  is_capturing s' = is_capturing s /\
  stop_event s' = stop_event s /\
  callback s' = callback s /\
  current_device_id s' = current_device_id s /\
  reconnect_attempts s' = reconnect_attempts s /\
  last_error s' = last_error s /\
  error_callback s' = error_callback s /\
  primary_buffer s' = primary_buffer s /\
  stream s' = stream s.

(** What the secondary thread does to the world: it prints, sleeps, and
    opens and closes its stream. *)
Definition quiet_effect (ev : Effect) : Prop :=
  match ev with
  | Printed _ | Slept _ | StreamOpened _ | StreamClosed => True
  | _ => False
  end.

(** What the secondary thread keeps of the engine [s0] it started on. *)
Definition secondary_frame (s0 s : Engine) : Prop :=
  same_session s0 s /\
  exists chunks, secondary_buffer s = secondary_buffer s0 ++ chunks.

(** *** More example sessions *)

(** The device is listed, its stream opens, one chunk at level 0.5 is
    read at time 10, and then the session is asked to stop. *)
Definition heard_then_stopped : Attempt :=
  mkAttempt [Examples.speakers] None None
    [Step (Audio [1 # 2; 1 # 2]%Q (1 # 2) 10); StopRequested] [].

(** A two-source session on devices 1 and 2, started on a new engine by
    the main thread and then switched to device 5 by the main thread. *)
Definition mixed_then_switched : Engine :=
  after (set_device 0%nat 5
           (after (start_multi_source_capture [1; 2] (ClientCallback 0)
                     Examples.idle))).

(** A read that fails with an error that is not an [OSError]. *)
Definition overflow : Exn := mkExn OtherException "input overflowed".

Definition headset : AudioDevice :=
  mkDevice 5 "Headset" 1 44100 false false.

(** The headset is listed, its stream opens, and two chunks at level 0.5
    are read. *)
Definition two_loud_chunks : Attempt :=
  mkAttempt [headset] None None
    (map heard [([1 # 2; 1 # 2]%Q, 1 # 2, 10); ([1 # 2; -1 # 2]%Q, 1 # 2, 11)]%Q)
    [].
End Audio.
(** * Properties

    ** The window buffer *)

Module TranscriptionFacts.
Import Transcription.

Section Pushes.
Variable whisper : Chunk -> option string -> option (string * string * Q).

Lemma first_push c e :
  audio_buffer e = [] ->
  process_with_overlap whisper c e = (Returned None, set_audio_buffer [c] e, []).
Proof.
  intros H. unfold process_with_overlap. rewrite H. reflexivity.
Qed.

Lemma transcribe_loaded audio e :
  model_loaded e = true ->
  exists t l c,
    transcribe whisper audio None e =
    (Returned (mkResult t l c
                 (inject_Z (chunk_index e * len audio) / inject_Z (sample_rate e))
                 (inject_Z (chunk_index e * len audio) / inject_Z (sample_rate e)
                  + inject_Z (len audio) / inject_Z (sample_rate e))),
     set_chunk_index (chunk_index e + 1) e,
     [mkRecognition audio (language_setting e)]).
Proof.
  intros H. unfold transcribe. rewrite H. cbn [negb].
  destruct (whisper audio (language_setting e)) as [[[t l] c]|];
    repeat eexists.
Qed.

Lemma next_push c prev e :
  model_loaded e = true ->
  audio_buffer e = [prev] ->
  exists t l cf,
    process_with_overlap whisper c e =
    (Returned (Some (mkResult t l cf
        (inject_Z (chunk_index e * len (prev ++ c)) / inject_Z (sample_rate e))
        (inject_Z (chunk_index e * len (prev ++ c)) / inject_Z (sample_rate e)
         + inject_Z (len (prev ++ c)) / inject_Z (sample_rate e)))),
     set_audio_buffer [c] (set_chunk_index (chunk_index e + 1) e),
     [mkRecognition (prev ++ c) (language_setting e)]).
Proof.
  intros Hm Hb. unfold process_with_overlap. rewrite Hb.
  cbn [app audio_buffer set_audio_buffer length Nat.ltb Nat.leb].
  replace (concat (last_n 2 [prev; c])) with (prev ++ c)
    by (cbn; now rewrite app_nil_r).
  destruct (transcribe_loaded (prev ++ c) (set_audio_buffer [prev; c] e))
    as (t & l & cf & E); [exact Hm|].
  rewrite E. exists t, l, cf. reflexivity.
Qed.


Lemma len_app a b : len (a ++ b) = len a + len b.
Proof. unfold len. rewrite length_app. lia. Qed.

(** What three pushes on a reset buffer produce: nothing, then the window
    of the first two chunks stamped [0, 2d], then the window of the last
    two chunks stamped [2d, 4d]; after a reset the next push produces
    nothing again. *)
Lemma three_pushes (e : Engine) (c0 c1 c2 c3 : Chunk) (d : Q) :
  model_loaded e = true ->
  audio_buffer e = [] ->
  chunk_index e = 0 ->
  chunk_seconds e c0 == d ->
  chunk_seconds e c1 == d ->
  chunk_seconds e c2 == d ->
  let p0 := process_with_overlap whisper c0 e in
  let p1 := process_with_overlap whisper c1 (after p0) in
  let p2 := process_with_overlap whisper c2 (after p1) in
  let p3 := process_with_overlap whisper c3 (reset_buffer (after p2)) in
  outcome p0 = Returned None /\
  (exists w1, outcome p1 = Returned (Some w1) /\
     map rec_audio (recognised p1) = [c0 ++ c1] /\
     start_time w1 == 0 /\ end_time w1 == 2 * d) /\
  (exists w2, outcome p2 = Returned (Some w2) /\
     map rec_audio (recognised p2) = [c1 ++ c2] /\
     start_time w2 == 2 * d /\ end_time w2 == 4 * d) /\
  outcome p3 = Returned None.
Proof.
  intros Hm Hb Hi H0 H1 H2 p0 p1 p2 p3.
  unfold chunk_seconds in H0, H1, H2.
  subst p3 p2 p1 p0. unfold after, outcome, recognised.
  rewrite !(first_push c0 e Hb). cbn [fst snd].
  destruct (next_push c1 c0 (set_audio_buffer [c0] e) Hm eq_refl)
    as (t1 & l1 & f1 & E1).
  rewrite !E1. cbn [fst snd].
  destruct (next_push c2 c1
              (set_audio_buffer [c1]
                 (set_chunk_index (chunk_index (set_audio_buffer [c0] e) + 1)
                    (set_audio_buffer [c0] e))) Hm eq_refl)
    as (t2 & l2 & f2 & E2).
  rewrite !E2. cbn [fst snd].
  rewrite first_push by reflexivity.
  cbn [fst snd map rec_audio start_time end_time
       chunk_index sample_rate set_audio_buffer set_chunk_index].
  rewrite Hi. rewrite !len_app.
  split; [reflexivity|].
  split; [eexists; split; [reflexivity|]; split; [reflexivity|] |].
  - cbn [start_time end_time Z.mul Z.add]. split.
    + unfold Qdiv. ring.
    + rewrite inject_Z_plus. unfold Qdiv in *.
      rewrite Qmult_plus_distr_l, H0, H1. ring.
  - split; [|reflexivity].
    eexists; split; [reflexivity|]; split; [reflexivity|].
    cbn [start_time end_time].
    replace (0 + 1) with 1 by reflexivity. rewrite Z.mul_1_l.
    rewrite inject_Z_plus. unfold Qdiv in *.
    rewrite !Qmult_plus_distr_l, H1, H2. split; ring.
Qed.

End Pushes.

(** C2. Three one-sample chunks pushed into a reset buffer (chunk
    duration [d = 1/16000] s): the third push hands the recogniser the
    window of the last two chunks, but stamps it [2d, 4d] and not
    [d, 3d] as the overlap of the windows requires. *)
Theorem third_window_timestamps_on_unit_chunks :
  let e := reset_buffer init in
  let no_speech :=
    fun (_ : Chunk) (_ : option string) => @None (string * string * Q) in
  let c0 := [1 # 10] in let c1 := [2 # 10] in let c2 := [3 # 10] in
  let d := chunk_seconds e c0 in
  let p0 := process_with_overlap no_speech c0 e in
  let p1 := process_with_overlap no_speech c1 (after p0) in
  let p2 := process_with_overlap no_speech c2 (after p1) in
  exists w2, outcome p2 = Returned (Some w2) /\
     map rec_audio (recognised p2) = [c1 ++ c2] /\
     start_time w2 == 2 * d /\ end_time w2 == 4 * d /\
     ~ start_time w2 == d /\ ~ end_time w2 == 3 * d.
Proof.
  cbv zeta.
  eexists. split; [vm_compute; reflexivity|].
  split; [reflexivity|].
  repeat split; try reflexivity; intro H; vm_compute in H; discriminate H.
Qed.

(** *** Streams of chunks *)

Section StreamFacts.

Variable whisper : Chunk -> option string -> option (string * string * Q).

Lemma windows_of_cons (a b : Chunk) (rest : list Chunk) :
  windows_of (a :: b :: rest) = (a ++ b) :: windows_of (b :: rest).
Proof. reflexivity. Qed.

Lemma last_cons {A} (l : list A) :
  forall x d : A, last (x :: l) d = last l x.
Proof.
  induction l as [|a l IH]; intros x d; [reflexivity|].
  change (last (x :: a :: l) d) with (last (a :: l) d).
  now rewrite (IH a d), (IH a x).
Qed.

(** An engine that holds one chunk turns every further chunk into a
    window. *)
Lemma pushes_after_first (rest : list Chunk) :
  forall (prev : Chunk) (e : Engine),
    model_loaded e = true ->
    audio_buffer e = [prev] ->
    map rec_audio (snd (pushes whisper rest e)) = windows_of (prev :: rest) /\
    map rec_language (snd (pushes whisper rest e))
      = repeat (language_setting e) (length rest) /\
    Forall (fun o => exists w, o = Returned (Some w))
           (fst (fst (pushes whisper rest e))) /\
    length (fst (fst (pushes whisper rest e))) = length rest /\
    audio_buffer (snd (fst (pushes whisper rest e))) = [last rest prev] /\
    chunk_index (snd (fst (pushes whisper rest e)))
      = chunk_index e + Z.of_nat (length rest).
Proof.
  induction rest as [|c rest IH]; intros prev e Hm Hb.
  - cbn. rewrite Hb. repeat split; [constructor | lia].
  - cbn [pushes].
    destruct (next_push whisper c prev e Hm Hb) as (t & l & cf & E).
    rewrite E.
    specialize (IH c (set_audio_buffer [c]
                        (set_chunk_index (chunk_index e + 1) e)) Hm eq_refl).
    destruct (pushes whisper rest _) as [[os e2] t2].
    cbn [fst snd] in *.
    destruct IH as (Ha & Hl & Hf & Hn & Hbuf & Hidx).
    cbn [map app rec_audio rec_language length repeat].
    rewrite Ha, Hl, Hn. cbn [language_setting set_audio_buffer set_chunk_index].
    rewrite windows_of_cons.
    repeat split.
    + constructor; [eexists; reflexivity | exact Hf].
    + rewrite Hbuf. now rewrite (last_cons rest c prev).
    + rewrite Hidx. cbn [chunk_index set_audio_buffer set_chunk_index]. lia.
Qed.

(** After [reset_buffer], on an engine with a model: one run of the
    recognition block for each chunk but the first. *)
Lemma window_stream_runs (e : Engine) (c0 : Chunk) (rest : list Chunk) :
  model_loaded e = true ->
  let r := pushes whisper (c0 :: rest) (reset_buffer e) in
  (exists os, fst (fst r) = Returned None :: os /\
              length os = length rest /\
              Forall (fun o => exists w, o = Returned (Some w)) os) /\
  map rec_audio (snd r) = windows_of (c0 :: rest) /\
  map rec_language (snd r) = repeat (language_setting e) (length rest) /\
  audio_buffer (snd (fst r)) = [last rest c0] /\
  chunk_index (snd (fst r)) = Z.of_nat (length rest).
Proof.
  intros Hm r. subst r. cbn [pushes].
  rewrite first_push by reflexivity.
  destruct (pushes_after_first rest c0
              (set_audio_buffer [c0] (reset_buffer e)) Hm eq_refl)
    as (Ha & Hl & Hf & Hn & Hbuf & Hidx).
  destruct (pushes whisper rest _) as [[os e2] t2].
  cbn [fst snd app] in *.
  split; [exists os; repeat split; assumption|].
  repeat split; assumption.
Qed.

(** The stamps of one direct call. *)
Lemma transcribe_stamps (c : Chunk) (e : Engine) (d : Q) :
  model_loaded e = true ->
  chunk_seconds e c == d ->
  exists w,
    transcribe whisper c None e =
      (Returned w, set_chunk_index (chunk_index e + 1) e,
       [mkRecognition c (language_setting e)]) /\
    start_time w == inject_Z (chunk_index e) * d /\
    end_time w == (inject_Z (chunk_index e) + 1) * d.
Proof.
  intros Hm Hd. unfold chunk_seconds in Hd.
  destruct (transcribe_loaded whisper c e Hm) as (t & l & cf & E).
  eexists. split; [exact E|]. cbn [start_time end_time].
  rewrite inject_Z_mult. unfold Qdiv in *. split.
  - rewrite <- Hd. ring.
  - rewrite <- Hd. ring.
Qed.

Lemma transcribes_stamps (chunks : list Chunk) (d : Q) :
  forall (e : Engine),
    model_loaded e = true ->
    Forall (fun c => chunk_seconds e c == d) chunks ->
    forall (i : nat) (o : Outcome TranscriptionResult),
      nth_error (fst (fst (transcribes whisper chunks e))) i = Some o ->
      exists w, o = Returned w /\
        start_time w == (inject_Z (chunk_index e) + inject_Z (Z.of_nat i)) * d /\
        end_time w == (inject_Z (chunk_index e) + inject_Z (Z.of_nat i) + 1) * d.
Proof.
  induction chunks as [|c chunks IH]; intros e Hm Hall i o Hnth.
  - destruct i; discriminate Hnth.
  - cbn [transcribes] in Hnth.
    inversion Hall as [|? ? Hc Hrest]; subst.
    destruct (transcribe_stamps c e d Hm Hc) as (w & E & Hs & He).
    rewrite E in Hnth.
    specialize (IH (set_chunk_index (chunk_index e + 1) e) Hm Hrest).
    destruct (transcribes whisper chunks _) as [[os e2] t2].
    cbn [fst snd] in *.
    destruct i as [|i].
    + cbn in Hnth. injection Hnth as <-. exists w. split; [reflexivity|].
      change (inject_Z (Z.of_nat 0)) with 0%Q. split.
      * rewrite Hs. ring.
      * rewrite He. ring.
    + cbn [nth_error] in Hnth.
      destruct (IH i o Hnth) as (w' & -> & Hs' & He').
      exists w'. split; [reflexivity|].
      cbn [chunk_index set_chunk_index] in Hs', He'.
      rewrite Nat2Z.inj_succ. unfold Z.succ.
      rewrite !inject_Z_plus in *. split.
      * rewrite Hs'. change (inject_Z 1) with 1%Q. ring.
      * rewrite He'. change (inject_Z 1) with 1%Q. ring.
Qed.

(** X2. [transcribe] called directly on the chunks of a stream, all of
    duration [d], after a reset: call number [i] (from 0) returns a result
    stamped from [i * d] to [(i + 1) * d], so the stamps follow the audio
    back to back, whether or not the recogniser succeeds. *)
Theorem direct_stamps_follow_the_audio (e : Engine) (chunks : list Chunk)
    (d : Q) (i : nat) (o : Outcome TranscriptionResult) :
  model_loaded e = true ->
  Forall (fun c => chunk_seconds e c == d) chunks ->
  nth_error (fst (fst (transcribes whisper chunks (reset_buffer e)))) i
    = Some o ->
  exists w, o = Returned w /\
    start_time w == inject_Z (Z.of_nat i) * d /\
    end_time w == (inject_Z (Z.of_nat i) + 1) * d.
Proof.
  intros Hm Hall Hnth.
  destruct (transcribes_stamps chunks d (reset_buffer e) Hm Hall i o Hnth)
    as (w & -> & Hs & He).
  exists w. split; [reflexivity|].
  cbn [chunk_index reset_buffer set_chunk_index set_audio_buffer] in Hs, He.
  split.
  - rewrite Hs. change (inject_Z 0) with 0%Q. ring.
  - rewrite He. change (inject_Z 0) with 0%Q. ring.
Qed.

Lemma push_without_model (c : Chunk) (e : Engine) (prev : Chunk)
    (older : list Chunk) :
  model_loaded e = false ->
  audio_buffer e = prev :: older ->
  process_with_overlap whisper c e =
  (Raised (mkExn RuntimeError "Model not loaded"),
   set_audio_buffer (audio_buffer e ++ [c]) e, []).
Proof.
  intros Hm Hb. unfold process_with_overlap, transcribe.
  rewrite Hb. cbn [app length audio_buffer set_audio_buffer model_loaded].
  rewrite Hm. cbn [negb].
  replace ((S (length (older ++ [c])) <? 2)%nat) with false; [reflexivity|].
  symmetry. apply Nat.ltb_ge. rewrite length_app. cbn. lia.
Qed.

Lemma pushes_without_model (rest : list Chunk) :
  forall (e : Engine) (prev : Chunk) (older : list Chunk),
    model_loaded e = false ->
    audio_buffer e = prev :: older ->
    pushes whisper rest e =
    (map (fun _ => Raised (mkExn RuntimeError "Model not loaded")) rest,
     set_audio_buffer (audio_buffer e ++ rest) e, []).
Proof.
  induction rest as [|c rest IH]; intros e prev older Hm Hb.
  - cbn. rewrite app_nil_r. destruct e; cbn in *. reflexivity.
  - cbn [pushes map].
    rewrite (push_without_model c e prev older Hm Hb).
    rewrite (IH (set_audio_buffer (audio_buffer e ++ [c]) e) prev
               (older ++ [c]) Hm)
      by (cbn; rewrite Hb; reflexivity).
    cbn [audio_buffer set_audio_buffer app].
    rewrite <- app_assoc. reflexivity.
Qed.

(** X3. An engine without a model (after a failed [change_model]) does
    not notice on the first chunk: the push returns nothing, as usual.
    Every later push raises [RuntimeError("Model not loaded")] before the
    buffer is cut back, so the buffer keeps every chunk of the stream;
    nothing reaches the recogniser and [chunk_index] stands still. *)
Theorem stream_without_model (e : Engine) (c0 : Chunk) (rest : list Chunk) :
  model_loaded e = false ->
  audio_buffer e = [] ->
  pushes whisper (c0 :: rest) e =
  (Returned None
   :: map (fun _ => Raised (mkExn RuntimeError "Model not loaded")) rest,
   set_audio_buffer (c0 :: rest) e, []).
Proof.
  intros Hm Hb. cbn [pushes].
  rewrite first_push by assumption.
  rewrite (pushes_without_model rest (set_audio_buffer [c0] e) c0 [] Hm eq_refl).
  reflexivity.
Qed.

Lemma chunk_seconds_app (e : Engine) (a b : Chunk) (d : Q) :
  chunk_seconds e a == d -> chunk_seconds e b == d ->
  chunk_seconds e (a ++ b) == 2 * d.
Proof.
  unfold chunk_seconds. intros Ha Hb.
  rewrite len_app, inject_Z_plus. unfold Qdiv in *.
  rewrite Qmult_plus_distr_l, Ha, Hb. ring.
Qed.

Lemma pushes_stamps (rest : list Chunk) (d : Q) :
  forall (prev : Chunk) (e : Engine),
    model_loaded e = true ->
    audio_buffer e = [prev] ->
    chunk_seconds e prev == d ->
    Forall (fun c => chunk_seconds e c == d) rest ->
    forall (i : nat) (o : Outcome (option TranscriptionResult)),
      nth_error (fst (fst (pushes whisper rest e))) i = Some o ->
      exists w, o = Returned (Some w) /\
        start_time w
          == (inject_Z (chunk_index e) + inject_Z (Z.of_nat i)) * (2 * d) /\
        end_time w
          == (inject_Z (chunk_index e) + inject_Z (Z.of_nat i) + 1) * (2 * d).
Proof.
  induction rest as [|c rest IH]; intros prev e Hm Hb Hp Hall i o Hnth.
  - destruct i; discriminate Hnth.
  - cbn [pushes] in Hnth.
    inversion Hall as [|? ? Hc Hrest]; subst.
    destruct (next_push whisper c prev e Hm Hb) as (t & l & cf & E).
    rewrite E in Hnth.
    specialize (IH c (set_audio_buffer [c]
                        (set_chunk_index (chunk_index e + 1) e))
                  Hm eq_refl Hc Hrest).
    destruct (pushes whisper rest _) as [[os e2] t2].
    cbn [fst snd] in *.
    pose proof (chunk_seconds_app e prev c d Hp Hc) as Hw.
    unfold chunk_seconds in Hw.
    destruct i as [|i].
    + cbn in Hnth. injection Hnth as <-. eexists. split; [reflexivity|].
      cbn [start_time end_time].
      change (inject_Z (Z.of_nat 0)) with 0%Q.
      rewrite inject_Z_mult. unfold Qdiv in *. split.
      * rewrite <- Hw. ring.
      * rewrite <- Hw. ring.
    + cbn [nth_error] in Hnth.
      destruct (IH i o Hnth) as (w' & -> & Hs' & He').
      exists w'. split; [reflexivity|].
      cbn [chunk_index set_chunk_index set_audio_buffer] in Hs', He'.
      rewrite Nat2Z.inj_succ. unfold Z.succ.
      rewrite !inject_Z_plus in *. split.
      * rewrite Hs'. change (inject_Z 1) with 1%Q. ring.
      * rewrite He'. change (inject_Z 1) with 1%Q. ring.
Qed.

(** X7. The stamps of a stream of chunks, all of duration [d], pushed
    through the overlap buffer after a reset: result number [j] (from 0,
    the result of push [j + 1]) is stamped from [2 j d] to [2 (j + 1) d].
    Each result covers a window of two chunks, so the stamps advance by
    [2 d] from one push to the next. *)
Theorem overlap_stamps (e : Engine) (c0 : Chunk) (rest : list Chunk)
    (d : Q) (j : nat) (o : Outcome (option TranscriptionResult)) :
  model_loaded e = true ->
  Forall (fun c => chunk_seconds e c == d) (c0 :: rest) ->
  nth_error (fst (fst (pushes whisper (c0 :: rest) (reset_buffer e)))) (S j)
    = Some o ->
  exists w, o = Returned (Some w) /\
    start_time w == inject_Z (Z.of_nat j) * (2 * d) /\
    end_time w == (inject_Z (Z.of_nat j) + 1) * (2 * d).
Proof.
  intros Hm Hall Hnth.
  inversion Hall as [|? ? H0 Hrest]; subst.
  cbn [pushes] in Hnth.
  rewrite first_push in Hnth by reflexivity.
  pose proof (pushes_stamps rest d c0 (set_audio_buffer [c0] (reset_buffer e))
                Hm eq_refl H0 Hrest j o) as H.
  destruct (pushes whisper rest _) as [[os e2] t2].
  cbn [fst snd nth_error] in *.
  destruct (H Hnth) as (w & -> & Hs & He).
  exists w. split; [reflexivity|].
  cbn [chunk_index reset_buffer set_chunk_index set_audio_buffer] in Hs, He.
  split.
  - rewrite Hs. change (inject_Z 0) with 0%Q. ring.
  - rewrite He. change (inject_Z 0) with 0%Q. ring.
Qed.


End StreamFacts.

Lemma model_uses_of_runs model (runs : list Recognition) (lang : option string)
    (n : nat) :
  map rec_language runs = repeat lang n ->
  model_uses model runs =
  flat_map (fun w => snd (recognition_block model w lang))
           (map rec_audio runs).
Proof.
  unfold model_uses. revert n.
  induction runs as [|r runs IH]; intros n H; [reflexivity|].
  destruct n as [|n]; [discriminate H|].
  cbn in H. injection H as Hl Hrest.
  cbn [flat_map map]. rewrite (IH n Hrest), Hl. reflexivity.
Qed.

(** X1. A stream of [n] chunks pushed through the overlap buffer of an
    engine with a loaded model, after [reset_buffer] and whatever buffer
    and index the engine had before. The first push returns nothing and
    each of the other [n-1] returns a result. The recognition block runs
    once for each of these, on the chunk appended to the chunk before it
    and with the language that is set; inside each run the model is used
    as [recognition_block] says: once with the language, or, when no
    language or the empty string is set, with [language=None] and once
    more with ["en"] if the detection raises. At the end the buffer holds
    the last chunk alone and [chunk_index] is [n-1]. *)
Theorem window_stream
    (model : Chunk -> option string -> ModelAnswer)
    (e : Engine) (c0 : Chunk) (rest : list Chunk) :
  model_loaded e = true ->
  let r := pushes (whisper_of model) (c0 :: rest) (reset_buffer e) in
  (exists os, fst (fst r) = Returned None :: os /\
              length os = length rest /\
              Forall (fun o => exists w, o = Returned (Some w)) os) /\
  map rec_audio (snd r) = windows_of (c0 :: rest) /\
  map rec_language (snd r) = repeat (language_setting e) (length rest) /\
  model_uses model (snd r)
    = flat_map (fun w => snd (recognition_block model w (language_setting e)))
               (windows_of (c0 :: rest)) /\
  audio_buffer (snd (fst r)) = [last rest c0] /\
  chunk_index (snd (fst r)) = Z.of_nat (length rest).
Proof.
  intros Hm r.
  destruct (window_stream_runs (whisper_of model) e c0 rest Hm)
    as (Hos & Ha & Hl & Hb & Hi).
  fold r in Hos, Ha, Hl, Hb, Hi.
  split; [exact Hos|]. split; [exact Ha|]. split; [exact Hl|].
  split; [|split; assumption].
  rewrite (model_uses_of_runs model _ _ _ Hl), Ha. reflexivity.
Qed.

Lemma window_stream_witness :
  model_uses english_only
    (snd (pushes (whisper_of english_only) [[1 # 10]; [2 # 10]; [3 # 10]]
            (reset_buffer init)))
  = [mkUse [1 # 10; 2 # 10] None; mkUse [1 # 10; 2 # 10] (Some "en");
     mkUse [2 # 10; 3 # 10] None; mkUse [2 # 10; 3 # 10] (Some "en")].
Proof.
  pose proof (window_stream english_only init [1 # 10]
                [[2 # 10]; [3 # 10]] eq_refl) as H.
  cbv zeta in H. destruct H as (_ & _ & _ & H & _).
  exact H.
Defined.

Lemma direct_stamps_follow_the_audio_witness :
  exists w,
    nth_error
      (fst (fst (transcribes hears_nothing [[1 # 10]; [2 # 10]; [3 # 10]]
                   (reset_buffer init)))) 2
    = Some (Returned w) /\
    start_time w == 2 * (1 # 16000) /\ end_time w == 3 * (1 # 16000).
Proof.
  assert (Hall : Forall (fun c => chunk_seconds init c == 1 # 16000)
                   [[1 # 10]; [2 # 10]; [3 # 10]])
    by (repeat constructor).
  destruct (direct_stamps_follow_the_audio hears_nothing init
              [[1 # 10]; [2 # 10]; [3 # 10]] (1 # 16000) 2 _ eq_refl Hall
              eq_refl)
    as (w & E & Hs & He).
  exists w. split; [now rewrite <- E|].
  split; [exact Hs | exact He].
Defined.

Lemma stream_without_model_witness :
  fst (fst (pushes hears_nothing [[1 # 10]; [2 # 10]; [3 # 10]]
              (set_model_loaded false init)))
  = [Returned None;
     Raised (mkExn RuntimeError "Model not loaded");
     Raised (mkExn RuntimeError "Model not loaded")].
Proof.
  pose proof (stream_without_model hears_nothing
                (set_model_loaded false init) [1 # 10]
                [[2 # 10]; [3 # 10]] eq_refl eq_refl) as H.
  exact (f_equal (fun r => fst (fst r)) H).
Defined.

Lemma overlap_stamps_witness :
  exists w,
    nth_error
      (fst (fst (pushes hears_nothing [[1 # 10]; [2 # 10]; [3 # 10]]
                   (reset_buffer init)))) 2
    = Some (Returned (Some w)) /\
    start_time w == 2 * (1 # 16000) /\ end_time w == 4 * (1 # 16000).
Proof.
  assert (Hall : Forall (fun c => chunk_seconds init c == 1 # 16000)
                   [[1 # 10]; [2 # 10]; [3 # 10]])
    by (repeat constructor).
  destruct (overlap_stamps hears_nothing init [1 # 10]
              [[2 # 10]; [3 # 10]] (1 # 16000) 1 _ eq_refl Hall eq_refl)
    as (w & E & Hs & He).
  exists w. split; [now rewrite <- E|].
  split; [rewrite Hs | rewrite He]; reflexivity.
Defined.

(** *** Switching the model *)

(** X4. A switch to a supported model that fails to load leaves the
    engine without a model but already named after the new model, with
    buffer, index and language as they were. Asking for the same model
    again then does nothing at all, whatever the loader would do: the
    call returns and the engine still has no model. A switch to another
    supported model that loads brings the engine back. *)
Theorem failed_switch_is_not_retried (o : Object) (m err : string) :
  supported m = true ->
  String.eqb m (model_name o) = false ->
  let o1 := snd (change_model m (Some err) o) in
  fst (change_model m (Some err) o) = Raised (load_failed m err) /\
  model_name o1 = m /\
  model_loaded (core o1) = false /\
  audio_buffer (core o1) = audio_buffer (core o) /\
  chunk_index (core o1) = chunk_index (core o) /\
  language_setting (core o1) = language_setting (core o) /\
  (forall load, change_model m load o1 = (Returned tt, o1)) /\
  (forall m', supported m' = true -> String.eqb m' m = false ->
     fst (change_model m' None o1) = Returned tt /\
     model_loaded (core (snd (change_model m' None o1))) = true /\
     model_name (snd (change_model m' None o1)) = m').
Proof.
  intros Hs Hne o1. subst o1.
  assert (E : change_model m (Some err) o =
              (Raised (load_failed m err),
               mkObject m (device o) (set_model_loaded false (core o)))).
  { unfold change_model. rewrite Hs, Hne. reflexivity. }
  rewrite E. cbn [fst snd model_name core].
  do 6 (split; [reflexivity|]). split.
  - intros load. unfold change_model.
    cbn [model_name]. rewrite Hs, String.eqb_refl. reflexivity.
  - intros m' Hs' Hne'.
    unfold change_model. cbn [model_name].
    rewrite Hs', Hne'. repeat split.
Qed.

Lemma failed_switch_is_not_retried_witness :
  fst (change_model "base" None
         (snd (change_model "base" (Some "out of memory")
                 (mkObject "tiny" "cpu" init))))
  = Returned tt /\
  model_loaded
    (core (snd (change_model "base" (Some "out of memory")
                  (mkObject "tiny" "cpu" init))))
  = false /\
  model_loaded
    (core (snd (change_model "small" None
                  (snd (change_model "base" (Some "out of memory")
                          (mkObject "tiny" "cpu" init))))))
  = true.
Proof.
  pose proof (failed_switch_is_not_retried (mkObject "tiny" "cpu" init)
                "base" "out of memory" eq_refl eq_refl) as H.
  cbv zeta in H.
  destruct H as (_ & _ & Hm & _ & _ & _ & Hsame & Hother).
  rewrite (Hsame None).
  split; [reflexivity|]. split; [exact Hm|].
  exact (proj1 (proj2 (Hother "small" eq_refl eq_refl))).
Defined.
End TranscriptionFacts.

(** ** The capture engine *)

Module AudioFacts.
Import Audio Audio.Examples.

Lemma Qlt_bool_true (x y : Q) : Qlt_bool x y = true <-> (x < y)%Q.
Proof.
  unfold Qlt_bool. rewrite negb_true_iff. split.
  - intros H. apply Qnot_le_lt. intros L.
    apply Qle_bool_iff in L. congruence.
  - intros H. destruct (Qle_bool y x) eqn:E; [|reflexivity].
    apply Qle_bool_iff in E. exfalso. exact (Qlt_not_le _ _ H E).
Qed.

Lemma Qlt_bool_false (x y : Q) : Qlt_bool x y = false <-> (y <= x)%Q.
Proof.
  unfold Qlt_bool. rewrite negb_false_iff. apply Qle_bool_iff.
Qed.

(** *** Voice-activity gating *)

(** C5. Below the threshold with a silence start recorded more than three
    seconds before, [_should_pause_on_silence] answers true; at or above
    the threshold it answers false and clears the timer; below the
    threshold the timer is never cleared: a recorded start is kept
    whatever the clock says, and a missing one is set to the clock. *)
Theorem should_pause_on_silence_spec (s : Engine) (now : Q) :
  let t := vad_threshold (config s) in
  let r := _should_pause_on_silence now s in
  (forall since,
      (current_audio_level s < t)%Q ->
      silence_start_time s = Some since ->
      (3 < now - since)%Q ->
      r = (Returned true, s, [])) /\
  ((t <= current_audio_level s)%Q ->
      outcome r = Returned false /\ silence_start_time (after r) = None) /\
  ((current_audio_level s < t)%Q ->
      silence_start_time (after r) =
      Some (match silence_start_time s with
            | Some since => since
            | None => now
            end)).
Proof.
  cbv zeta. unfold _should_pause_on_silence, bind, get.
  split; [|split].
  - intros since Hl Hs Hd.
    apply Qlt_bool_true in Hl. rewrite Hl, Hs.
    apply Qlt_bool_true in Hd. rewrite Hd. reflexivity.
  - intros Hl. apply Qlt_bool_false in Hl. rewrite Hl. split; reflexivity.
  - intros Hl. apply Qlt_bool_true in Hl. rewrite Hl.
    destruct (silence_start_time s) as [since|] eqn:Hs.
    + destruct (Qlt_bool 3 (now - since)); cbn; exact Hs.
    + reflexivity.
Qed.

Lemma should_pause_on_silence_witness :
  _should_pause_on_silence 4%Q silent_for_four_seconds
  = (Returned true, silent_for_four_seconds, []).
Proof.
  apply (proj1 (should_pause_on_silence_spec silent_for_four_seconds 4%Q) 0%Q);
    reflexivity.
Defined.



(** *** The two-source mixer *)

Lemma firstn_repeat_le {A} (x : A) (k n : nat) :
  (k <= n)%nat -> firstn k (repeat x n) = repeat x k.
Proof.
  revert n. induction k as [|k IH]; intros [|n] H; cbn; try reflexivity.
  - lia.
  - f_equal. apply IH. lia.
Qed.

Lemma average_repeat (a b : Q) (n : nat) :
  average (repeat a n) (repeat b n) = repeat ((a + b) / 2)%Q n.
Proof.
  unfold average. induction n as [|n IH]; cbn; [reflexivity|].
  now rewrite IH.
Qed.

Lemma mix_pops_both (call : Chunk -> M unit) (s : Engine) p ps q qs :
  primary_buffer s = p :: ps ->
  secondary_buffer s = q :: qs ->
  _mix_and_callback call s =
  call (average (firstn (Nat.min (length p) (length q)) p)
                (firstn (Nat.min (length p) (length q)) q))
       (set_secondary_buffer qs (set_primary_buffer ps s)).
Proof.
  intros Hp Hq. unfold _mix_and_callback, bind, get, modify.
  rewrite Hp, Hq.
  destruct (call _ _) as [[o s'] tr]. reflexivity.
Qed.

Lemma mix_waits (call : Chunk -> M unit) (s : Engine) :
  primary_buffer s = [] \/ secondary_buffer s = [] ->
  _mix_and_callback call s = (Returned tt, s, []).
Proof.
  unfold _mix_and_callback, bind, get.
  intros [H|H]; rewrite H; [|destruct (primary_buffer s)]; reflexivity.
Qed.

(** C6. When a primary chunk arrives it is queued behind the chunks
    already waiting. If a secondary chunk is waiting, the front chunk of
    each queue is removed, both are cut to the shorter length and their
    sample-wise average is passed to the callback; the rest of both queues
    keeps its order. If no secondary chunk is waiting, or when
    [_mix_and_callback] finds either queue empty, nothing is passed on and
    nothing is removed. Chunks filled with [a] and with [b] mix to a chunk
    filled with [(a+b)/2]. *)
Theorem mixer_pairs_fifo :
  (forall (k : nat) (s : Engine) (audio q : Chunk) (qs : list Chunk),
      secondary_buffer s = q :: qs ->
      let p := hd audio (primary_buffer s) in
      let n := Nat.min (length p) (length q) in
      invoke (PrimaryCallback (ClientCallback k)) audio s =
      (Returned tt,
       set_secondary_buffer qs
         (set_primary_buffer (tl (primary_buffer s ++ [audio]))
            (set_primary_buffer (primary_buffer s ++ [audio]) s)),
       [ChunkDelivered k (average (firstn n p) (firstn n q))])) /\
  (forall (k : nat) (s : Engine) (audio : Chunk),
      secondary_buffer s = [] ->
      invoke (PrimaryCallback (ClientCallback k)) audio s =
      (Returned tt, set_primary_buffer (primary_buffer s ++ [audio]) s, [])) /\
  (forall (cb : ChunkCallback) (s : Engine),
      primary_buffer s = [] \/ secondary_buffer s = [] ->
      _mix_and_callback (invoke cb) s = (Returned tt, s, [])) /\
  (forall (k : nat) (s : Engine) (a b : Q) (n m : nat),
      primary_buffer s = [repeat a n] ->
      secondary_buffer s = [repeat b m] ->
      _mix_and_callback (invoke (ClientCallback k)) s =
      (Returned tt,
       set_secondary_buffer [] (set_primary_buffer [] s),
       [ChunkDelivered k (repeat ((a + b) / 2)%Q (Nat.min n m))])).
Proof.
  repeat split.
  - intros k s audio q qs Hq p n. subst p n.
    cbn [invoke]. unfold primary_append, bind at 1 2, get, modify.
    cbn [fst snd app].
    rewrite (mix_pops_both _ _ (hd audio (primary_buffer s))
               (tl (primary_buffer s ++ [audio])) q qs).
    + reflexivity.
    + cbn. destruct (primary_buffer s); reflexivity.
    + exact Hq.
  - intros k s audio Hq.
    cbn [invoke]. unfold primary_append, bind at 1 2, get, modify.
    rewrite mix_waits by (right; exact Hq). reflexivity.
  - intros cb s H. now apply mix_waits.
  - intros k s a b n m Hp Hq.
    rewrite (mix_pops_both _ _ _ _ _ _ Hp Hq). cbn [invoke emit].
    unfold emit. rewrite !repeat_length.
    rewrite !firstn_repeat_le by lia.
    now rewrite average_repeat.
Qed.

Lemma mixer_pairs_fifo_witness :
  _mix_and_callback (invoke (ClientCallback 0)) two_waiting =
  (Returned tt,
   set_secondary_buffer [] (set_primary_buffer [] two_waiting),
   [ChunkDelivered 0 [((1 # 2) + (3 # 10)) / 2; ((1 # 2) + (3 # 10)) / 2]%Q]).
Proof.
  apply (proj2 (proj2 (proj2 mixer_pairs_fifo)) 0%nat two_waiting
           (1 # 2)%Q (3 # 10)%Q 2%nat 2%nat); reflexivity.
Defined.



(** *** Starting, stopping and switching *)

Lemma start_capture_idle (device : Z) cb error_cb (s : Engine) :
  is_capturing s = false ->
  start_capture device cb error_cb s =
  (Returned true,
   set_is_capturing true
     (set_capture_thread (Some (threads_created s))
        (set_threads_created (S (threads_created s))
           (set_reconnect_attempts 0
              (set_stop_event false
                 (set_current_device_id (Some device)
                    (set_error_callback error_cb
                       (set_callback (Some cb) s))))))),
   [ThreadStarted (threads_created s) CaptureLoop]).
Proof.
  intros H. unfold start_capture, bind at 1, get. rewrite H. reflexivity.
Qed.


Lemma stop_capture_idle (me : ThreadId) (s : Engine) :
  is_capturing s = false -> stop_capture me s = (Returned tt, s, []).
Proof.
  intros H. unfold stop_capture, bind, get. rewrite H. reflexivity.
Qed.

Lemma join_other (me t : ThreadId) (timeout : Q) (s : Engine) :
  t <> me -> join me t timeout s = (Returned tt, s, [ThreadJoined t timeout]).
Proof.
  intros H. unfold join. apply Nat.eqb_neq in H. now rewrite H.
Qed.



(** [stop_capture] called by a thread that is neither of the session's
    own two. *)
Lemma stop_capture_from_outside (me t : ThreadId) (s : Engine) :
  is_capturing s = true ->
  capture_thread s = Some t ->
  t <> me ->
  secondary_thread s <> Some me ->
  exists s' before,
    stop_capture me s =
      (Returned tt, s', Printed "Stopping audio capture" :: before
                        ++ [ThreadJoined t 2]) /\
    threads_started before = [] /\ reports before = [] /\
    stop_event s' = true /\
    is_capturing s' = false /\
    callback s' = None /\
    current_device_id s' = None /\
    is_paused s' = false /\
    silence_start_time s' = None /\
    primary_buffer s' = [] /\
    secondary_buffer s' = [] /\
    secondary_device_id s' = None /\
    config s' = config s /\
    error_callback s' = error_callback s /\
    capture_thread s' = capture_thread s /\
    threads_created s' = threads_created s /\
    current_audio_level s' = current_audio_level s /\
    reconnect_attempts s' = reconnect_attempts s /\
    max_reconnect_attempts s' = max_reconnect_attempts s /\
    reconnect_delay s' = reconnect_delay s /\
    last_error s' = last_error s.
Proof.
  intros Hc Ht Hne Hsec.
  apply Nat.eqb_neq in Hne.
  unfold stop_capture, bind at 1, get. rewrite Hc. cbn [negb].
  unfold print, emit, modify, skip, ret, join_if_any, join, bind.
  rewrite Ht, Hne.
  destruct (secondary_device_id s) as [d2|] eqn:Hd.
  - destruct (secondary_thread s) as [t2|] eqn:Ht2.
    + assert (Ht2me : Nat.eqb t2 me = false)
        by (apply Nat.eqb_neq; congruence).
      rewrite Ht2me. cbn.
      eexists. exists [ThreadJoined t2 2].
      split; [reflexivity|]. cbn. repeat split; auto.
    + cbn. eexists. exists []. split; [reflexivity|].
      cbn. repeat split; auto.
  - cbn. eexists. exists []. split; [reflexivity|].
    cbn. repeat split; auto.
Qed.



Lemma threads_started_app (a b : list Effect) :
  threads_started (a ++ b) = threads_started a ++ threads_started b.
Proof. apply flat_map_app. Qed.

Lemma reports_app (a b : list Effect) :
  reports (a ++ b) = reports a ++ reports b.
Proof. apply flat_map_app. Qed.

Lemma sleeps_app (a b : list Effect) :
  sleeps (a ++ b) = sleeps a ++ sleeps b.
Proof. apply flat_map_app. Qed.

Lemma streams_opened_app (a b : list Effect) :
  streams_opened (a ++ b) = streams_opened a ++ streams_opened b.
Proof. apply flat_map_app. Qed.

(** [stop_capture] called on the capture thread of the session, whatever
    else the session holds: the stop flag is set, a join raises, and
    nothing of the session is reset. *)
Lemma stop_capture_on_own_thread (me : ThreadId) (s : Engine) :
  is_capturing s = true ->
  capture_thread s = Some me ->
  exists s' tr,
    stop_capture me s = (Raised cannot_join, s', tr) /\
    (forall q, ~ In (ThreadJoined me q) tr) /\
    stop_event s' = true /\
    is_capturing s' = true /\
    callback s' = callback s /\
    current_device_id s' = current_device_id s /\
    is_paused s' = is_paused s /\
    silence_start_time s' = silence_start_time s.
Proof.
  intros Hc Ht.
  unfold stop_capture, join_if_any, join, print, emit, modify, get, skip,
    ret, raise, bind.
  rewrite Hc, Ht, Nat.eqb_refl. unfold cannot_join.
  destruct (secondary_device_id s) as [d2|];
    [destruct (secondary_thread s) as [t2|];
       [destruct (Nat.eqb t2 me) eqn:E2|]|];
    cbn; do 2 eexists; (split; [reflexivity|]);
    (split; [|cbn; repeat split; auto]);
    intros q Hin; cbn in Hin;
    repeat match goal with
           | H : _ \/ _ |- _ => destruct H
           | H : False |- _ => contradiction
           | H : _ = ThreadJoined _ _ |- _ => try discriminate H
           end.
  injection H as -> _. rewrite Nat.eqb_refl in E2. discriminate E2.
Qed.

(** C9. [stop_capture] on a session that is not capturing changes nothing
    and does nothing. On a capturing session, called by a thread other
    than the session's own, it sets the stop flag, joins the capture
    thread with a two-second bound as its last effect, and leaves the
    session not capturing, with no current device, not paused and with
    the silence timer cleared. Called on the capture thread of the
    session, as [handle_device_disconnection] calls it from the capture
    loop, it sets the stop flag and then raises on the join of its own
    thread: the capture thread is not joined, the session stays marked
    as capturing, and the device, the paused flag and the silence timer
    are left as they were. *)
Theorem stop_capture_spec (me : ThreadId) (s : Engine) :
  (is_capturing s = false -> stop_capture me s = (Returned tt, s, [])) /\
  (forall t : ThreadId,
      is_capturing s = true ->
      capture_thread s = Some t ->
      t <> me ->
      secondary_thread s <> Some me ->
      let r := stop_capture me s in
      outcome r = Returned tt /\
      stop_event (after r) = true /\
      (exists before, effects r = before ++ [ThreadJoined t 2]) /\
      is_capturing (after r) = false /\
      current_device_id (after r) = None /\
      is_paused (after r) = false /\
      silence_start_time (after r) = None) /\
  (is_capturing s = true ->
   capture_thread s = Some me ->
   let r := stop_capture me s in
   outcome r = Raised cannot_join /\
   stop_event (after r) = true /\
   (forall q, ~ In (ThreadJoined me q) (effects r)) /\
   is_capturing (after r) = true /\
   current_device_id (after r) = current_device_id s /\
   is_paused (after r) = is_paused s /\
   silence_start_time (after r) = silence_start_time s).
Proof.
  split; [apply stop_capture_idle|]. split.
  - intros t Hc Ht Hne Hsec r. subst r.
    destruct (stop_capture_from_outside me t s Hc Ht Hne Hsec)
      as (s' & before & E & H).
    rewrite E. cbn [outcome after effects fst snd].
    split; [reflexivity|]. split; [tauto|].
    split; [exists (Printed "Stopping audio capture" :: before); reflexivity|].
    tauto.
  - intros Hc Ht r. subst r.
    destruct (stop_capture_on_own_thread me s Hc Ht)
      as (s' & tr & E & Hj & H1 & H2 & _ & H3 & H4 & H5).
    rewrite E. cbn [outcome after effects fst snd].
    repeat split; assumption.
Qed.

(** What the capture loop does with a chunk at or above the threshold on
    a session that is not paused: it calls the registered callback. *)
Lemma forward_when_loud (audio : Chunk) (rms now : Q) (s : Engine) cb :
  audio <> [] ->
  (vad_threshold (config s) <= Qmin rms 1)%Q ->
  is_paused s = false ->
  callback s = Some cb ->
  gate_and_forward audio rms now s =
  invoke cb audio
    (set_silence_start_time None (set_current_audio_level (Qmin rms 1) s)).
Proof.
  intros Ha Hl Hp Hcb.
  unfold gate_and_forward, _update_audio_level, _should_pause_on_silence.
  destruct audio as [|x audio]; [congruence|].
  cbn [length Nat.ltb Nat.leb].
  apply Qlt_bool_false in Hl.
  unfold bind, get, modify, skip, ret.
  cbn [current_audio_level set_current_audio_level config
       vad_threshold].
  rewrite Hl. cbn. rewrite Hp. cbn. rewrite Hcb, Hp. cbn.
  destruct (invoke cb _ _) as [[o s'] tr]. reflexivity.
Qed.

(** On a capturing session with a callback, [set_device] called from
    outside is [stop_capture] followed by [start_capture]. *)
Lemma set_device_while_capturing (me t : ThreadId) (device : Z)
    (cb : ChunkCallback) (s : Engine) :
  is_capturing s = true ->
  capture_thread s = Some t ->
  callback s = Some cb ->
  t <> me ->
  secondary_thread s <> Some me ->
  set_device me device s =
  (Returned tt,
   after (start_capture device cb None (after (stop_capture me s))),
   effects (stop_capture me s)
   ++ effects (start_capture device cb None (after (stop_capture me s)))).
Proof.
  intros Hc Ht Hcb Hne Hsec.
  destruct (stop_capture_from_outside me t s Hc Ht Hne Hsec)
    as (s1 & before & E & _ & _ & _ & Hcap & _).
  unfold set_device, bind at 1, get.
  rewrite Hc, Hcb. cbn [negb]. unfold bind, skip, ret. rewrite E.
  cbn [after effects fst snd].
  rewrite (start_capture_idle device cb None s1 Hcap).
  cbn [after effects fst snd]. now rewrite app_nil_r.
Qed.

Lemma windows_loop_turn (me : ThreadId) (r : Read)
    (rest : list (Event Read)) (c : Z) (s : Engine) :
  stop_event s = false ->
  windows_read_loop me (Step r :: rest) c s =
  bind (windows_turn me r c) (windows_read_loop me rest) s.
Proof.
  intros H. cbn [windows_read_loop]. unfold bind at 1, get. rewrite H.
  destruct (bind _ _ s) as [[o s'] tr]. reflexivity.
Qed.

(** Chunks at or above the threshold read on Windows by a session that
    is not paused and holds a client's callable: each is passed to it. *)
Lemma loud_reads_are_delivered (me : ThreadId) (k : nat) (th : Q)
    (chunks : list (Chunk * Q * Q)) :
  Forall (loud th) chunks ->
  forall (c : Z) (s : Engine),
    stop_event s = false ->
    vad_threshold (config s) = th ->
    is_paused s = false ->
    callback s = Some (ClientCallback k) ->
    exists s',
      windows_read_loop me (map heard chunks) c s =
      (Pending, s', map (fun x => ChunkDelivered k (audio_of x)) chunks).
Proof.
  induction 1 as [|[[audio rms] now] chunks [Ha Hl] _ IH];
    intros c s Hstop Hth Hp Hcb.
  - exists s. cbn. unfold bind, get, pending. now rewrite Hstop.
  - cbn [map heard].
    rewrite (windows_loop_turn me _ _ c s Hstop).
    unfold bind, windows_turn, try_except.
    rewrite <- Hth in Hl.
    unfold bind.
    rewrite (forward_when_loud audio rms now s (ClientCallback k))
      by assumption.
    cbn [invoke emit ret].
    destruct (IH 0 (set_silence_start_time None
                      (set_current_audio_level (Qmin rms 1) s)))
      as (s' & E); try assumption.
    rewrite E. exists s'. reflexivity.
Qed.

Lemma delivered_chunks (k : nat) (chunks : list (Chunk * Q * Q)) :
  delivered (map (fun x => ChunkDelivered k (audio_of x)) chunks)
  = map (fun x => (k, audio_of x)) chunks.
Proof.
  induction chunks as [|x chunks IH]; [reflexivity|].
  cbn [map delivered flat_map app]. fold (delivered (map (fun x => ChunkDelivered k (audio_of x)) chunks)).
  now rewrite IH.
Qed.

(** A Windows attempt that opens the device and reads chunks at or
    above the threshold, on such a session: the thread is still reading
    and the callable has received the chunks, in order. *)
Lemma windows_attempt_delivers (me : ThreadId) (host : Host) (a : Attempt)
    (chunks : list (Chunk * Q * Q)) (k : nat) (s : Engine) :
  platform host = Win32 ->
  backend_available host = true ->
  stop_event s = false ->
  is_paused s = false ->
  callback s = Some (ClientCallback k) ->
  check_device_available (devices a) (current_device_id s) = true ->
  open_error a = None ->
  reads a = map heard chunks ->
  Forall (loud (vad_threshold (config s))) chunks ->
  outcome (_capture_loop me host [Step a] s) = Pending /\
  delivered (effects (_capture_loop me host [Step a] s))
  = map (fun x => (k, audio_of x)) chunks.
Proof.
  intros Hw Hb Hstop Hp Hcb Ha Ho Hr Hl.
  destruct (loud_reads_are_delivered me k (vad_threshold (config s)) chunks
              Hl 0 (set_reconnect_attempts 0 (set_stream true s)))
    as (s3 & E3); try assumption; try reflexivity.
  assert (Estep : _capture_loop me host [Step a] s =
                  bind (supervised me host a)
                       (fun again => if again then _capture_loop me host []
                                     else skip) s).
  { cbn [_capture_loop]. unfold bind at 1, get. rewrite Hstop.
    destruct (bind _ _ s) as [[o s'] tr]. reflexivity. }
  rewrite Estep.
  unfold supervised, try_except. rewrite Hw.
  unfold _capture_loop_windows. rewrite Hb. cbn [negb].
  unfold try_finally, require_device, print, emit, modify, get, skip, ret,
    raise, bind.
  rewrite Ha. cbn [negb fst snd]. rewrite Ho. cbn [fst snd].
  rewrite Hr, E3. unfold outcome, effects. cbn [fst snd app].
  split; [reflexivity|].
  cbn [delivered flat_map app].
  apply delivered_chunks.
Qed.

(** [set_device] on a capturing session without a callback, called
    from outside: the session is stopped and not started again. *)
Lemma set_device_without_callback (me t : ThreadId) (device : Z)
    (s : Engine) :
  is_capturing s = true ->
  capture_thread s = Some t ->
  callback s = None ->
  t <> me ->
  secondary_thread s <> Some me ->
  set_device me device s = stop_capture me s.
Proof.
  intros Hc Ht Hcb Hne Hsec.
  destruct (stop_capture_from_outside me t s Hc Ht Hne Hsec)
    as (s1 & before & E & _).
  unfold set_device, bind at 1, get.
  rewrite Hc, Hcb. cbn [negb]. unfold bind, skip, ret. rewrite E.
  now rewrite app_nil_r.
Qed.

(** C8. [set_device] on a session that is not capturing only writes
    [current_device_id] and starts no thread. On a capturing
    single-source session, whose registered callback is the client's
    callable, called by a thread other than the session's own, it is
    [stop_capture] followed by [start_capture] on the new device with
    that callable: the session is capturing the new device again, the
    same callable is registered, and it goes on receiving chunks: the
    next chunk at or above the threshold is passed to it, and after a
    Windows attempt that opens the new device and reads chunks at or
    above the threshold it has received every one of them, in order. On
    a capturing session with no callback
    registered it is [stop_capture] alone: the session is not started
    again and the new device is not recorded. *)
Theorem set_device_spec (me : ThreadId) (device : Z) (s : Engine) :
  (is_capturing s = false ->
     set_device me device s =
     (Returned tt, set_current_device_id (Some device) s, [])) /\
  (forall (t : ThreadId) (k : nat),
      is_capturing s = true ->
      capture_thread s = Some t ->
      callback s = Some (ClientCallback k) ->
      t <> me ->
      secondary_thread s <> Some me ->
      let stop := stop_capture me s in
      let start := start_capture device (ClientCallback k) None (after stop) in
      let r := set_device me device s in
      outcome stop = Returned tt /\
      outcome start = Returned true /\
      r = (Returned tt, after start, effects stop ++ effects start) /\
      threads_started (effects r) = [(threads_created s, CaptureLoop)] /\
      is_capturing (after r) = true /\
      current_device_id (after r) = Some device /\
      callback (after r) = Some (ClientCallback k) /\
      (forall (audio : Chunk) (rms now : Q),
          audio <> [] ->
          (vad_threshold (config s) <= Qmin rms 1)%Q ->
          gate_and_forward audio rms now (after r) =
          (Returned tt,
           set_silence_start_time None
             (set_current_audio_level (Qmin rms 1) (after r)),
           [ChunkDelivered k audio])) /\
      (forall (me' : ThreadId) (host : Host) (a : Attempt)
              (chunks : list (Chunk * Q * Q)),
          platform host = Win32 ->
          backend_available host = true ->
          check_device_available (devices a) (Some device) = true ->
          open_error a = None ->
          reads a = map heard chunks ->
          Forall (loud (vad_threshold (config s))) chunks ->
          let run := _capture_loop me' host [Step a] (after r) in
          outcome run = Pending /\
          delivered (effects run) = map (fun x => (k, audio_of x)) chunks)) /\
  (forall t : ThreadId,
      is_capturing s = true ->
      capture_thread s = Some t ->
      callback s = None ->
      t <> me ->
      secondary_thread s <> Some me ->
      let r := set_device me device s in
      r = stop_capture me s /\
      outcome r = Returned tt /\
      threads_started (effects r) = [] /\
      is_capturing (after r) = false /\
      current_device_id (after r) = None).
Proof.
  split; [|split].
  - intros H. unfold set_device, bind, get. rewrite H. reflexivity.
  - intros t k Hc Ht Hcb Hne Hsec stop start r.
    destruct (stop_capture_from_outside me t s Hc Ht Hne Hsec)
      as (s1 & before & E & Hts & Hrep & Hstop & Hcap & Hcb1 & Hdev & Hp
          & Hsil & Hpb & Hsb & Hsd & Hcfg & Hecb & Hct & Htc & Hrest).
    assert (Er : r = (Returned tt, after start, effects stop ++ effects start))
      by (apply (set_device_while_capturing me t); assumption).
    subst start stop. rewrite Er. rewrite E in *.
    cbn [outcome after effects fst snd] in *.
    rewrite (start_capture_idle device (ClientCallback k) None s1 Hcap) in *.
    cbn [outcome after effects fst snd].
    split; [reflexivity|]. split; [reflexivity|]. split; [reflexivity|].
    split.
    { change (Printed "Stopping audio capture" :: before ++ [ThreadJoined t 2])
        with ([Printed "Stopping audio capture"] ++ before ++ [ThreadJoined t 2]).
      rewrite !threads_started_app, Hts, Htc. reflexivity. }
    split; [reflexivity|]. split; [reflexivity|]. split; [reflexivity|].
    split.
    + intros audio rms now Ha Hl.
      rewrite (forward_when_loud audio rms now _ (ClientCallback k));
        try assumption; try reflexivity.
      cbn. now rewrite Hcfg.
    + intros me' host a chunks Hw Hb Ha Ho Hr Hl. cbv zeta.
      apply (windows_attempt_delivers me' host a chunks k);
        try assumption; try reflexivity.
      cbn. now rewrite Hcfg.
  - intros t Hc Ht Hcb Hne Hsec r. subst r.
    rewrite (set_device_without_callback me t device s Hc Ht Hcb Hne Hsec).
    destruct (stop_capture_from_outside me t s Hc Ht Hne Hsec)
      as (s1 & before & E & Hts & Hrep & Hstop & Hcap & Hcb1 & Hdev & _).
    rewrite E. cbn [outcome after effects fst snd].
    split; [reflexivity|]. split; [reflexivity|]. split.
    { change (Printed "Stopping audio capture" :: before ++ [ThreadJoined t 2])
        with ([Printed "Stopping audio capture"] ++ before ++ [ThreadJoined t 2]).
      rewrite !threads_started_app, Hts. reflexivity. }
    split; assumption.
Qed.



(** *** The reconnection supervisor *)

Lemma on_capture_error_retry (e : Exn) (s : Engine) :
  reconnect_attempts s < max_reconnect_attempts s ->
  on_capture_error e s =
  (Returned true, retrying e s,
   said (error_callback s) (capture_error_msg e)
   ++ said (error_callback s)
        (reconnect_msg (reconnect_attempts s + 1) (max_reconnect_attempts s))
   ++ [Slept (reconnect_delay s)]).
Proof.
  intros H. apply Z.ltb_lt in H.
  unfold retrying, on_capture_error, report, print, bind, get, modify, emit, skip, ret.
  destruct (error_callback s) eqn:He;
    repeat (cbn -[capture_error_msg reconnect_msg failure_msg Z.ltb Z.add];
            rewrite ?He, ?H);
    reflexivity.
Qed.

Lemma on_capture_error_terminal (e : Exn) (s : Engine) :
  max_reconnect_attempts s <= reconnect_attempts s ->
  on_capture_error e s =
  (Returned false,
   set_is_capturing false (set_last_error (Some (capture_error_msg e)) s),
   said (error_callback s) (capture_error_msg e)
   ++ said (error_callback s) failure_msg).
Proof.
  intros H. apply Z.ltb_ge in H.
  unfold on_capture_error, report, print, bind, get, modify, emit, skip, ret.
  destruct (error_callback s) eqn:He;
    repeat (cbn -[capture_error_msg reconnect_msg failure_msg Z.ltb Z.add];
            rewrite ?He, ?H);
    reflexivity.
Qed.

(** An attempt whose stream cannot be opened raises the exception of the
    opening, on either platform, and leaves the engine as it was. *)
Lemma supervised_failed_open (me : ThreadId) (host : Host) (a : Attempt)
    (e : Exn) (s : Engine) :
  backend_available host = true ->
  stream s = false ->
  fails_to_open s a e ->
  supervised me host a s = on_capture_error e s.
Proof.
  intros Hb Hs [Hd Ho].
  unfold supervised, try_except, _capture_loop_windows, _capture_loop_unix.
  rewrite Hb. cbn [negb].
  unfold try_finally, require_device, release_stream, bind, get, skip, ret,
    raise.
  destruct (platform host);
    repeat (cbn -[on_capture_error]; rewrite ?Hd, ?Ho, ?Hs);
    destruct (on_capture_error e s) as [[o s'] tr]; reflexivity.
Qed.

Lemma capture_loop_step (me : ThreadId) (host : Host) (a : Attempt)
    (rest : list (Event Attempt)) (s : Engine) :
  stop_event s = false ->
  _capture_loop me host (Step a :: rest) s =
  bind (supervised me host a)
       (fun again => if again then _capture_loop me host rest else skip) s.
Proof.
  intros H. cbn [_capture_loop]. unfold bind at 1, get. rewrite H.
  destruct (bind _ _ s) as [[o s'] tr]. reflexivity.
Qed.

Lemma capture_loop_stopped (me : ThreadId) (host : Host)
    (script : list (Event Attempt)) (s : Engine) :
  stop_event s = true ->
  _capture_loop me host script s = (Returned tt, s, []).
Proof.
  intros H. destruct script as [|[a|] rest];
    cbn [_capture_loop]; unfold bind, get; rewrite H; reflexivity.
Qed.

(** A failed opening within the budget: the error and the reconnection
    message are said, the thread sleeps, and the loop goes on with the
    rest of what the environment holds. *)
Lemma failed_open_retries (me : ThreadId) (host : Host) (a : Attempt)
    (e : Exn) (rest : list (Event Attempt)) (s : Engine) :
  backend_available host = true ->
  stop_event s = false ->
  stream s = false ->
  fails_to_open s a e ->
  reconnect_attempts s < max_reconnect_attempts s ->
  _capture_loop me host (Step a :: rest) s =
  (outcome (_capture_loop me host rest (retrying e s)),
   after (_capture_loop me host rest (retrying e s)),
   (said (error_callback s) (capture_error_msg e)
    ++ said (error_callback s)
         (reconnect_msg (reconnect_attempts s + 1) (max_reconnect_attempts s))
    ++ [Slept (reconnect_delay s)])
   ++ effects (_capture_loop me host rest (retrying e s))).
Proof.
  intros Hb Hstop Hs Hf Hlt.
  rewrite capture_loop_step by assumption.
  unfold bind. rewrite (supervised_failed_open me host a e s Hb Hs Hf).
  rewrite on_capture_error_retry by assumption.
  fold (retrying e s).
  destruct (_capture_loop me host rest (retrying e s)) as [[o s'] tr].
  reflexivity.
Qed.

(** A failed opening with the budget used up ends the loop. *)
Lemma failed_open_gives_up (me : ThreadId) (host : Host) (a : Attempt)
    (e : Exn) (rest : list (Event Attempt)) (s : Engine) :
  backend_available host = true ->
  stop_event s = false ->
  stream s = false ->
  fails_to_open s a e ->
  max_reconnect_attempts s <= reconnect_attempts s ->
  _capture_loop me host (Step a :: rest) s =
  (Returned tt,
   set_is_capturing false (set_last_error (Some (capture_error_msg e)) s),
   (said (error_callback s) (capture_error_msg e)
    ++ said (error_callback s) failure_msg) ++ []).
Proof.
  intros Hb Hstop Hs Hf Hge.
  rewrite capture_loop_step by assumption.
  unfold bind. rewrite (supervised_failed_open me host a e s Hb Hs Hf).
  rewrite on_capture_error_terminal by assumption. reflexivity.
Qed.



Lemma fails_to_open_retrying (e' : Exn) (s : Engine) a e :
  fails_to_open s a e -> fails_to_open (retrying e' s) a e.
Proof. exact (fun H => H). Qed.



Ltac retry_once e :=
  rewrite (failed_open_retries _ _ _ e);
  [ | assumption
    | cbn; assumption
    | cbn; assumption
    | repeat apply fails_to_open_retrying; assumption
    | cbn; lia ].

(** C4. With [max_reconnect_attempts = 5] and the counter at zero, each of
    the first five consecutive failures to open the stream is reported,
    followed by the reconnection message numbered 1 to 5 of 5 and by one
    sleep of [reconnect_delay], and is retried; the sixth consecutive
    failure is reported with the final failure message, makes the session
    not capturing and ends the loop, whatever the environment still
    holds. A stream that opens sets the counter to zero. *)
Theorem reconnection_budget (me : ThreadId) (host : Host) (s : Engine)
    (k : ErrorCallback) (a1 a2 a3 a4 a5 a6 : Attempt)
    (e1 e2 e3 e4 e5 e6 : Exn) (rest : list (Event Attempt)) :
  backend_available host = true ->
  max_reconnect_attempts s = 5 ->
  reconnect_attempts s = 0 ->
  stop_event s = false ->
  stream s = false ->
  error_callback s = Some k ->
  fails_to_open s a1 e1 -> fails_to_open s a2 e2 ->
  fails_to_open s a3 e3 -> fails_to_open s a4 e4 ->
  fails_to_open s a5 e5 -> fails_to_open s a6 e6 ->
  let r := _capture_loop me host
             (Step a1 :: Step a2 :: Step a3 :: Step a4 :: Step a5
              :: Step a6 :: rest) s in
  outcome r = Returned tt /\
  is_capturing (after r) = false /\
  reports (effects r) =
    [capture_error_msg e1; reconnect_msg 1 5;
     capture_error_msg e2; reconnect_msg 2 5;
     capture_error_msg e3; reconnect_msg 3 5;
     capture_error_msg e4; reconnect_msg 4 5;
     capture_error_msg e5; reconnect_msg 5 5;
     capture_error_msg e6; failure_msg] /\
  sleeps (effects r) =
    [reconnect_delay s; reconnect_delay s; reconnect_delay s;
     reconnect_delay s; reconnect_delay s] /\
  streams_opened (effects r) = [] /\
  (forall a : Attempt,
      opens s a -> reads a = [] -> polls a = [] ->
      forall n : Z,
        let r' := _capture_loop me host [Step a]
                    (set_reconnect_attempts n s) in
        outcome r' = Pending /\
        streams_opened (effects r') = [current_device_id s] /\
        reconnect_attempts (after r') = 0).
Proof.
  intros Hb Hmax Hn Hstop Hs Hk F1 F2 F3 F4 F5 F6 r. subst r.
  assert (Hn' := Hn). assert (Hmax' := Hmax).
  split; [|split; [|split; [|split; [|split]]]].
  1-5: retry_once e1; retry_once e2; retry_once e3; retry_once e4;
       retry_once e5;
       (rewrite (failed_open_gives_up _ _ _ e6);
        [ | assumption | cbn; assumption | cbn; assumption
          | repeat apply fails_to_open_retrying; assumption
          | cbn; lia ]);
       cbn [outcome after effects fst snd retrying
            error_callback set_last_error set_reconnect_attempts
            max_reconnect_attempts reconnect_attempts reconnect_delay
            is_capturing set_is_capturing];
       rewrite ?Hk, ?Hn, ?Hmax;
       rewrite ?reports_app, ?sleeps_app, ?streams_opened_app;
       reflexivity.
  intros a (Hd & Ho & Hst) Hr Hp n r'. subst r'.
  rewrite capture_loop_step by (cbn; assumption).
  unfold supervised, try_except, _capture_loop_windows,
    _capture_loop_unix, try_finally, require_device, release_stream,
    print, emit, modify, get, skip, ret, raise, pending, bind.
  rewrite Hb.
  destruct (platform host);
    repeat (cbn -[str_opt String.append];
            rewrite ?Hd, ?Ho, ?Hst, ?Hr, ?Hp, ?Hstop);
    repeat split.
Qed.



(** *** A device that has disappeared *)

(** Whichever thread calls it, [stop_capture] on a capturing session sets
    the stop flag first; it then either completes or stops at a [join] of
    the calling thread. *)
Lemma stop_capture_sets_stop (me : ThreadId) (s : Engine) :
  is_capturing s = true ->
  exists o s1 tr,
    stop_capture me s = (o, s1, tr) /\
    (o = Returned tt \/ o = Raised cannot_join) /\
    stop_event s1 = true /\
    supervision_kept s s1 /\
    reports tr = [] /\ sleeps tr = [] /\ streams_opened tr = [].
Proof.
  intros Hc.
  unfold stop_capture, join_if_any, join, print, emit, modify, get, skip,
    ret, raise, bind.
  rewrite Hc. unfold supervision_kept.
  destruct (secondary_device_id s) as [d2|];
    [destruct (secondary_thread s) as [t2|]; [destruct (Nat.eqb t2 me)|]|];
    (destruct (capture_thread s) as [t|]; [destruct (Nat.eqb t me)|]);
    cbn; do 3 eexists; (split; [reflexivity|]);
    cbn; repeat split; auto.
Qed.

Lemma handle_disconnection_sets_stop (me : ThreadId) (s : Engine)
    (k : ErrorCallback) :
  is_capturing s = true ->
  error_callback s = Some k ->
  exists o s1 tr,
    handle_device_disconnection me s = (o, s1, tr) /\
    (o = Returned tt /\
     reports tr = [disconnected_msg (current_device_id s); select_other_msg]
     \/
     o = Raised cannot_join /\
     reports tr = [disconnected_msg (current_device_id s)]) /\
    stop_event s1 = true /\
    supervision_kept s s1 /\
    sleeps tr = [] /\ streams_opened tr = [].
Proof.
  intros Hc Hk.
  destruct (stop_capture_sets_stop me
              (set_last_error (Some (disconnected_msg (current_device_id s))) s)
              Hc)
    as (o & s1 & tr & E & Ho & Hstop & Hkept & Hr & Hsl & Hop).
  unfold handle_device_disconnection, bind at 1, get. rewrite Hc. cbn [negb].
  unfold report, print, emit, modify, get, skip, ret, bind.
  cbn [error_callback set_last_error]. rewrite Hk. cbn [fst snd].
  rewrite E.
  destruct Hkept as (Hk1 & Hkept).
  cbn [error_callback set_last_error] in Hk1.
  destruct Ho as [-> | ->].
  - rewrite Hk1, Hk.
    do 3 eexists. split; [reflexivity|].
    split; [left; split; [reflexivity|]|].
    + cbn [app]. 
      change (Printed ?m :: ErrorReported k ?m' :: ?l)
        with ([Printed m; ErrorReported k m'] ++ l).
      rewrite !reports_app, Hr. reflexivity.
    + split; [exact Hstop|]. split.
      * unfold supervision_kept. split; [congruence|exact Hkept].
      * change (Printed ?m :: ErrorReported k ?m' :: ?l)
          with ([Printed m; ErrorReported k m'] ++ l).
        rewrite !sleeps_app, !streams_opened_app, Hsl, Hop. split; reflexivity.
  - do 3 eexists. split; [reflexivity|].
    split; [right; split; [reflexivity|]|].
    + change (Printed ?m :: ErrorReported k ?m' :: ?l)
        with ([Printed m; ErrorReported k m'] ++ l).
      rewrite !reports_app, Hr. reflexivity.
    + split; [exact Hstop|]. split.
      * unfold supervision_kept. split; [congruence|exact Hkept].
      * change (Printed ?m :: ErrorReported k ?m' :: ?l)
          with ([Printed m; ErrorReported k m'] ++ l).
        rewrite !sleeps_app, !streams_opened_app, Hsl, Hop. split; reflexivity.
Qed.



(** An attempt that finds the device missing never opens a stream: the
    disconnection is handled and the error handler of the loop runs on
    the exception that comes out. *)
Lemma supervised_absent_device (me : ThreadId) (host : Host) (a : Attempt)
    (s : Engine) (k : ErrorCallback) :
  backend_available host = true ->
  is_capturing s = true ->
  error_callback s = Some k ->
  stream s = false ->
  check_device_available (devices a) (current_device_id s) = false ->
  exists e s1 tr,
    supervised me host a s =
      (outcome (on_capture_error e s1), after (on_capture_error e s1),
       tr ++ effects (on_capture_error e s1)) /\
    stop_event s1 = true /\
    supervision_kept s s1 /\
    (exists more, reports tr = disconnected_msg (current_device_id s) :: more) /\
    sleeps tr = [] /\ streams_opened tr = [].
Proof.
  intros Hb Hc Hk Hs Hd.
  destruct (handle_disconnection_sets_stop me s k Hc Hk)
    as (o & s1 & tr & E & Ho & Hstop & Hkept & Hsl & Hop).
  assert (Hs1 : stream s1 = false).
  { destruct Hkept as (_ & _ & _ & _ & H). congruence. }
  exists (match o with
          | Raised x => x
          | _ => not_available (current_device_id s1)
          end), s1, tr.
  split.
  - unfold supervised, try_except, _capture_loop_windows, _capture_loop_unix,
      try_finally, require_device, release_stream.
    rewrite Hb. cbn [negb].
    unfold get, skip, ret, raise, bind.
    destruct (platform host);
      cbn -[handle_device_disconnection on_capture_error str_opt];
      rewrite Hd; cbn -[handle_device_disconnection on_capture_error str_opt];
      rewrite E;
      (destruct Ho as [[-> _] | [-> _]];
       cbn -[on_capture_error str_opt]; rewrite Hs1;
       cbn -[on_capture_error str_opt];
       unfold not_available;
       destruct (on_capture_error _ s1) as [[o' s'] tr'];
       cbn [outcome after effects fst snd]; rewrite ?app_nil_r; reflexivity).
  - split; [exact Hstop|]. split; [exact Hkept|].
    split; [|split; assumption].
    destruct Ho as [[_ ->] | [_ ->]]; eexists; reflexivity.
Qed.





(** The two facts above that do not depend on the reconnection budget. *)
Lemma absent_device_never_opens (me : ThreadId) (host : Host)
    (a : Attempt) (rest : list (Event Attempt)) (s : Engine)
    (k : ErrorCallback) :
  backend_available host = true ->
  is_capturing s = true ->
  stop_event s = false ->
  stream s = false ->
  error_callback s = Some k ->
  check_device_available (devices a) (current_device_id s) = false ->
  streams_opened (effects (_capture_loop me host (Step a :: rest) s)) = [] /\
  hd_error (reports (effects (_capture_loop me host (Step a :: rest) s))) =
    Some (disconnected_msg (current_device_id s)).
Proof.
  intros Hb Hc Hstop Hs Hk Hd.
  destruct (supervised_absent_device me host a s k Hb Hc Hk Hs Hd)
    as (e & s1 & tr & E & Hstop1 & (Hk1 & Hn1 & Hm1 & Hdl1 & Hs1)
        & (more & Hrep) & Hsl & Hop).
  rewrite capture_loop_step by assumption.
  unfold bind. rewrite E.
  destruct (Z.lt_ge_cases (reconnect_attempts s1) (max_reconnect_attempts s1))
    as [Hlt | Hge].
  - rewrite on_capture_error_retry by lia.
    cbn [outcome after effects fst snd].
    rewrite capture_loop_stopped by (cbn; assumption).
    cbn [outcome after effects fst snd].
    rewrite Hk1, Hk, ?app_nil_r.
    rewrite !reports_app, !streams_opened_app, Hrep, Hop.
    split; reflexivity.
  - rewrite on_capture_error_terminal by lia.
    unfold skip, ret. cbn [outcome after effects fst snd].
    rewrite Hk1, Hk, ?app_nil_r.
    rewrite !reports_app, !streams_opened_app, Hrep, Hop.
    split; reflexivity.
Qed.

(** *** Starting one or two sources *)






(** C7. [start_multi_source_capture] with no device returns
    false and does nothing but print; with one device it is
    [start_capture] on that device; with two or more devices, on a
    session that is not capturing, it returns true and starts a capture
    thread for the first and a secondary capture thread for the second;
    on a session that is already capturing it returns false and starts
    nothing. *)
Theorem start_multi_source_capture_spec (cb : ChunkCallback) (s : Engine) :
  start_multi_source_capture [] cb s =
    (Returned false, s, [Printed "Error: No devices specified"]) /\
  (forall device : Z,
      start_multi_source_capture [device] cb s =
      start_capture device cb None s) /\
  (forall (primary secondary : Z) (more : list Z),
      is_capturing s = false ->
      let r := start_multi_source_capture (primary :: secondary :: more) cb s in
      outcome r = Returned true /\
      threads_started (effects r) =
        [(threads_created s, CaptureLoop);
         (S (threads_created s), SecondaryCaptureLoop secondary)] /\
      is_capturing (after r) = true /\
      current_device_id (after r) = Some primary /\
      secondary_device_id (after r) = Some secondary /\
      capture_thread (after r) = Some (threads_created s) /\
      secondary_thread (after r) = Some (S (threads_created s)) /\
      callback (after r) = Some (PrimaryCallback cb)) /\
  (forall (primary secondary : Z) (more : list Z),
      is_capturing s = true ->
      start_multi_source_capture (primary :: secondary :: more) cb s =
      (Returned false, s, [Printed "Warning: Already capturing audio"])).
Proof.
  split; [reflexivity|]. split; [reflexivity|]. split.
  - intros primary secondary more Hc r. subst r.
    unfold start_multi_source_capture. cbn. rewrite Hc. cbn.
    repeat split.
  - intros primary secondary more Hc.
    unfold start_multi_source_capture, bind at 1, get. rewrite Hc.
    reflexivity.
Qed.



(** *** Sessions without an error callback *)

Lemma silent_ret {A} (a : A) : silent (ret a).
Proof. intros s H. now split. Qed.

Lemma silent_get : silent get.
Proof. intros s H. now split. Qed.

Lemma silent_raise {A} (e : Exn) : silent (@raise A e).
Proof. intros s H. now split. Qed.

Lemma silent_pending {A} : silent (@pending A).
Proof. intros s H. now split. Qed.

Lemma silent_modify (f : Engine -> Engine) :
  (forall s, error_callback (f s) = error_callback s) -> silent (modify f).
Proof.
  intros Hf s H. split; [|reflexivity].
  unfold after, modify. cbn [fst snd]. now rewrite Hf.
Qed.

Lemma silent_emit (ev : Effect) : reports [ev] = [] -> silent (emit ev).
Proof. intros Hev s H. now split. Qed.

Lemma silent_report (msg : string) : silent (report msg).
Proof.
  intros s H. unfold report, bind, get. rewrite H. now split.
Qed.

Lemma silent_bind {A B} (m : M A) (f : A -> M B) :
  silent m -> (forall a, silent (f a)) -> silent (bind m f).
Proof.
  intros Hm Hf s H. unfold bind. specialize (Hm s H).
  destruct (m s) as [[[a| e |] s1] t1];
    unfold after, effects in *; cbn [fst snd] in *; try exact Hm.
  destruct Hm as [H1 R1]. specialize (Hf a s1 H1).
  destruct (f a s1) as [[o s2] t2].
  unfold after, effects in *; cbn [fst snd] in *.
  destruct Hf as [H2 R2]. now rewrite reports_app, R1, R2.
Qed.

Lemma silent_try_except {A} (m : M A) (h : Exn -> M A) :
  silent m -> (forall e, silent (h e)) -> silent (try_except m h).
Proof.
  intros Hm Hh s H. unfold try_except. specialize (Hm s H).
  destruct (m s) as [[[a| e |] s1] t1];
    unfold after, effects in *; cbn [fst snd] in *; try exact Hm.
  destruct Hm as [H1 R1]. specialize (Hh e s1 H1).
  destruct (h e s1) as [[o s2] t2].
  unfold after, effects in *; cbn [fst snd] in *.
  destruct Hh as [H2 R2]. now rewrite reports_app, R1, R2.
Qed.

Lemma silent_try_finally {A} (m : M A) (c : M unit) :
  silent m -> silent c -> silent (try_finally m c).
Proof.
  intros Hm Hc s H. unfold try_finally. specialize (Hm s H).
  destruct (m s) as [[o s1] t1].
  unfold after, effects in *; cbn [fst snd] in *.
  destruct Hm as [H1 R1]. specialize (Hc s1 H1).
  destruct (c s1) as [[[[]| e |] s2] t2];
    unfold after, effects in *; cbn [fst snd] in *;
    destruct Hc as [H2 R2];
    destruct o; cbn [fst snd];
    rewrite ?reports_app, ?R1, ?R2; now split.
Qed.

Create HintDb silence.
#[local] Hint Resolve silent_get silent_report : silence.
#[local] Hint Resolve silent_ret silent_raise silent_pending : silence.

(** One step of a proof of silence: a sequence, a write to a field other
    than the error callback, an effect other than a report, or a case
    distinction. *)
Ltac silence_step :=
  first
    [ solve [auto with silence]
    | apply silent_modify; intros ?; reflexivity
    | apply silent_emit; reflexivity
    | apply silent_try_except; [| intros ?]
    | apply silent_try_finally
    | apply silent_bind; [| intros ?]
    | progress cbv zeta
    | match goal with
      | |- silent (if ?b then _ else _) => destruct b
      | |- silent (match ?x with _ => _ end) => destruct x
      end ].

Ltac silence := unfold print, skip; repeat silence_step.

Lemma silent_join (me t : ThreadId) (timeout : Q) : silent (join me t timeout).
Proof. unfold join. silence. Qed.
#[local] Hint Resolve silent_join : silence.

Lemma silent_stop_capture (me : ThreadId) : silent (stop_capture me).
Proof. unfold stop_capture, join_if_any. silence. Qed.
#[local] Hint Resolve silent_stop_capture : silence.

Lemma silent_handle_device_disconnection (me : ThreadId) :
  silent (handle_device_disconnection me).
Proof. unfold handle_device_disconnection. silence. Qed.
#[local] Hint Resolve silent_handle_device_disconnection : silence.

Lemma silent_invoke (cb : ChunkCallback) (audio : Chunk) :
  silent (invoke cb audio).
Proof.
  revert audio. induction cb as [k | user IH]; intros audio; cbn [invoke].
  - silence.
  - unfold primary_append. silence.
Qed.
#[local] Hint Resolve silent_invoke : silence.

Lemma silent_gate_and_forward (audio : Chunk) (rms now : Q) :
  silent (gate_and_forward audio rms now).
Proof.
  unfold gate_and_forward, _update_audio_level, _should_pause_on_silence.
  silence.
Qed.
#[local] Hint Resolve silent_gate_and_forward : silence.

Lemma silent_windows_turn (me : ThreadId) (r : Read) (c : Z) :
  silent (windows_turn me r c).
Proof. unfold windows_turn. silence. Qed.
#[local] Hint Resolve silent_windows_turn : silence.

Lemma silent_windows_read_loop (me : ThreadId) (reads : list (Event Read)) :
  forall c, silent (windows_read_loop me reads c).
Proof.
  induction reads as [| [r|] rest IH]; intros c; cbn [windows_read_loop];
    silence; apply IH.
Qed.
#[local] Hint Resolve silent_windows_read_loop : silence.

Lemma silent_unix_turn (me : ThreadId) (p : Poll) (c : Z) :
  silent (unix_turn me p c).
Proof. unfold unix_turn. silence. Qed.
#[local] Hint Resolve silent_unix_turn : silence.

Lemma silent_unix_poll_loop (me : ThreadId) (polls : list (Event Poll)) :
  forall c, silent (unix_poll_loop me polls c).
Proof.
  induction polls as [| [p|] rest IH]; intros c; cbn [unix_poll_loop];
    silence; apply IH.
Qed.
#[local] Hint Resolve silent_unix_poll_loop : silence.

Lemma silent_supervised (me : ThreadId) (host : Host) (a : Attempt) :
  silent (supervised me host a).
Proof.
  unfold supervised, _capture_loop_windows, _capture_loop_unix,
    require_device, release_stream, on_capture_error.
  silence.
Qed.
#[local] Hint Resolve silent_supervised : silence.





(** *** The properties on the example sessions *)





(** C4 as stated fails: after the fifth consecutive failure the
    supervisor announces reconnection 5 of 5, sleeps and tries again;
    here the sixth attempt opens the stream and the session is still
    capturing. *)
Lemma fifth_failure_is_retried :
  let script := [Step open_fails; Step open_fails; Step open_fails;
                 Step open_fails; Step open_fails; Step opens_fine] in
  outcome (_capture_loop 1%nat windows script capturing) = Pending /\
  last (reports (effects (_capture_loop 1%nat windows script capturing))) ""
    = "Attempting to reconnect (5/5)..." /\
  sleeps (effects (_capture_loop 1%nat windows script capturing))
    = [5; 5; 5; 5; 5]%Q /\
  streams_opened (effects (_capture_loop 1%nat windows script capturing))
    = [Some 3] /\
  is_capturing (after (_capture_loop 1%nat windows script capturing)) = true.
Proof. vm_compute. repeat split. Qed.

Lemma reconnection_budget_witness :
  let script := [Step open_fails; Step open_fails; Step open_fails;
                 Step open_fails; Step open_fails; Step open_fails] in
  outcome (_capture_loop 1%nat windows script capturing) = Returned tt /\
  is_capturing (after (_capture_loop 1%nat windows script capturing)) = false.
Proof.
  pose proof (reconnection_budget 1%nat windows capturing 7%nat
                open_fails open_fails open_fails open_fails open_fails
                open_fails
                (mkExn OSError "Unanticipated host error")
                (mkExn OSError "Unanticipated host error")
                (mkExn OSError "Unanticipated host error")
                (mkExn OSError "Unanticipated host error")
                (mkExn OSError "Unanticipated host error")
                (mkExn OSError "Unanticipated host error")
                [] eq_refl eq_refl eq_refl eq_refl eq_refl eq_refl
                (conj eq_refl eq_refl) (conj eq_refl eq_refl)
                (conj eq_refl eq_refl) (conj eq_refl eq_refl)
                (conj eq_refl eq_refl) (conj eq_refl eq_refl)) as H.
  split; [exact (proj1 H) | exact (proj1 (proj2 H))].
Defined.

(** C7 as stated fails: on the capturing example session two device ids
    start nothing; the call returns false and leaves the session as it
    is. *)
Lemma multi_source_refused_while_capturing :
  outcome (start_multi_source_capture [1; 2] (ClientCallback 0) capturing)
    = Returned false /\
  threads_started
    (effects (start_multi_source_capture [1; 2] (ClientCallback 0) capturing))
    = [] /\
  after (start_multi_source_capture [1; 2] (ClientCallback 0) capturing)
    = capturing.
Proof. repeat split. Qed.

Lemma start_multi_source_capture_witness :
  outcome (start_multi_source_capture [1; 2] (ClientCallback 0) idle)
    = Returned true /\
  threads_started
    (effects (start_multi_source_capture [1; 2] (ClientCallback 0) idle))
    = [(1%nat, CaptureLoop); (2%nat, SecondaryCaptureLoop 2)].
Proof.
  pose proof (proj1 (proj2 (proj2
                (start_multi_source_capture_spec (ClientCallback 0) idle)))
                1 2 [] eq_refl) as H.
  split; [exact (proj1 H) | exact (proj1 (proj2 H))].
Defined.

(** C8 as stated fails: on a capturing session without a callback,
    [set_device] stops the session and does not start it again; and on
    the two-source session that was switched to device [5], the callback
    that is registered again is the closure of the mixer, so that a chunk
    at level 0.5 is queued and the client's callable is not called. *)
Lemma set_device_does_not_always_restart :
  is_capturing (set_callback None capturing) = true /\
  is_capturing (after (set_device 0%nat 4 (set_callback None capturing)))
  = false /\
  threads_started (effects (set_device 0%nat 4 (set_callback None capturing)))
  = [] /\
  is_capturing mixed_then_switched = true /\
  delivered
    (effects (gate_and_forward [1 # 2; 1 # 2]%Q (1 # 2) 10
                mixed_then_switched))
  = [] /\
  primary_buffer
    (after (gate_and_forward [1 # 2; 1 # 2]%Q (1 # 2) 10
              mixed_then_switched))
  = [[1 # 2; 1 # 2]%Q].
Proof. repeat split. Qed.

Lemma set_device_witness :
  is_capturing (after (set_device 0%nat 4 capturing)) = true /\
  current_device_id (after (set_device 0%nat 4 capturing)) = Some 4 /\
  callback (after (set_device 0%nat 4 capturing)) = Some (ClientCallback 0) /\
  effects (gate_and_forward [1 # 2; 1 # 2]%Q (1 # 2) 10
             (after (set_device 0%nat 4 capturing)))
  = [ChunkDelivered 0 [1 # 2; 1 # 2]%Q].
Proof.
  assert (Hne : (1 <> 0)%nat) by lia.
  assert (Hsec : secondary_thread capturing <> Some 0%nat)
    by (vm_compute; discriminate).
  pose proof (proj1 (proj2 (set_device_spec 0%nat 4 capturing)) 1%nat 0%nat
                eq_refl eq_refl eq_refl Hne Hsec) as H.
  cbv zeta in H.
  destruct H as (_ & _ & _ & _ & H1 & H2 & H3 & H4 & _).
  split; [exact H1|]. split; [exact H2|]. split; [exact H3|].
  rewrite (H4 [1 # 2; 1 # 2]%Q (1 # 2) 10%Q);
    [reflexivity | discriminate | unfold Qle; cbn; lia].
Defined.

Lemma stop_capture_witness :
  stop_event (after (stop_capture 0%nat capturing)) = true /\
  is_capturing (after (stop_capture 0%nat capturing)) = false /\
  current_device_id (after (stop_capture 0%nat capturing)) = None /\
  outcome (stop_capture 1%nat capturing) = Raised cannot_join /\
  is_capturing (after (stop_capture 1%nat capturing)) = true /\
  current_device_id (after (stop_capture 1%nat capturing)) = Some 3.
Proof.
  assert (Hne : (1 <> 0)%nat) by lia.
  assert (Hsec : secondary_thread capturing <> Some 0%nat)
    by (vm_compute; discriminate).
  pose proof (proj1 (proj2 (stop_capture_spec 0%nat capturing)) 1%nat
                eq_refl eq_refl Hne Hsec) as H.
  pose proof (proj2 (proj2 (stop_capture_spec 1%nat capturing))
                eq_refl eq_refl) as H'.
  cbv zeta in H, H'.
  destruct H as (_ & H1 & _ & H2 & H3 & _).
  destruct H' as (G1 & _ & _ & G2 & G3 & _).
  repeat split; assumption.
Defined.



(** *** Device enumeration *)

Section Collect.

Context {X : Type} (f : Z -> X -> option AudioDevice).
Hypothesis f_id : forall i x d, f i x = Some d -> id d = i.

Lemma collect_ids (entries : list X) :
  forall i, Forall (fun d => i <= id d < i + Z.of_nat (length entries))
                   (collect f i entries).
Proof.
  induction entries as [|x rest IH]; intros i; cbn [collect]; [constructor|].
  assert (Hrest : Forall (fun d => i <= id d < i + Z.of_nat (length (x :: rest)))
                         (collect f (i + 1) rest)).
  { eapply Forall_impl; [|apply IH]. cbn [length]. intros d Hd. lia. }
  destruct (f i x) as [d|] eqn:E; [|exact Hrest].
  constructor; [|exact Hrest].
  rewrite (f_id _ _ _ E). cbn [length]. lia.
Qed.

Lemma collect_sorted (entries : list X) :
  forall i, StronglySorted (fun a b => id a < id b) (collect f i entries).
Proof.
  induction entries as [|x rest IH]; intros i; cbn [collect]; [constructor|].
  destruct (f i x) as [d|] eqn:E; [|apply IH].
  constructor; [apply IH|].
  eapply Forall_impl; [|apply collect_ids].
  intros d' Hd'. cbn beta in Hd'. rewrite (f_id _ _ _ E). lia.
Qed.

Lemma collect_all (P : AudioDevice -> Prop) (entries : list X) :
  (forall i x d, f i x = Some d -> P d) ->
  forall i, Forall P (collect f i entries).
Proof.
  intros HP. induction entries as [|x rest IH]; intros i; cbn [collect];
    [constructor|].
  destruct (f i x) as [d|] eqn:E; [|apply IH].
  constructor; [eapply HP; exact E | apply IH].
Qed.

Lemma collect_available (j : Z) (entries : list X) :
  forall i,
    existsb (fun dev => id dev =? j) (collect f i entries) =
    if j <? i then false
    else match nth_error entries (Z.to_nat (j - i)) with
         | Some x => match f j x with
                     | Some _ => true
                     | None => false
                     end
         | None => false
         end.
Proof.
  induction entries as [|x rest IH]; intros i; cbn [collect existsb].
  - destruct (j <? i); [reflexivity|]. now destruct (Z.to_nat (j - i)).
  - assert (Htail :
      existsb (fun dev => id dev =? j) (collect f (i + 1) rest) =
      if j <=? i then false
      else match nth_error (x :: rest) (Z.to_nat (j - i)) with
           | Some x => match f j x with Some _ => true | None => false end
           | None => false
           end).
    { rewrite IH. destruct (Z.ltb_spec j (i + 1)) as [H1|H1];
        destruct (Z.leb_spec j i) as [H2|H2]; try reflexivity;
        try (exfalso; lia).
      replace (Z.to_nat (j - i)) with (S (Z.to_nat (j - (i + 1)))) by lia.
      reflexivity. }
    destruct (Z.ltb_spec j i) as [Hlt | Hge].
    + assert (Hno : existsb (fun dev => id dev =? j)
                            (collect f (i + 1) rest) = false).
      { rewrite Htail. destruct (Z.leb_spec j i); [reflexivity | lia]. }
      destruct (f i x) as [d|] eqn:E; [|exact Hno].
      cbn [existsb]. rewrite Hno, (f_id _ _ _ E).
      destruct (Z.eqb_spec i j); [lia | reflexivity].
    + destruct (Z.eq_dec j i) as [-> | Hne].
      * replace (i - i) with 0 by lia. cbn [Z.to_nat nth_error].
        destruct (f i x) as [d|] eqn:E.
        -- cbn [existsb]. rewrite (f_id _ _ _ E), Z.eqb_refl. reflexivity.
        -- rewrite Htail. destruct (Z.leb_spec i i); [reflexivity | lia].
      * assert (Hgt : (j <=? i) = false) by (apply Z.leb_gt; lia).
        rewrite Hgt in Htail.
        destruct (f i x) as [d|] eqn:E; [|exact Htail].
        cbn [existsb]. rewrite Htail, (f_id _ _ _ E).
        destruct (Z.eqb_spec i j); [lia | reflexivity].
Qed.

End Collect.

Lemma windows_devices_collect (default_output_idx i : Z) infos :
  windows_devices default_output_idx i infos
  = collect (windows_device default_output_idx) i infos.
Proof.
  revert i. induction infos as [|x rest IH]; intros i; cbn; [reflexivity|].
  now rewrite IH.
Qed.

Lemma unix_devices_collect lower darwin default (i : Z) infos :
  unix_devices lower darwin default i infos
  = collect (unix_device lower darwin default) i infos.
Proof.
  revert i. induction infos as [|x rest IH]; intros i; cbn; [reflexivity|].
  now rewrite IH.
Qed.

Lemma windows_device_id default_output_idx i x d :
  windows_device default_output_idx i x = Some d -> id d = i.
Proof.
  unfold windows_device. destruct x as [info|]; [|discriminate].
  destruct (_ <=? 0); [discriminate|]. now intros [= <-].
Qed.

Lemma unix_device_id lower darwin default i x d :
  unix_device lower darwin default i x = Some d -> id d = i.
Proof.
  unfold unix_device. destruct (_ <=? 0); [discriminate|]. now intros [= <-].
Qed.

Lemma windows_device_channels default_output_idx i x d :
  windows_device default_output_idx i x = Some d ->
  0 < channels d /\
  (is_default d = true -> is_loopback d = true /\ id d = default_output_idx).
Proof.
  unfold windows_device. destruct x as [info|]; [|discriminate].
  destruct (maxInputChannels info) as [c|]; cbn [get_or].
  - destruct (Z.leb_spec c 0); [discriminate|]. intros [= <-]. cbn.
    split; [assumption|]. intros Hd. apply andb_prop in Hd as [H1 H2].
    split; [assumption | now apply Z.eqb_eq].
  - discriminate.
Qed.

Lemma unix_device_channels lower darwin default i x d :
  unix_device lower darwin default i x = Some d ->
  0 < channels d /\ (is_default d = true -> default = Some (id d)).
Proof.
  unfold unix_device.
  destruct (max_input_channels x) as [c|]; cbn [get_or].
  - destruct (Z.leb_spec c 0); [discriminate|]. intros [= <-]. cbn.
    split; [assumption|]. destruct default as [dflt|]; [|discriminate].
    intros Hd. apply Z.eqb_eq in Hd. now subst.
  - discriminate.
Qed.

(** In a list sorted by strictly increasing id, at most one device has a
    given id. *)
Lemma sorted_one_with (P : AudioDevice -> bool) (k : Z)
    (l : list AudioDevice) :
  StronglySorted (fun a b => id a < id b) l ->
  Forall (fun d => P d = true -> id d = k) l ->
  (length (filter P l) <= 1)%nat.
Proof.
  induction l as [|a l IH]; intros Hs Hk; [cbn; lia|].
  inversion Hs as [|? ? Hs' Hlt]; subst.
  inversion Hk as [|? ? Ha Hk']; subst.
  cbn [filter]. destruct (P a) eqn:Pa; [|now apply IH].
  assert (Hnone : filter P l = []).
  { clear IH Hs Hk Hs'. induction l as [|b l IHl]; [reflexivity|].
    inversion Hlt; subst. inversion Hk'; subst.
    cbn [filter]. destruct (P b) eqn:Pb; [|now apply IHl].
    specialize (Ha eq_refl). specialize (H3 eq_refl). lia. }
  rewrite Hnone. cbn. lia.
Qed.

Lemma sorted_ids_nodup (l : list AudioDevice) :
  StronglySorted (fun a b => id a < id b) l -> NoDup (map id l).
Proof.
  induction 1 as [|a l Hs IH Hlt]; cbn; constructor; [|assumption].
  intros Hin. apply in_map_iff in Hin as (b & Hb & Hin).
  rewrite Forall_forall in Hlt. specialize (Hlt b Hin). lia.
Qed.

(** X5. Whatever the backend answers, on every platform, the devices that
    [list_devices] returns all have at least one input channel, carry the
    backend's index as id, in strictly increasing order and so without
    duplicates, and at most one of them is marked as the default device;
    on Windows the default device is always a loopback device. A backend
    that is missing or whose query raises gives the empty list. *)
Theorem list_devices_invariants (lower : string -> string)
    (backend : Backend) :
  let l := list_devices lower backend in
  Forall (fun d => 0 < channels d /\ 0 <= id d) l /\
  StronglySorted (fun a b => id a < id b) l /\
  NoDup (map id l) /\
  (length (filter is_default l) <= 1)%nat /\
  (forall b, backend = OnWindows b ->
     Forall (fun d => is_default d = true -> is_loopback d = true) l) /\
  (answers backend = false -> l = []).
Proof.
  cbv zeta.
  assert (Hs : StronglySorted (fun a b => id a < id b)
                 (list_devices lower backend)).
  { destruct backend as [b | darwin b]; cbn [list_devices].
    - unfold _list_devices_windows.
      destruct (pyaudio_instance b); cbn [negb]; [|constructor].
      destruct (wasapi_info b) as [dflt|]; [|constructor].
      rewrite windows_devices_collect.
      apply collect_sorted, windows_device_id.
    - unfold _list_devices_unix.
      destruct (SOUNDDEVICE_AVAILABLE b); cbn [negb]; [|constructor].
      destruct (query_devices b) as [infos|]; [|constructor].
      rewrite unix_devices_collect.
      apply collect_sorted. apply unix_device_id. }
  split; [|split; [exact Hs|split; [now apply sorted_ids_nodup|]]].
  - destruct backend as [b | darwin b]; cbn [list_devices].
    + unfold _list_devices_windows.
      destruct (pyaudio_instance b); cbn [negb]; [|constructor].
      destruct (wasapi_info b) as [dflt|]; [|constructor].
      rewrite windows_devices_collect.
      apply Forall_and.
      * apply collect_all. intros i x d E.
        exact (proj1 (windows_device_channels _ _ _ _ E)).
      * eapply Forall_impl; [|apply collect_ids, windows_device_id].
        intros d Hd. cbn beta in Hd. lia.
    + unfold _list_devices_unix.
      destruct (SOUNDDEVICE_AVAILABLE b); cbn [negb]; [|constructor].
      destruct (query_devices b) as [infos|]; [|constructor].
      rewrite unix_devices_collect.
      apply Forall_and.
      * apply collect_all. intros i x d E.
        exact (proj1 (unix_device_channels _ _ _ _ _ _ E)).
      * eapply Forall_impl; [|apply collect_ids; apply unix_device_id].
        intros d Hd. cbn beta in Hd. lia.
  - split; [|split].
    + destruct backend as [b | darwin b]; cbn [list_devices] in *.
      * unfold _list_devices_windows in *.
        destruct (pyaudio_instance b); cbn [negb] in *; [|cbn; lia].
        destruct (wasapi_info b) as [dflt|]; [|cbn; lia].
        apply (sorted_one_with _ (get_or dflt (-1))); [exact Hs|].
        rewrite windows_devices_collect. apply collect_all.
        intros i x d E H.
        exact (proj2 (proj2 (windows_device_channels _ _ _ _ E) H)).
      * unfold _list_devices_unix in *.
        destruct (SOUNDDEVICE_AVAILABLE b); cbn [negb] in *; [|cbn; lia].
        destruct (query_devices b) as [infos|]; [|cbn; lia].
        apply (sorted_one_with _ (get_or (default_input b) (-1)));
          [exact Hs|].
        rewrite unix_devices_collect. apply collect_all.
        intros i x d E H.
        rewrite (proj2 (unix_device_channels _ _ _ _ _ _ E) H).
        reflexivity.
    + intros b ->. cbn [list_devices]. unfold _list_devices_windows.
      destruct (pyaudio_instance b); cbn [negb]; [|constructor].
      destruct (wasapi_info b) as [dflt|]; [|constructor].
      rewrite windows_devices_collect. apply collect_all.
      intros i x d E H.
      exact (proj1 (proj2 (windows_device_channels _ _ _ _ E) H)).
    + destruct backend as [b | darwin b]; cbn [list_devices answers].
      * unfold _list_devices_windows.
        destruct (pyaudio_instance b); cbn [negb andb]; [|reflexivity].
        destruct (wasapi_info b); [discriminate | reflexivity].
      * unfold _list_devices_unix.
        destruct (SOUNDDEVICE_AVAILABLE b); cbn [negb andb]; [|reflexivity].
        destruct (query_devices b); [discriminate | reflexivity].
Qed.

(** X6. [check_device_available] on what [list_devices] returns answers
    true for an id exactly when the backend is there and answers, the id
    is an index of its device list whose query does not raise, and that
    device has at least one input channel. *)
Theorem available_iff_input_device (lower : string -> string)
    (backend : Backend) (j : Z) :
  check_device_available (list_devices lower backend) (Some j) =
  answers backend &&
  match input_channels backend j with
  | Some c => 0 <? c
  | None => false
  end.
Proof.
  unfold check_device_available, input_channels.
  destruct backend as [b | darwin b]; cbn [list_devices answers].
  - unfold _list_devices_windows.
    destruct (pyaudio_instance b); cbn [negb andb]; [|reflexivity].
    destruct (wasapi_info b) as [dflt|]; [|reflexivity].
    rewrite windows_devices_collect.
    rewrite (collect_available _ (windows_device_id _)).
    rewrite Z.sub_0_r.
    destruct (j <? 0); [reflexivity|].
    destruct (nth_error (device_infos b) (Z.to_nat j)) as [[info|]|];
      try reflexivity.
    unfold windows_device.
    destruct (Z.leb_spec (get_or (maxInputChannels info) 0) 0);
      symmetry; [apply Z.ltb_ge | apply Z.ltb_lt]; assumption.
  - unfold _list_devices_unix.
    destruct (SOUNDDEVICE_AVAILABLE b); cbn [negb andb]; [|reflexivity].
    destruct (query_devices b) as [infos|]; [|reflexivity].
    rewrite unix_devices_collect.
    rewrite (collect_available _ (unix_device_id _ _ _)).
    rewrite Z.sub_0_r. cbn [get_or].
    destruct (j <? 0); [reflexivity|].
    destruct (nth_error infos (Z.to_nat j)) as [info|]; try reflexivity.
    unfold unix_device.
    destruct (Z.leb_spec (get_or (max_input_channels info) 0) 0);
      symmetry; [apply Z.ltb_ge | apply Z.ltb_lt]; assumption.
Qed.


(** *** Invariants of the capture thread *)

Section Keeping.

Variable I : Engine -> Prop.
Variable ok : Effect -> Prop.

Lemma keeps_ret {A} (a : A) : keeps I ok (ret a).
Proof. intros s H. split; [exact H | constructor]. Qed.

Lemma keeps_get : keeps I ok get.
Proof. intros s H. split; [exact H | constructor]. Qed.

Lemma keeps_raise {A} (e : Exn) : keeps I ok (@raise A e).
Proof. intros s H. split; [exact H | constructor]. Qed.

Lemma keeps_pending {A} : keeps I ok (@pending A).
Proof. intros s H. split; [exact H | constructor]. Qed.

Lemma keeps_modify (f : Engine -> Engine) :
  (forall s, I s -> I (f s)) -> keeps I ok (modify f).
Proof. intros Hf s H. split; [now apply Hf | constructor]. Qed.

Lemma keeps_emit (ev : Effect) : ok ev -> keeps I ok (emit ev).
Proof. intros Hev s H. split; [exact H | now repeat constructor]. Qed.

Lemma keeps_report (msg : string) :
  (forall k, ok (ErrorReported k msg)) -> keeps I ok (report msg).
Proof.
  intros Hok s H. unfold report, bind, get.
  destruct (error_callback s) as [k|]; cbn.
  - split; [exact H | repeat constructor; apply Hok].
  - split; [exact H | constructor].
Qed.

Lemma keeps_bind {A B} (m : M A) (f : A -> M B) :
  keeps I ok m -> (forall a, keeps I ok (f a)) -> keeps I ok (bind m f).
Proof.
  intros Hm Hf s H. unfold bind. specialize (Hm s H).
  destruct (m s) as [[[a| e |] s1] t1];
    unfold after, effects in *; cbn [fst snd] in *; try exact Hm.
  destruct Hm as [H1 R1]. specialize (Hf a s1 H1).
  destruct (f a s1) as [[o s2] t2].
  unfold after, effects in *; cbn [fst snd] in *.
  destruct Hf as [H2 R2]. split; [exact H2 | now apply Forall_app].
Qed.

Lemma keeps_try_except {A} (m : M A) (h : Exn -> M A) :
  keeps I ok m -> (forall e, keeps I ok (h e)) -> keeps I ok (try_except m h).
Proof.
  intros Hm Hh s H. unfold try_except. specialize (Hm s H).
  destruct (m s) as [[[a| e |] s1] t1];
    unfold after, effects in *; cbn [fst snd] in *; try exact Hm.
  destruct Hm as [H1 R1]. specialize (Hh e s1 H1).
  destruct (h e s1) as [[o s2] t2].
  unfold after, effects in *; cbn [fst snd] in *.
  destruct Hh as [H2 R2]. split; [exact H2 | now apply Forall_app].
Qed.

Lemma keeps_try_finally {A} (m : M A) (c : M unit) :
  keeps I ok m -> keeps I ok c -> keeps I ok (try_finally m c).
Proof.
  intros Hm Hc s H. unfold try_finally. specialize (Hm s H).
  destruct (m s) as [[o s1] t1].
  unfold after, effects in *; cbn [fst snd] in *.
  destruct Hm as [H1 R1]. specialize (Hc s1 H1).
  destruct (c s1) as [[[[]| e |] s2] t2];
    unfold after, effects in *; cbn [fst snd] in *;
    destruct Hc as [H2 R2];
    destruct o; cbn [fst snd];
    (split; [assumption | try assumption; now apply Forall_app]).
Qed.

End Keeping.

Create HintDb keeping.

(** One step of a proof that a computation keeps an invariant; [side]
    settles what a write or an effect must satisfy. *)
Ltac keeping_step side :=
  first
    [ assumption
    | solve [auto 2 with keeping]
    | apply keeps_ret | apply keeps_get | apply keeps_raise
    | apply keeps_pending
    | apply keeps_modify; intros ? ?; side
    | apply keeps_emit; side
    | apply keeps_report; intros ?; side
    | apply keeps_try_except; [| intros ?]
    | apply keeps_try_finally
    | apply keeps_bind; [| intros ?]
    | progress cbv zeta
    | match goal with
      | |- keeps _ _ (if ?b then _ else _) => destruct b
      | |- keeps _ _ (match ?x with _ => _ end) => destruct x
      end ].

Ltac keeping side := unfold print, skip; repeat keeping_step side.

Lemma gate_and_forward_forward (audio : Chunk) (rms now : Q) :
  gate_and_forward audio rms now =
  (_update_audio_level audio rms ;;
   pause <- _should_pause_on_silence now ;;
   s <- get ;;
   if pause then
     if negb (is_paused s) then
       print "Pausing on silence" ;;
       modify (set_is_paused true)
     else skip
   else
     (if is_paused s then
        print "Resuming from silence" ;;
        modify (set_is_paused false)
      else skip) ;;
     forward audio).
Proof. reflexivity. Qed.

(** *** What the capture thread keeps: the general argument *)

Section Thread.

Variable Inv : Engine -> Prop.
Variable ok : Effect -> Prop.
Variable good : Q -> Prop.

Hypothesis Inv_write : forall f, thread_write f -> forall s, Inv s -> Inv (f s).
Hypothesis ok_effect : forall ev, thread_effect ev -> ok ev.

Ltac side :=
  first [ apply Inv_write; [constructor | assumption]
        | apply ok_effect; exact Logic.I ].

Lemma keeps_join (me t : ThreadId) (timeout : Q) :
  keeps Inv ok (join me t timeout).
Proof. unfold join. keeping side. Qed.
#[local] Hint Resolve keeps_join : keeping.

Lemma keeps_stop_capture (me : ThreadId) : keeps Inv ok (stop_capture me).
Proof. unfold stop_capture, join_if_any. keeping side. Qed.
#[local] Hint Resolve keeps_stop_capture : keeping.

Lemma keeps_handle_device_disconnection (me : ThreadId) :
  keeps Inv ok (handle_device_disconnection me).
Proof. unfold handle_device_disconnection. keeping side. Qed.
#[local] Hint Resolve keeps_handle_device_disconnection : keeping.

Lemma keeps_should_pause_on_silence (now : Q) :
  keeps Inv ok (_should_pause_on_silence now).
Proof. unfold _should_pause_on_silence. keeping side. Qed.
#[local] Hint Resolve keeps_should_pause_on_silence : keeping.

Hypothesis Inv_level :
  forall rms s, good rms -> Inv s ->
                Inv (set_current_audio_level (Qmin rms 1) s).
Hypothesis keeps_forward : forall audio, keeps Inv ok (forward audio).

Lemma keeps_gate_and_forward (audio : Chunk) (rms now : Q) :
  good rms -> keeps Inv ok (gate_and_forward audio rms now).
Proof.
  intros Hg. rewrite gate_and_forward_forward.
  apply keeps_bind.
  - unfold _update_audio_level.
    destruct (0 <? length audio)%nat; [|apply keeps_ret].
    apply keeps_modify. intros s Hs. now apply Inv_level.
  - intros _. keeping side.
Qed.

Lemma keeps_windows_turn (me : ThreadId) (r : Read) (c : Z) :
  good (rms_of_read (Step r)) -> keeps Inv ok (windows_turn me r c).
Proof.
  intros Hg. unfold windows_turn. apply keeps_try_except.
  - destruct r as [audio rms now | e]; [|apply keeps_raise].
    apply keeps_bind; [now apply keeps_gate_and_forward|].
    intros _. apply keeps_ret.
  - intros e. keeping side.
Qed.

Lemma keeps_windows_read_loop (me : ThreadId) (reads : list (Event Read)) :
  Forall good (map rms_of_read reads) ->
  forall c, keeps Inv ok (windows_read_loop me reads c).
Proof.
  induction reads as [|[r|] rest IH]; intros Hg c; cbn [windows_read_loop];
    try (inversion Hg; subst).
  - keeping side.
  - apply keeps_bind; [apply keeps_get|]. intros s.
    destruct (stop_event s); [apply keeps_ret|].
    apply keeps_bind; [now apply keeps_windows_turn|].
    intros c'. now apply IH.
  - apply keeps_bind; [apply keeps_get|]. intros s.
    destruct (stop_event s); [apply keeps_ret|].
    apply keeps_bind; [apply keeps_modify; intros ? ?; side|].
    intros _. now apply IH.
Qed.

Lemma keeps_unix_turn (me : ThreadId) (p : Poll) (c : Z) :
  good (rms_of_poll (Step p)) -> keeps Inv ok (unix_turn me p c).
Proof.
  intros Hg. unfold unix_turn.
  apply keeps_bind; [apply keeps_emit; side|]. intros _.
  apply keeps_bind; [keeping side|]. intros c'.
  apply keeps_bind; [|intros _; apply keeps_ret].
  destruct p as [st [[[audio rms] now]|]]; cbn [buffered];
    [now apply keeps_gate_and_forward | apply keeps_ret].
Qed.

Lemma keeps_unix_poll_loop (me : ThreadId) (polls : list (Event Poll)) :
  Forall good (map rms_of_poll polls) ->
  forall c, keeps Inv ok (unix_poll_loop me polls c).
Proof.
  induction polls as [|[p|] rest IH]; intros Hg c; cbn [unix_poll_loop];
    try (inversion Hg; subst).
  - keeping side.
  - apply keeps_bind; [apply keeps_get|]. intros s.
    destruct (stop_event s); [apply keeps_ret|].
    apply keeps_bind; [now apply keeps_unix_turn|].
    intros c'. now apply IH.
  - apply keeps_bind; [apply keeps_get|]. intros s.
    destruct (stop_event s); [apply keeps_ret|].
    apply keeps_bind; [apply keeps_modify; intros ? ?; side|].
    intros _. now apply IH.
Qed.

Lemma keeps_require_device (me : ThreadId) (a : Attempt) :
  keeps Inv ok (require_device me a).
Proof. unfold require_device. keeping side. Qed.

Hypothesis Inv_stream : forall b s, Inv s -> Inv (set_stream b s).
Hypothesis Inv_reset : forall s, Inv s -> Inv (set_reconnect_attempts 0 s).
Hypothesis ok_opened : forall d, ok (StreamOpened d).
Hypothesis ok_closed : ok StreamClosed.
Hypothesis keeps_on_capture_error : forall e, keeps Inv ok (on_capture_error e).

Ltac side' :=
  first [ side | apply Inv_stream; assumption | apply Inv_reset; assumption
        | apply ok_opened | apply ok_closed ].

Lemma keeps_release_stream : keeps Inv ok release_stream.
Proof. unfold release_stream. keeping side'. Qed.

Lemma keeps_supervised (me : ThreadId) (host : Host) (a : Attempt) :
  Forall good (measured (Step a)) ->
  keeps Inv ok (supervised me host a).
Proof.
  intros Hg. cbn [measured] in Hg. apply Forall_app in Hg as [Hr Hp].
  pose proof (keeps_windows_read_loop me (reads a) Hr 0) as Hw.
  pose proof (keeps_unix_poll_loop me (polls a) Hp 0) as Hu.
  pose proof (keeps_require_device me a) as Hq.
  pose proof keeps_release_stream as Hrel.
  unfold supervised. apply keeps_try_except; [|apply keeps_on_capture_error].
  apply keeps_bind; [|intros _; apply keeps_ret].
  destruct (platform host);
    unfold _capture_loop_windows, _capture_loop_unix; keeping side'.
Qed.

Lemma keeps_capture_loop (me : ThreadId) (host : Host)
    (script : list (Event Attempt)) :
  Forall good (flat_map measured script) ->
  keeps Inv ok (_capture_loop me host script).
Proof.
  induction script as [|[a|] rest IH]; intros Hg; cbn [_capture_loop];
    cbn [flat_map] in Hg.
  - keeping side.
  - apply Forall_app in Hg as [Ha Hrest].
    apply keeps_bind; [apply keeps_get|]. intros s.
    destruct (stop_event s); [apply keeps_ret|].
    apply keeps_bind; [now apply keeps_supervised|].
    intros [|]; [now apply IH | apply keeps_ret].
  - apply keeps_bind; [apply keeps_get|]. intros s.
    destruct (stop_event s); [apply keeps_ret|].
    apply keeps_bind; [apply keeps_modify; intros ? ?; side|].
    intros _. now apply IH.
Qed.

End Thread.

(** *** Two sources interleaved *)

Lemma arrive_secondary (cb : ChunkCallback) (c : Chunk) (s : Engine) :
  arrive cb (FromSecondary c) s =
  (Returned tt, set_secondary_buffer (secondary_buffer s ++ [c]) s, []).
Proof. reflexivity. Qed.

Lemma arrive_primary_waits (k : nat) (c : Chunk) (s : Engine) :
  secondary_buffer s = [] ->
  arrive (ClientCallback k) (FromPrimary c) s =
  (Returned tt, set_primary_buffer (primary_buffer s ++ [c]) s, []).
Proof.
  intros Hq. cbn [arrive invoke]. unfold primary_append, bind at 1.
  unfold bind at 1, get, modify.
  rewrite mix_waits by (right; exact Hq). reflexivity.
Qed.

Lemma arrive_primary_mixes (k : nat) (c p q : Chunk) (ps qs : list Chunk)
    (s : Engine) :
  primary_buffer s ++ [c] = p :: ps ->
  secondary_buffer s = q :: qs ->
  arrive (ClientCallback k) (FromPrimary c) s =
  (Returned tt, set_secondary_buffer qs (set_primary_buffer ps s),
   [ChunkDelivered k (mixed p q)]).
Proof.
  intros Hp Hq. cbn [arrive invoke]. unfold primary_append, bind at 1.
  unfold bind at 1, get, modify.
  rewrite (mix_pops_both _ _ p ps q qs) by (cbn; assumption).
  reflexivity.
Qed.

(** X8. Chunks of the two sources, arriving in any interleaving, are mixed
    in pairs in the order of arrival: what the client callback receives is
    the mix of the first primary chunk with the first secondary chunk,
    then of the second with the second, and so on, for some number [n] of
    pairs, and nothing else; the two queues hold exactly the chunks after
    the first [n] of each source, so that no chunk is lost, used twice or
    out of order. At most one pair is mixed for each primary chunk that
    arrives. *)
Theorem mixer_pairs_in_order (k : nat) (l : list Arrival) :
  forall s : Engine,
    let all_primary := primary_buffer s ++ primaries l in
    let all_secondary := secondary_buffer s ++ secondaries l in
    let r := arrivals (ClientCallback k) l s in
    outcome r = Returned tt /\
    exists n : nat,
      effects r
        = map (fun pq => ChunkDelivered k (mixed (fst pq) (snd pq)))
              (firstn n (combine all_primary all_secondary)) /\
      primary_buffer (after r) = skipn n all_primary /\
      secondary_buffer (after r) = skipn n all_secondary /\
      (n <= length (primaries l))%nat /\
      (n <= length all_secondary)%nat.
Proof.
  induction l as [|a l IH]; intros s; cbv zeta.
  - cbn. rewrite !app_nil_r. split; [reflexivity|]. exists 0%nat.
    cbn. repeat split; lia.
  - cbn [arrivals]. unfold bind.
    destruct a as [c | c].
    + change (primaries (FromPrimary c :: l)) with (c :: primaries l).
      change (secondaries (FromPrimary c :: l)) with (secondaries l).
      destruct (secondary_buffer s) as [|q qs] eqn:Hq.
      * rewrite (arrive_primary_waits k c s Hq).
        specialize (IH (set_primary_buffer (primary_buffer s ++ [c]) s)).
        cbv zeta in IH.
        destruct (arrivals _ l _) as [[o s2] t2].
        unfold outcome, after, effects in *.
        cbn [fst snd primary_buffer secondary_buffer set_primary_buffer
             set_secondary_buffer] in *.
        rewrite Hq in IH. rewrite <- app_assoc in IH. cbn [app] in IH.
        destruct IH as (Ho & n & He & Hp & Hs & Hn1 & Hn2).
        split; [exact Ho|]. exists n.
        repeat split; try assumption. cbn [length]. lia.
      * destruct (primary_buffer s ++ [c]) as [|p ps] eqn:Hp.
        { destruct (primary_buffer s); discriminate Hp. }
        rewrite (arrive_primary_mixes k c p q ps qs s Hp Hq).
        specialize (IH (set_secondary_buffer qs (set_primary_buffer ps s))).
        cbv zeta in IH.
        destruct (arrivals _ l _) as [[o s2] t2].
        unfold outcome, after, effects in *.
        cbn [fst snd primary_buffer secondary_buffer set_primary_buffer
             set_secondary_buffer] in *.
        destruct IH as (Ho & n & He & Hp' & Hs & Hn1 & Hn2).
        split; [exact Ho|]. exists (S n).
        replace (primary_buffer s ++ c :: primaries l)
          with (p :: ps ++ primaries l)
          by (change (c :: primaries l) with ([c] ++ primaries l);
              rewrite app_assoc, Hp; reflexivity).
        cbn [app combine firstn map skipn fst snd length].
        rewrite He. repeat split; try assumption; lia.
    + change (primaries (FromSecondary c :: l)) with (primaries l).
      change (secondaries (FromSecondary c :: l)) with (c :: secondaries l).
      rewrite arrive_secondary.
      specialize (IH (set_secondary_buffer (secondary_buffer s ++ [c]) s)).
      cbv zeta in IH.
      destruct (arrivals _ l _) as [[o s2] t2].
      unfold outcome, after, effects in *.
      cbn [fst snd primary_buffer secondary_buffer set_primary_buffer
           set_secondary_buffer] in *.
      rewrite <- app_assoc in IH. cbn [app] in IH.
      destruct IH as (Ho & n & He & Hp & Hs & Hn1 & Hn2).
      split; [exact Ho|]. exists n. repeat split; assumption.
Qed.

(** *** Instances of the general argument *)

Lemma keeps_invoke (Inv : Engine -> Prop) (ok : Effect -> Prop) :
  (forall v s, Inv s -> Inv (set_primary_buffer v s)) ->
  (forall v s, Inv s -> Inv (set_secondary_buffer v s)) ->
  (forall k audio, ok (ChunkDelivered k audio)) ->
  forall cb audio, keeps Inv ok (invoke cb audio).
Proof.
  intros Hp Hs Hd. induction cb as [k | cb IH]; intros audio; cbn [invoke].
  - apply keeps_emit, Hd.
  - apply keeps_bind.
    + unfold primary_append. apply keeps_bind; [apply keeps_get|].
      intros s. apply keeps_modify. intros s'. apply Hp.
    + intros _. unfold _mix_and_callback.
      apply keeps_bind; [apply keeps_get|]. intros s.
      destruct (primary_buffer s) as [|p ps]; [apply keeps_ret|].
      destruct (secondary_buffer s) as [|q qs]; [apply keeps_ret|].
      apply keeps_bind; [apply keeps_modify; intros s'; apply Hp|].
      intros _.
      apply keeps_bind; [apply keeps_modify; intros s'; apply Hs|].
      intros _. cbv zeta. apply IH.
Qed.

Lemma keeps_forward_of_invoke (Inv : Engine -> Prop) (ok : Effect -> Prop) :
  (forall cb audio, keeps Inv ok (invoke cb audio)) ->
  forall audio, keeps Inv ok (forward audio).
Proof.
  intros H audio. unfold forward.
  apply keeps_bind; [apply keeps_get|]. intros s.
  destruct (callback s) as [cb|]; [|apply keeps_ret].
  destruct (negb (is_paused s)); [apply H | apply keeps_ret].
Qed.

Lemma keeps_on_capture_error_writes (Inv : Engine -> Prop)
    (ok : Effect -> Prop) :
  (forall f, thread_write f -> forall s, Inv s -> Inv (f s)) ->
  (forall ev, thread_effect ev -> ok ev) ->
  (forall n s, Inv s -> Inv (set_reconnect_attempts n s)) ->
  forall e, keeps Inv ok (on_capture_error e).
Proof.
  intros Hw He Hn e. unfold on_capture_error.
  keeping ltac:(first [ apply Hw; [constructor | assumption]
                      | apply Hn; assumption
                      | apply He; exact Logic.I ]).
Qed.



Lemma delivered_none (tr : list Effect) :
  Forall not_a_delivery tr -> delivered tr = [].
Proof.
  induction 1 as [|ev tr Hev _ IH]; [reflexivity|].
  cbn [delivered flat_map]. fold (delivered tr). rewrite IH.
  destruct ev; cbn in Hev; try reflexivity; contradiction.
Qed.

(** **** The stream flag inside the read loops *)








(** **** Streams opened and released *)










(** **** No exception leaves the thread *)






(** *** The silence gate *)

Lemma bind_modify {B} (f : Engine -> Engine) (k : unit -> M B) (s : Engine) :
  bind (modify f) k s = k tt (f s).
Proof.
  unfold bind, modify. destruct (k tt (f s)) as [[o s2] t2]. reflexivity.
Qed.

Lemma bind_skip {B} (k : unit -> M B) (s : Engine) :
  bind skip k s = k tt s.
Proof.
  unfold bind, skip, ret. destruct (k tt s) as [[o s2] t2]. reflexivity.
Qed.

Lemma gate_after_level (audio : Chunk) (now : Q) (k : nat) (s : Engine) :
  callback s = Some (ClientCallback k) ->
  let r := (pause <- _should_pause_on_silence now ;;
            s0 <- get ;;
            if pause then
              if negb (is_paused s0) then
                print "Pausing on silence" ;;
                modify (set_is_paused true)
              else skip
            else
              (if is_paused s0 then
                 print "Resuming from silence" ;;
                 modify (set_is_paused false)
               else skip) ;;
              forward audio) s in
  outcome r = Returned tt /\
  current_audio_level (after r) = current_audio_level s /\
  delivered (effects r) = (if is_paused (after r) then [] else [(k, audio)]) /\
  (is_paused (after r) = true <->
     (current_audio_level s < vad_threshold (config s))%Q /\
     exists since, silence_start_time s = Some since /\ (3 < now - since)%Q).
Proof.
  intros Hcb. cbv zeta.
  unfold _should_pause_on_silence, forward, print, bind, get, modify, emit,
    skip, ret.
  destruct (Qlt_bool (current_audio_level s) (vad_threshold (config s)))
    eqn:EL.
  - apply Qlt_bool_true in EL.
    destruct (silence_start_time s) as [since|] eqn:ES.
    + destruct (Qlt_bool 3 (now - since)) eqn:ED.
      * apply Qlt_bool_true in ED.
        destruct (is_paused s) eqn:EP; repeat (cbn; rewrite ?Hcb, ?EP);
          (split; [reflexivity|]; split; [reflexivity|];
           split; [reflexivity|]; split; [|reflexivity]);
          intros _; (split; [exact EL | exists since; now split]).
      * apply Qlt_bool_false in ED.
        destruct (is_paused s) eqn:EP; repeat (cbn; rewrite ?Hcb, ?EP);
          (split; [reflexivity|]; split; [reflexivity|];
           split; [reflexivity|]; split; [discriminate|]);
          intros (_ & since' & [= <-] & Hd);
          exfalso; apply (Qlt_irrefl 3); eapply Qlt_le_trans; eassumption.
    + destruct (is_paused s) eqn:EP; repeat (cbn; rewrite ?Hcb, ?EP);
        (split; [reflexivity|]; split; [reflexivity|];
         split; [reflexivity|]; split; [discriminate|]);
        intros (_ & since' & [=] & _).
  - apply Qlt_bool_false in EL.
    destruct (is_paused s) eqn:EP; repeat (cbn; rewrite ?Hcb, ?EP);
      (split; [reflexivity|]; split; [reflexivity|];
       split; [reflexivity|]; split; [discriminate|]);
      intros (Hl & _);
      exfalso; apply (Qlt_irrefl (vad_threshold (config s)));
      eapply Qle_lt_trans; eassumption.
Qed.

(** X13. One chunk through the level meter and the silence gate of a
    single-source session. The level becomes [min(rms, 1)], or stays as
    it was for an empty chunk. The session is paused afterwards exactly
    when that level is below the threshold and a silence that began more
    than 3 seconds before is on record; the chunk is passed to the client
    callback exactly when the session is not paused afterwards, and then
    unchanged. Whether the session was paused before plays no part: a
    quiet chunk within the first 3 seconds of a silence is still
    delivered, and so is the first chunk at or above the threshold after
    a pause. *)
Theorem gate_decides_delivery (audio : Chunk) (rms now : Q) (k : nat)
    (s : Engine) :
  callback s = Some (ClientCallback k) ->
  let level := if (0 <? length audio)%nat then Qmin rms 1
               else current_audio_level s in
  let r := gate_and_forward audio rms now s in
  outcome r = Returned tt /\
  get_audio_level (after r) = level /\
  delivered (effects r) = (if is_paused (after r) then [] else [(k, audio)]) /\
  (is_paused (after r) = true <->
     (level < vad_threshold (config s))%Q /\
     exists since, silence_start_time s = Some since /\ (3 < now - since)%Q).
Proof.
  intros Hcb level r. subst r level.
  rewrite gate_and_forward_forward.
  unfold _update_audio_level, get_audio_level.
  destruct (0 <? length audio)%nat.
  - rewrite bind_modify.
    exact (gate_after_level audio now k
             (set_current_audio_level (Qmin rms 1) s) Hcb).
  - rewrite bind_skip. exact (gate_after_level audio now k s Hcb).
Qed.

(** *** Read errors *)

Lemma returns_ret {A} (a : A) : returns (ret a).
Proof. intros s. now do 3 eexists. Qed.

Lemma returns_get : returns get.
Proof. intros s. now do 3 eexists. Qed.

Lemma returns_modify (f : Engine -> Engine) : returns (modify f).
Proof. intros s. now do 3 eexists. Qed.

Lemma returns_emit (ev : Effect) : returns (emit ev).
Proof. intros s. now do 3 eexists. Qed.

Lemma returns_bind {A B} (m : M A) (f : A -> M B) :
  returns m -> (forall a, returns (f a)) -> returns (bind m f).
Proof.
  intros Hm Hf s. unfold bind.
  destruct (Hm s) as (a & s1 & t1 & ->).
  destruct (Hf a s1) as (b & s2 & t2 & ->). now do 3 eexists.
Qed.

Ltac returning :=
  unfold print, skip;
  repeat first
    [ assumption
    | apply returns_ret | apply returns_get | apply returns_modify
    | apply returns_emit
    | apply returns_bind; [| intros ?]
    | progress cbv zeta
    | match goal with
      | |- returns (if ?b then _ else _) => destruct b
      | |- returns (match ?x with _ => _ end) => destruct x
      end ].

Lemma returns_invoke (cb : ChunkCallback) :
  forall audio, returns (invoke cb audio).
Proof.
  induction cb as [k | cb IH]; intros audio; cbn [invoke].
  - apply returns_emit.
  - unfold primary_append, _mix_and_callback.
    apply returns_bind; [returning|]. intros _.
    apply returns_bind; [returning|]. intros s.
    destruct (primary_buffer s); [returning|].
    destruct (secondary_buffer s); [returning|].
    apply returns_bind; [returning|]. intros _.
    apply returns_bind; [returning|]. intros _. apply IH.
Qed.

Lemma returns_gate_and_forward (audio : Chunk) (rms now : Q) :
  returns (gate_and_forward audio rms now).
Proof.
  rewrite gate_and_forward_forward.
  unfold _update_audio_level, _should_pause_on_silence, forward.
  apply returns_bind; [returning|]. intros _.
  apply returns_bind; [returning|]. intros pause.
  apply returns_bind; [returning|]. intros s.
  destruct pause; [returning|].
  apply returns_bind; [returning|]. intros _.
  apply returns_bind; [returning|]. intros s'.
  destruct (callback s'); [|returning].
  destruct (negb (is_paused s')); [apply returns_invoke | returning].
Qed.

Lemma windows_turn_tolerates (me : ThreadId) (e : Exn) (c : Z) (s : Engine) :
  c + 1 < 10 ->
  windows_turn me (ReadRaises e) c s = (Returned (c + 1), s, tolerated e).
Proof.
  intros H. apply Z.leb_gt in H.
  unfold windows_turn, try_except, raise, tolerated, read_error_msg.
  destruct (exn_class e); unfold print, bind, emit, ret; rewrite H;
    reflexivity.
Qed.

Lemma read_errors_below_the_limit (me : ThreadId) (errors : list Exn)
    (rest : list (Event Read)) :
  forall (c : Z) (s : Engine),
    stop_event s = false ->
    c + Z.of_nat (length errors) < 10 ->
    windows_read_loop me (failed_reads errors ++ rest) c s =
    let '(o, s', tr) :=
      windows_read_loop me rest (c + Z.of_nat (length errors)) s in
    (o, s', flat_map tolerated errors ++ tr).
Proof.
  induction errors as [|e errors IH]; intros c s Hs Hc.
  - cbn. rewrite Z.add_0_r.
    destruct (windows_read_loop me rest c s) as [[o s'] tr]. reflexivity.
  - cbn [failed_reads map app]. fold (failed_reads errors).
    rewrite (windows_loop_turn me _ _ c s Hs). unfold bind.
    rewrite windows_turn_tolerates by (cbn [length] in Hc; lia).
    rewrite (IH (c + 1) s Hs) by (cbn [length] in Hc; lia).
    replace (c + 1 + Z.of_nat (length errors))
      with (c + Z.of_nat (length (e :: errors))) by (cbn [length]; lia).
    destruct (windows_read_loop me rest _ s) as [[o s'] tr].
    cbn [flat_map]. now rewrite <- app_assoc.
Qed.

(** X14. The error budget of the Windows read loop, for a loop that has
    not been asked to stop and has counted [c] consecutive read errors.
    Any run of failed reads that keeps the count below 10 is tolerated:
    each error is printed and followed by a sleep of 0.1 s, nothing is
    passed to the error callback, the engine is not touched, and the loop
    goes on with the count raised by the length of the run. A read that
    succeeds brings the count back to 0, whatever it was. The failed read
    that brings the count to 10 ends the loop: an [OSError] is taken for a
    disconnection, which is handled before [RuntimeError("Device
    disconnected")] is raised; an error of another class is printed and
    raised again as it is, with the engine untouched. *)
Theorem consecutive_read_errors (me : ThreadId) (rest : list (Event Read))
    (c : Z) (s : Engine) :
  stop_event s = false ->
  (forall errors,
     c + Z.of_nat (length errors) < 10 ->
     windows_read_loop me (failed_reads errors ++ rest) c s =
     let '(o, s', tr) :=
       windows_read_loop me rest (c + Z.of_nat (length errors)) s in
     (o, s', flat_map tolerated errors ++ tr)) /\
  (forall audio rms now,
     windows_read_loop me (Step (Audio audio rms now) :: rest) c s =
     (gate_and_forward audio rms now ;; windows_read_loop me rest 0) s) /\
  (forall e,
     c + 1 = 10 -> exn_class e = OSError ->
     windows_read_loop me (Step (ReadRaises e) :: rest) c s =
     (print (read_error_msg e) ;;
      handle_device_disconnection me ;;
      raise (mkExn RuntimeError "Device disconnected")) s) /\
  (forall e,
     c + 1 = 10 -> exn_class e <> OSError ->
     windows_read_loop me (Step (ReadRaises e) :: rest) c s =
     (Raised e, s, [Printed (read_error_msg e)])).
Proof.
  intros Hs. split; [|split; [|split]].
  - intros errors Hc. now apply read_errors_below_the_limit.
  - intros audio rms now. rewrite (windows_loop_turn me _ _ c s Hs).
    unfold windows_turn, try_except, bind.
    destruct (returns_gate_and_forward audio rms now s) as ([] & s1 & t1 & ->).
    cbn -[windows_read_loop].
    destruct (windows_read_loop me rest 0 s1) as [[o s2] t2].
    now rewrite app_nil_r.
  - intros e Hc He. rewrite (windows_loop_turn me _ _ c s Hs).
    unfold bind at 1, windows_turn, try_except, raise at 1, read_error_msg.
    rewrite He, Hc. cbn [Z.leb Z.compare Pos.compare Pos.compare_cont].
    destruct (bind (print _) _ s) as [[[z | e' |] s1] t1] eqn:E;
      rewrite app_nil_l.
    + exfalso. revert E. unfold print, bind, emit, raise.
      destruct (handle_device_disconnection me s) as [[[[] | x |] s2] t2];
        discriminate.
    + revert E. unfold print, bind, emit, raise.
      destruct (handle_device_disconnection me s) as [[[[] | x |] s2] t2];
        intros [= <- <- <-]; reflexivity.
    + revert E. unfold print, bind, emit, raise.
      destruct (handle_device_disconnection me s) as [[[[] | x |] s2] t2];
        intros [= <- <-]; reflexivity.
  - intros e Hc He. rewrite (windows_loop_turn me _ _ c s Hs).
    unfold bind, windows_turn, try_except, raise, read_error_msg.
    rewrite Hc. destruct (exn_class e); try congruence; reflexivity.
Qed.

(** **** A session with nothing to mix *)

Lemma nothing_to_mix_write (f : Engine -> Engine) :
  thread_write f -> forall s, nothing_to_mix s -> nothing_to_mix (f s).
Proof.
  intros Hf s [Hb Hc]. destruct Hf; split; cbn; auto; discriminate.
Qed.

Lemma delivery_effect (ev : Effect) : thread_effect ev -> not_a_delivery ev.
Proof. destruct ev; cbn; auto. Qed.

Lemma nothing_to_mix_forward (audio : Chunk) :
  keeps nothing_to_mix not_a_delivery (forward audio).
Proof.
  intros s [Hb Hc]. unfold forward, bind, get.
  destruct (callback s) as [cb|] eqn:E.
  - destruct (Hc cb eq_refl) as [mixed_to ->].
    destruct (negb (is_paused s)).
    + cbn [invoke]. unfold primary_append, bind, get, modify.
      rewrite mix_waits by (right; exact Hb).
      cbn. split; [|constructor].
      split; [exact Hb|]. cbn. rewrite E. intros cb [= <-]. now eexists.
    + cbn. split; [|constructor]. split; [exact Hb|].
      rewrite E. intros cb [= <-]. now eexists.
  - cbn. split; [|constructor]. split; [exact Hb|].
    rewrite E. discriminate.
Qed.

Lemma nothing_to_mix_capture_loop (me : ThreadId) (host : Host)
    (script : list (Event Attempt)) :
  keeps nothing_to_mix not_a_delivery (_capture_loop me host script).
Proof.
  apply (keeps_capture_loop _ _ (fun _ => True) nothing_to_mix_write
           delivery_effect).
  - intros rms s _ H. exact H.
  - apply nothing_to_mix_forward.
  - intros b s H. exact H.
  - intros s H. exact H.
  - intros d. exact I.
  - exact I.
  - apply keeps_on_capture_error_writes;
      [apply nothing_to_mix_write | apply delivery_effect
      | intros n s H; exact H].
  - apply Forall_forall. intros x _. exact I.
Qed.

(** A chunk at or above the threshold forwarded by a session that holds
    the closure of the mixer and no chunk of a secondary source: it is
    queued, and nothing is done to the world. *)
Lemma loud_chunk_is_queued (audio : Chunk) (rms now : Q) (cb : ChunkCallback)
    (s : Engine) :
  audio <> [] ->
  (vad_threshold (config s) <= Qmin rms 1)%Q ->
  is_paused s = false ->
  callback s = Some (PrimaryCallback cb) ->
  secondary_buffer s = [] ->
  gate_and_forward audio rms now s =
  (Returned tt,
   set_primary_buffer (primary_buffer s ++ [audio])
     (set_silence_start_time None (set_current_audio_level (Qmin rms 1) s)),
   []).
Proof.
  intros Ha Hl Hp Hcb Hsb.
  rewrite (forward_when_loud audio rms now s (PrimaryCallback cb))
    by assumption.
  cbn [invoke]. unfold primary_append, bind at 1.
  unfold bind at 1, get, modify.
  rewrite mix_waits by (right; exact Hsb). reflexivity.
Qed.

Lemma loud_reads_are_queued (me : ThreadId) (cb : ChunkCallback) (th : Q)
    (chunks : list (Chunk * Q * Q)) :
  Forall (loud th) chunks ->
  forall (c : Z) (s : Engine),
    stop_event s = false ->
    vad_threshold (config s) = th ->
    is_paused s = false ->
    callback s = Some (PrimaryCallback cb) ->
    secondary_buffer s = [] ->
    exists s',
      windows_read_loop me (map heard chunks) c s = (Pending, s', []) /\
      primary_buffer s' = primary_buffer s ++ map audio_of chunks /\
      secondary_buffer s' = [] /\
      stream s' = stream s.
Proof.
  induction 1 as [|[[audio rms] now] chunks [Ha Hl] _ IH];
    intros c s Hstop Hth Hp Hcb Hsb.
  - exists s. cbn. unfold bind, get, pending. rewrite Hstop.
    rewrite app_nil_r. repeat split; assumption.
  - cbn [map heard].
    rewrite (windows_loop_turn me _ _ c s Hstop).
    unfold bind, windows_turn, try_except.
    rewrite <- Hth in Hl.
    unfold bind.
    rewrite (loud_chunk_is_queued audio rms now cb s Ha Hl Hp Hcb Hsb).
    cbn [ret].
    destruct (IH 0
                (set_primary_buffer (primary_buffer s ++ [audio])
                   (set_silence_start_time None
                      (set_current_audio_level (Qmin rms 1) s))))
      as (s' & E & Hpb & Hsb' & Hst); try assumption.
    rewrite E. exists s'. split; [reflexivity|].
    cbn [primary_buffer set_primary_buffer] in Hpb.
    rewrite Hpb, <- app_assoc. repeat split; assumption.
Qed.

(** A Windows attempt that opens the device and reads chunks at or
    above the threshold, on such a session: the thread is still reading
    and the chunks are queued. *)
Lemma windows_attempt_queues (me : ThreadId) (host : Host) (a : Attempt)
    (chunks : list (Chunk * Q * Q)) (cb : ChunkCallback) (s : Engine) :
  platform host = Win32 ->
  backend_available host = true ->
  stop_event s = false ->
  is_paused s = false ->
  callback s = Some (PrimaryCallback cb) ->
  secondary_buffer s = [] ->
  check_device_available (devices a) (current_device_id s) = true ->
  open_error a = None ->
  reads a = map heard chunks ->
  Forall (loud (vad_threshold (config s))) chunks ->
  exists s' tr,
    _capture_loop me host [Step a] s = (Pending, s', tr) /\
    primary_buffer s' = primary_buffer s ++ map audio_of chunks.
Proof.
  intros Hw Hb Hstop Hp Hcb Hsb Ha Ho Hr Hl.
  destruct (loud_reads_are_queued me cb (vad_threshold (config s)) chunks Hl 0
              (set_reconnect_attempts 0 (set_stream true s)))
    as (s3 & E3 & Hpb3 & _); try assumption; try reflexivity.
  rewrite capture_loop_step by exact Hstop.
  unfold supervised, try_except. rewrite Hw.
  unfold _capture_loop_windows. rewrite Hb. cbn [negb].
  unfold try_finally, require_device, print, emit, modify, get, skip, ret,
    raise, bind.
  rewrite Ha. cbn [negb fst snd]. rewrite Ho. cbn [fst snd].
  rewrite Hr, E3.
  do 2 eexists. split; [reflexivity|]. exact Hpb3.
Qed.

(** X10. [set_device] on a two-source session, called from another
    thread, at any moment of the session: it stops both sources and
    restarts a single-source session on the new device, but the callback
    it registers again is the closure [primary_callback] of the mixer and
    not the client's callable. The secondary source is gone and both
    queues are empty, so the capture thread of the restarted session
    delivers nothing to the client, whatever the device does, and what it
    forwards is queued: after a Windows attempt that opens the new device
    and reads chunks at or above the threshold, the primary queue holds
    exactly these chunks, in order. *)
Theorem set_device_of_a_mixed_session (me t : ThreadId) (device : Z)
    (cb : ChunkCallback) (s : Engine) :
  is_capturing s = true ->
  capture_thread s = Some t ->
  callback s = Some (PrimaryCallback cb) ->
  t <> me ->
  secondary_thread s <> Some me ->
  let r := set_device me device s in
  outcome r = Returned tt /\
  is_capturing (after r) = true /\
  current_device_id (after r) = Some device /\
  secondary_device_id (after r) = None /\
  callback (after r) = Some (PrimaryCallback cb) /\
  primary_buffer (after r) = [] /\
  secondary_buffer (after r) = [] /\
  threads_started (effects r) = [(threads_created s, CaptureLoop)] /\
  (forall (me' : ThreadId) (host : Host) (script : list (Event Attempt)),
     delivered (effects (_capture_loop me' host script (after r))) = []) /\
  (forall (me' : ThreadId) (host : Host) (a : Attempt)
          (chunks : list (Chunk * Q * Q)),
     platform host = Win32 ->
     backend_available host = true ->
     check_device_available (devices a) (Some device) = true ->
     open_error a = None ->
     reads a = map heard chunks ->
     Forall (loud (vad_threshold (config s))) chunks ->
     let run := _capture_loop me' host [Step a] (after r) in
     outcome run = Pending /\
     primary_buffer (after run) = map audio_of chunks /\
     delivered (effects run) = []).
Proof.
  intros Hc Ht Hcb Hne Hsec r.
  destruct (stop_capture_from_outside me t s Hc Ht Hne Hsec)
    as (s1 & before & E & Hst & _ & _ & Hcap & Hcb1 & _ & Hp1 & _ & Hpb & Hsb
        & Hsd & Hcfg & _ & _ & Htc & _).
  pose proof (set_device_while_capturing me t device _ s Hc Ht Hcb Hne Hsec)
    as Eset.
  rewrite E in Eset. cbn [after effects fst snd] in Eset.
  rewrite (start_capture_idle device (PrimaryCallback cb) None s1 Hcap)
    in Eset.
  cbn [after effects fst snd] in Eset.
  assert (Hmix : nothing_to_mix (after r)).
  { subst r. rewrite Eset. unfold after. cbn [fst snd].
    split; [exact Hsb|]. cbn. intros cb' [= <-]. now eexists. }
  assert (Hdel : forall me' host script,
             delivered (effects (_capture_loop me' host script (after r)))
             = []).
  { intros me' host script. apply delivered_none.
    now apply nothing_to_mix_capture_loop. }
  split; [|split; [|split; [|split; [|split; [|split; [|split;
    [|split; [|split; [exact Hdel|]]]]]]]]];
    try (subst r; rewrite Eset; unfold outcome, after, effects;
         cbn [fst snd]; first [reflexivity | assumption]).
  - subst r. rewrite Eset. unfold effects. cbn [snd].
    change (Printed "Stopping audio capture" :: before ++ [ThreadJoined t 2])
      with ([Printed "Stopping audio capture"]
            ++ before ++ [ThreadJoined t 2]).
    rewrite !threads_started_app, Hst. cbn. now rewrite Htc.
  - intros me' host a chunks Hw Hb Ha Ho Hr Hl run.
    assert (Hrun : exists s' tr,
               run = (Pending, s', tr) /\
               primary_buffer s' = primary_buffer (after r)
                                   ++ map audio_of chunks).
    { subst run.
      apply (windows_attempt_queues me' host a chunks cb); try assumption;
        subst r; rewrite Eset; unfold after; cbn [fst snd]; cbn;
        first [reflexivity | assumption | now rewrite Hcfg]. }
    destruct Hrun as (s' & tr & Erun & Hq).
    split; [|split; [|apply Hdel]].
    + rewrite Erun. reflexivity.
    + rewrite Erun. unfold after at 1. cbn [fst snd]. rewrite Hq.
      subst r. rewrite Eset. unfold after. cbn [fst snd]. cbn.
      rewrite Hpb. reflexivity.
Qed.

(** **** The reconnection counter and the level *)

Lemma within_budget_write (m : Z) (f : Engine -> Engine) :
  thread_write f -> forall s, within_budget m s -> within_budget m (f s).
Proof. intros Hf s H. destruct Hf; exact H. Qed.

Lemma any_effect (ev : Effect) : thread_effect ev -> True.
Proof. auto. Qed.

Lemma within_budget_on_capture_error (m : Z) (e : Exn) :
  keeps (within_budget m) (fun _ => True) (on_capture_error e).
Proof.
  intros s [Hm Hr].
  assert (Hall : forall tr : list Effect, Forall (fun _ => True) tr)
    by (intros tr; apply Forall_forall; auto).
  destruct (Z.lt_ge_cases (reconnect_attempts s) (max_reconnect_attempts s))
    as [H | H].
  - rewrite (on_capture_error_retry e s H). split; [|apply Hall].
    unfold within_budget. cbn. split; [exact Hm | lia].
  - rewrite (on_capture_error_terminal e s H). split; [|apply Hall].
    unfold within_budget. cbn. split; [exact Hm | lia].
Qed.

Lemma within_budget_capture_loop (m : Z) (me : ThreadId) (host : Host)
    (script : list (Event Attempt)) :
  keeps (within_budget m) (fun _ => True) (_capture_loop me host script).
Proof.
  apply (keeps_capture_loop _ _ (fun _ => True) (within_budget_write m)
           any_effect).
  - intros rms s _ H. exact H.
  - apply keeps_forward_of_invoke, keeps_invoke; auto.
  - intros b s H. exact H.
  - intros s [Hm Hr]. unfold within_budget. cbn. split; [exact Hm | lia].
  - auto.
  - auto.
  - apply within_budget_on_capture_error.
  - apply Forall_forall. intros x _. exact I.
Qed.

(** X11. The reconnection counter stays within its budget on the capture
    thread: from an engine with [0 <= reconnect_attempts <=
    max_reconnect_attempts], as [start_capture] leaves it, whatever the
    device and the enumerator do and however long the thread runs, the
    counter is never negative and never above [max_reconnect_attempts],
    and [max_reconnect_attempts] itself is never changed. *)
Theorem reconnect_attempts_within_budget (me : ThreadId) (host : Host)
    (script : list (Event Attempt)) (s : Engine) :
  0 <= reconnect_attempts s <= max_reconnect_attempts s ->
  let s' := after (_capture_loop me host script s) in
  0 <= reconnect_attempts s' <= max_reconnect_attempts s' /\
  max_reconnect_attempts s' = max_reconnect_attempts s.
Proof.
  intros H s'. subst s'.
  destruct (within_budget_capture_loop (max_reconnect_attempts s) me host
              script s (conj eq_refl H)) as [[Hm Hr] _].
  split; [exact Hr | exact Hm].
Qed.

Lemma level_write (f : Engine -> Engine) :
  thread_write f -> forall s, level_in_range s -> level_in_range (f s).
Proof. intros Hf s H. destruct Hf; exact H. Qed.

Lemma level_capture_loop (me : ThreadId) (host : Host)
    (script : list (Event Attempt)) :
  rms_never_negative script ->
  keeps level_in_range (fun _ => True) (_capture_loop me host script).
Proof.
  intros Hg.
  apply (keeps_capture_loop _ _ (fun rms => 0 <= rms)%Q level_write
           any_effect).
  - intros rms s Hr _. unfold level_in_range. cbn. split.
    + apply Q.min_glb; [exact Hr | discriminate].
    + apply Q.le_min_r.
  - apply keeps_forward_of_invoke, keeps_invoke; auto.
  - intros b s H. exact H.
  - intros s H. exact H.
  - auto.
  - auto.
  - apply keeps_on_capture_error_writes;
      [apply level_write | apply any_effect | intros n s H; exact H].
  - exact Hg.
Qed.

(** X12. [get_audio_level] stays a level: when every RMS that the capture
    thread computes is non-negative, as a root mean square is, the value
    that [get_audio_level] returns is between 0 and 1 from the start of
    the session on, however loud the device is and whatever else happens
    on the thread. *)
Theorem audio_level_stays_in_range (me : ThreadId) (host : Host)
    (script : list (Event Attempt)) (s : Engine) :
  rms_never_negative script ->
  (0 <= get_audio_level s)%Q /\ (get_audio_level s <= 1)%Q ->
  let s' := after (_capture_loop me host script s) in
  (0 <= get_audio_level s')%Q /\ (get_audio_level s' <= 1)%Q.
Proof.
  intros Hg H s'. subst s'.
  exact (proj1 (level_capture_loop me host script Hg s H)).
Qed.

(** *** A disconnection found by the capture thread itself *)




(** *** The thread of the secondary source *)

Lemma calm_secondary_capture_loop (host : Host) (device : Z) (a : Attempt) :
  calm (_secondary_capture_loop host device a).
Proof.
  intros s e. unfold _secondary_capture_loop, try_except.
  destruct (platform host).
  - destruct (_secondary_capture_windows host device a s)
      as [[[[] | e' |] s1] t1]; cbn; discriminate.
  - destruct (_secondary_capture_unix host device a s)
      as [[[[] | e' |] s1] t1]; cbn; discriminate.
Qed.

Section SecondaryFrame.

Variable s0 : Engine.

Ltac frame :=
  first [ exact I
        | match goal with
          | H : secondary_frame s0 ?s |- _ => exact H
          end ].

Lemma frame_secondary_append (audio : Chunk) :
  keeps (secondary_frame s0) quiet_effect (secondary_append audio).
Proof.
  intros s [Hs [chunks Hc]]. unfold secondary_append, bind, get, modify.
  cbn. split; [|constructor]. split; [exact Hs|].
  exists (chunks ++ [audio]). cbn. now rewrite Hc, app_assoc.
Qed.

Lemma frame_secondary_read_loop (reads : list (Event Read)) :
  keeps (secondary_frame s0) quiet_effect (secondary_read_loop reads).
Proof.
  pose proof frame_secondary_append as Ha.
  induction reads as [|[r|] rest IH]; cbn [secondary_read_loop];
    (apply keeps_bind; [apply keeps_get|]); intros s;
    (destruct (secondary_stop_event s); [apply keeps_ret|]).
  - apply keeps_pending.
  - apply keeps_bind; [|intros _; exact IH].
    unfold secondary_turn. apply keeps_try_except.
    + destruct r; [apply Ha | apply keeps_raise].
    + intros e. keeping frame.
  - apply keeps_bind; [|intros _; exact IH].
    apply keeps_modify. intros s' H. exact H.
Qed.

Lemma frame_secondary_poll_loop (polls : list (Event Poll)) :
  keeps (secondary_frame s0) quiet_effect (secondary_poll_loop polls).
Proof.
  pose proof frame_secondary_append as Ha.
  induction polls as [|[p|] rest IH]; cbn [secondary_poll_loop];
    (apply keeps_bind; [apply keeps_get|]); intros s;
    (destruct (secondary_stop_event s); [apply keeps_ret|]).
  - apply keeps_pending.
  - apply keeps_bind; [|intros _; exact IH].
    unfold secondary_poll.
    destruct p as [[st|] [[[audio rms] now]|]]; cbn [status buffered];
      repeat (apply keeps_bind; [|intros _]);
      first [ apply Ha | keeping frame ].
  - apply keeps_bind; [|intros _; exact IH].
    apply keeps_modify. intros s' H. exact H.
Qed.

Lemma frame_secondary_capture_loop (host : Host) (device : Z) (a : Attempt) :
  keeps (secondary_frame s0) quiet_effect (_secondary_capture_loop host device a).
Proof.
  pose proof (frame_secondary_read_loop (reads a)) as Hr.
  pose proof (frame_secondary_poll_loop (polls a)) as Hp.
  unfold _secondary_capture_loop, _secondary_capture_windows,
    _secondary_capture_unix.
  keeping frame.
Qed.

End SecondaryFrame.

(** X16. The thread of the secondary source fails in silence. Whatever
    its device does, on either platform, its function lets no exception
    out, never calls the error callback and starts or joins no thread: it
    only prints, sleeps, and opens and closes its own stream. It leaves
    the session as it finds it: [is_capturing], the stop flag, the
    callback, the device, the reconnection counter, [last_error], the
    error callback, the primary queue and the primary stream are
    untouched, and the secondary queue only grows at its end. So a
    secondary device that cannot be opened or read is noticed by nobody:
    the primary capture goes on and its chunks wait in the mixer. *)
Theorem secondary_thread_fails_in_silence (host : Host) (device : Z)
    (a : Attempt) (s : Engine) :
  let r := _secondary_capture_loop host device a s in
  (outcome r = Returned tt \/ outcome r = Pending) /\
  Forall quiet_effect (effects r) /\
  reports (effects r) = [] /\
  same_session s (after r) /\
  exists chunks, secondary_buffer (after r) = secondary_buffer s ++ chunks.
Proof.
  cbv zeta.
  assert (H0 : secondary_frame s s).
  { split; [repeat split | exists []; now rewrite app_nil_r]. }
  destruct (frame_secondary_capture_loop s host device a s H0)
    as [[Hs Hc] He].
  pose proof (calm_secondary_capture_loop host device a s) as Hcalm.
  split; [|split; [exact He | split; [|split; assumption]]].
  - destruct (outcome (_secondary_capture_loop host device a s))
      as [[] | e |]; [now left | exfalso; now apply (Hcalm e) | now right].
  - clear -He. induction He as [|ev tr Hev _ IH]; [reflexivity|].
    cbn [reports flat_map]. fold (reports tr). rewrite IH.
    destruct ev; cbn in Hev; try reflexivity; contradiction.
Qed.

(** What the Windows read loop of the secondary thread makes of failed
    reads: there is no limit. *)
Lemma secondary_read_loop_turn (r : Read) (rest : list (Event Read))
    (s : Engine) :
  secondary_stop_event s = false ->
  secondary_read_loop (Step r :: rest) s =
  bind (secondary_turn r) (fun _ => secondary_read_loop rest) s.
Proof.
  intros H. cbn [secondary_read_loop]. unfold bind at 1, get. rewrite H.
  destruct (bind _ _ s) as [[o s'] tr]. reflexivity.
Qed.

(** X17. The read loop of the secondary thread on Windows has no error
    limit: after any number of consecutive failed reads, each printed and
    followed by a sleep of 0.1 s, it is still reading, with the engine
    untouched; only the secondary stop flag ends it. *)
Theorem secondary_read_errors_without_limit (errors : list Exn)
    (rest : list (Event Read)) (s : Engine) :
  secondary_stop_event s = false ->
  secondary_read_loop (failed_reads errors ++ rest) s =
  let '(o, s', tr) := secondary_read_loop rest s in
  (o, s',
   flat_map (fun e => [Printed ("Error reading secondary audio: "
                                +++ exn_msg e); Slept (1 # 10)]) errors
   ++ tr).
Proof.
  intros Hs. induction errors as [|e errors IH].
  - cbn. destruct (secondary_read_loop rest s) as [[o s'] tr]. reflexivity.
  - cbn [failed_reads map app]. fold (failed_reads errors).
    rewrite (secondary_read_loop_turn _ _ s Hs). unfold bind.
    cbn [secondary_turn try_except raise print emit bind].
    unfold secondary_turn, try_except, raise, print, emit, bind.
    rewrite IH.
    destruct (secondary_read_loop rest s) as [[o s'] tr].
    cbn [flat_map app]. reflexivity.
Qed.

(** *** The properties at work on the example sessions *)


Lemma set_device_of_a_mixed_session_witness :
  callback mixed_then_switched = Some (PrimaryCallback (ClientCallback 0)) /\
  primary_buffer
    (after (_capture_loop 3%nat windows [Step two_loud_chunks]
              mixed_then_switched))
  = [[1 # 2; 1 # 2]%Q; [1 # 2; -1 # 2]%Q] /\
  delivered
    (effects (_capture_loop 3%nat windows [Step two_loud_chunks]
                mixed_then_switched))
  = [].
Proof.
  assert (H1 : (1 <> 0)%nat) by lia.
  assert (H2 : secondary_thread
                 (after (start_multi_source_capture [1; 2] (ClientCallback 0)
                           idle)) <> Some 0%nat)
    by (vm_compute; discriminate).
  pose proof (set_device_of_a_mixed_session 0%nat 1%nat 5 (ClientCallback 0)
                (after (start_multi_source_capture [1; 2] (ClientCallback 0)
                          idle))
                eq_refl eq_refl eq_refl H1 H2) as H.
  cbv zeta in H.
  destruct H as (_ & _ & _ & _ & Hcb & _ & _ & _ & _ & Hq).
  split; [exact Hcb|].
  assert (Hl : Forall (loud (vad_threshold
                               (config (after (start_multi_source_capture
                                                 [1; 2] (ClientCallback 0)
                                                 idle)))))
                 [([1 # 2; 1 # 2]%Q, 1 # 2, 10); ([1 # 2; -1 # 2]%Q, 1 # 2, 11)]%Q).
  { repeat constructor; try discriminate; unfold Qle; cbn; lia. }
  destruct (Hq 3%nat windows two_loud_chunks _ eq_refl eq_refl eq_refl eq_refl
              eq_refl Hl) as (_ & Hp & Hd).
  split; [exact Hp | exact Hd].
Defined.

Lemma reconnect_attempts_within_budget_witness :
  0 <= reconnect_attempts
         (after (_capture_loop 1%nat windows [Step open_fails; Step open_fails]
                   capturing))
    <= max_reconnect_attempts
         (after (_capture_loop 1%nat windows [Step open_fails; Step open_fails]
                   capturing)).
Proof.
  assert (H0 : 0 <= reconnect_attempts capturing
                 <= max_reconnect_attempts capturing) by (cbn; lia).
  exact (proj1 (reconnect_attempts_within_budget 1%nat windows
                  [Step open_fails; Step open_fails] capturing H0)).
Defined.

Lemma audio_level_stays_in_range_witness :
  (0 <= get_audio_level
          (after (_capture_loop 1%nat windows [Step heard_then_stopped]
                    capturing)))%Q /\
  (get_audio_level
     (after (_capture_loop 1%nat windows [Step heard_then_stopped] capturing))
   <= 1)%Q.
Proof.
  assert (Hg : rms_never_negative [Step heard_then_stopped])
    by (repeat constructor; unfold Qle; cbn; lia).
  assert (H0 : (0 <= get_audio_level capturing)%Q /\
               (get_audio_level capturing <= 1)%Q)
    by (split; unfold Qle; cbn; lia).
  exact (audio_level_stays_in_range 1%nat windows [Step heard_then_stopped]
           capturing Hg H0).
Defined.

Lemma gate_decides_delivery_witness :
  delivered (effects (gate_and_forward [1 # 2; 1 # 2]%Q (1 # 2) 10 capturing))
  = [(0%nat, [1 # 2; 1 # 2]%Q)].
Proof.
  pose proof (gate_decides_delivery [1 # 2; 1 # 2]%Q (1 # 2) 10 0%nat
                capturing eq_refl) as H.
  cbv zeta in H. destruct H as (_ & _ & H & _).
  rewrite H. reflexivity.
Defined.

Lemma consecutive_read_errors_witness :
  windows_read_loop 1%nat [Step (ReadRaises overflow)] 9 capturing =
  (Raised overflow, capturing, [Printed (read_error_msg overflow)]).
Proof.
  pose proof (consecutive_read_errors 1%nat [] 9 capturing eq_refl) as H.
  destruct H as (_ & _ & _ & H).
  apply H; [reflexivity | discriminate].
Defined.

Lemma secondary_read_errors_without_limit_witness :
  outcome (secondary_read_loop
             (failed_reads (repeat overflow 20) ++ []) idle)
  = Pending.
Proof.
  pose proof (secondary_read_errors_without_limit (repeat overflow 20) []
                idle eq_refl) as H.
  rewrite H. reflexivity.
Defined.

End AudioFacts.
